(** * Tor's Libevent compatibility layer ([src/common/compat_libevent.c])

    A shallow embedding of the version codec, the compatibility matrix,
    the header/runtime skew check, the event-base singleton, the periodic
    timers and the log callback, with the properties of each.

    Conventions.
    - A C string is modelled by a Rocq [string] holding the characters in
      front of the terminating NUL.
    - [uint32_t] and [unsigned] values are integers in [Z] with the
      wrap-around modulo 2^32 written out ([wrap32]).
    - A [char] is its code in [Z], from 0 to 255.  Where [char] is signed
      a code beyond 127 is negative in C; the code at hand compares
      characters with ASCII characters only and computes with a character
      only after [TOR_ISALPHA] holds for it, so both readings agree.
    - Pointers are addresses in typed heaps; the use of a null or released
      pointer is the outcome [Undefined]. *)

From Stdlib Require Import ZArith Ascii String Lia.
From stdpp Require Import base gmap list strings.

#[local] Open Scope Z_scope.

(** ** Characters *)

(** The code of a character, as the C code sees a [char]. *)
Definition chr (a : ascii) : Z := Z.of_N (N_of_ascii a).

Definition chars (s : string) : list ascii := list_ascii_of_string s.

(** Modelled from the spec: [TOR_ISALPHA] is a macro of compat.h, which is
    not under src/; a "letter" is one of the ASCII letters [A-Z] and
    [a-z]. *)
Definition TOR_ISALPHA (c : Z) : bool :=
  ((chr "A" <=? c) && (c <=? chr "Z")) || ((chr "a" <=? c) && (c <=? chr "z")).

(** ** Version numbers: [le_version_t], [V], [V_OLD], [LE_OLD], [LE_OTHER] *)

Definition wrap32 (x : Z) : Z := x mod 2 ^ 32.

(** [#define V(major, minor, patch)
       (((major) << 24) | ((minor) << 16) | ((patch) << 8))]
    evaluated in 32-bit unsigned arithmetic. *)
Definition V (major minor patch : Z) : Z :=
  wrap32 (Z.lor (Z.lor (Z.shiftl major 24) (Z.shiftl minor 16))
                (Z.shiftl patch 8)).

(** [#define V_OLD(major, minor, patch) V((major), (minor), (patch)-'a'+1)] *)
Definition V_OLD (major minor patch : Z) : Z :=
  V major minor (patch - chr "a" + 1).

Definition LE_OLD : Z := V 0 0 0.
Definition LE_OTHER : Z := V 0 0 99.

(** ** The C library's [sscanf], for the conversions the code uses

    [sscanf] belongs to the C library.  The model follows the C standard:
    [%u] skips white space, takes an optional sign and then at least one
    decimal digit; [%c] takes one character and skips nothing; any other
    format character has to match the next input character.  The result is
    the number of assigned items, or [EOF] when the input ends before the
    first conversion.  A number beyond the range of [unsigned] is reduced
    modulo 2^32 (the standard leaves that case open). *)
Module Scanf.

Definition EOF : Z := -1.

Inductive directive : Type :=
| Conv_u
| Conv_c
| Lit (c : ascii).

Fixpoint parse_format (f : list ascii) : list directive :=
  match f with
  | [] => []
  | "%"%char :: "u"%char :: f' => Conv_u :: parse_format f'
  | "%"%char :: "c"%char :: f' => Conv_c :: parse_format f'
  | c :: f' => Lit c :: parse_format f'
  end.

(** [isspace] in the C locale. *)
Definition is_space (c : ascii) : bool :=
  let n := chr c in (n =? 32) || ((9 <=? n) && (n <=? 13)).

Definition is_digit (c : ascii) : bool :=
  let n := chr c in (chr "0" <=? n) && (n <=? chr "9").

Definition digit_value (c : ascii) : Z := chr c - chr "0".

Fixpoint skip_space (s : list ascii) : list ascii :=
  match s with
  | c :: s' => if is_space c then skip_space s' else s
  | [] => []
  end.

(** Consume the longest run of digits, accumulating its value. *)
Fixpoint scan_digits (s : list ascii) (acc : Z) : Z * list ascii :=
  match s with
  | c :: s' =>
      if is_digit c then scan_digits s' (10 * acc + digit_value c)
      else (acc, s)
  | [] => (acc, [])
  end.

Inductive step_result : Type :=
| Matched (assigned : option Z) (rest : list ascii)
| MatchingFailure
| InputFailure.

Definition scan_unsigned (s : list ascii) : step_result :=
  match skip_space s with
  | [] => InputFailure
  | c :: r =>
      let '(negative, body) :=
        if Ascii.eqb c "-" then (true, r)
        else if Ascii.eqb c "+" then (false, r)
        else (false, c :: r) in
      match body with
      | d :: _ =>
          if is_digit d then
            let '(n, rest) := scan_digits body 0 in
            Matched (Some (wrap32 (if negative then - n else n))) rest
          else MatchingFailure
      | [] => MatchingFailure
      end
  end.

Definition step (d : directive) (s : list ascii) : step_result :=
  match d with
  | Conv_u => scan_unsigned s
  | Conv_c =>
      match s with
      | c :: r => Matched (Some (chr c)) r
      | [] => InputFailure
      end
  | Lit l =>
      match s with
      | c :: r => if Ascii.eqb c l then Matched None r else MatchingFailure
      | [] => InputFailure
      end
  end.

(** Run the directives; [vals] are the items assigned so far, in order. *)
Fixpoint run (fmt : list directive) (s : list ascii) (vals : list Z)
  : Z * list Z :=
  match fmt with
  | [] => (Z.of_nat (length vals), vals)
  | d :: fmt' =>
      match step d s with
      | Matched (Some v) s' => run fmt' s' (vals ++ [v])
      | Matched None s' => run fmt' s' vals
      | MatchingFailure => (Z.of_nat (length vals), vals)
      | InputFailure =>
          (match vals with [] => EOF | _ => Z.of_nat (length vals) end, vals)
      end
  end.

(** [sscanf(v, format, ...)]: the return value and the assigned items. *)
Definition sscanf (v format : string) : Z * list Z :=
  run (parse_format (chars format)) (chars v) [].

(** The variable behind the [i]-th pointer argument after the call: the
    assigned item, or the variable's previous content [old]. *)
Definition arg (i : nat) (vals : list Z) (old : Z) : Z :=
  nth i vals old.

End Scanf.

(** ** [tor_decode_libevent_version] *)

(** The locals [major], [minor], [patchlevel], [c], [e], [extra] start out
    uninitialised; [junk] gives their initial contents. *)
Record locals : Type := Locals {
  junk_major : Z; junk_minor : Z; junk_patchlevel : Z;
  junk_c : Z; junk_e : Z; junk_extra : Z
}.

Definition is_sep (c : Z) : bool := (c =? chr "-") || (c =? chr "_").

Definition decode_with (junk : locals) (v : string) : Z :=
  let '(fields, a) := Scanf.sscanf v "%u.%u.%u%c%c" in
  let major := Scanf.arg 0 a (junk_major junk) in
  let minor := Scanf.arg 1 a (junk_minor junk) in
  let patchlevel := Scanf.arg 2 a (junk_patchlevel junk) in
  let c := Scanf.arg 3 a (junk_c junk) in
  let e := Scanf.arg 4 a (junk_e junk) in
  if (fields =? 3)
     || (((fields =? 4) || (fields =? 5)) && is_sep c)
     || ((fields =? 5) && TOR_ISALPHA c && is_sep e)
  then V major minor patchlevel
  else
    let '(fields, a) := Scanf.sscanf v "%u.%u%c%c" in
    let major := Scanf.arg 0 a major in
    let minor := Scanf.arg 1 a minor in
    let c := Scanf.arg 2 a c in
    let extra := Scanf.arg 3 a (junk_extra junk) in
    if (fields =? 3) && TOR_ISALPHA c then V_OLD major minor c
    else if fields =? 2 then V major minor 0
    else LE_OTHER.

Definition zeroed : locals := Locals 0 0 0 0 0 0.

Definition tor_decode_libevent_version (v : string) : Z :=
  decode_with zeroed v.

(** ** [le_versions_compatibility] *)

Definition le_versions_compatibility (v : Z) : Z :=
  if v =? LE_OTHER then 0
  else if v <? V_OLD 1 0 (chr "c") then 1
  else if v <? V 1 4 0 then 2
  else if v <? V 1 4 99 then 3
  else if v <? V 2 0 1 then 4
  else 5.

(** ** The build configuration and the linked library

    The preprocessor symbols the file branches on, and what the Libevent
    library answers when asked. *)

Inductive os_family : Type :=
| BSD          (* __OpenBSD__, __FreeBSD__ or __NetBSD__ *)
| Apple        (* __APPLE__ or __darwin__ *)
| OtherOS.

Record build : Type := Build {
  HAVE_EVENT2_EVENT_H : bool;
  HAVE_EVENT_GET_VERSION_NUMBER : bool;
  HAVE_EVENT_GET_VERSION : bool;
  HAVE_EVENT_GET_METHOD : bool;
  target_os : os_family;
  MACOSX_KQUEUE_IS_BROKEN : bool
}.

(** [HAVE_PERIODIC] is defined exactly when [HAVE_EVENT2_EVENT_H] is. *)
Definition HAVE_PERIODIC (b : build) : bool := HAVE_EVENT2_EVENT_H b.

Definition EV_PERSIST : Z := 16.
Definition PERIODIC_FLAGS (b : build) : Z :=
  if HAVE_EVENT2_EVENT_H b then EV_PERSIST else 0.

(** A pointer is an address or [NULL]; addresses are positive numbers and
    [None] is [NULL]. *)
Abbreviation addr := positive (only parsing).
Abbreviation ptr := (option positive) (only parsing).

Record libevent : Type := Libevent {
  event_get_version : string;
  event_get_version_number : Z;
  event_get_method : string;
  (** what [event_config_new] and [event_base_new_with_config] (or
      [event_init]) hand back *)
  event_config_new : ptr;
  event_base_new : ptr
}.

(** ** The log *)

Inductive log_severity : Type :=
| LOG_DEBUG | LOG_INFO | LOG_NOTICE | LOG_WARN | LOG_ERR.

Inductive log_domain : Type := LD_GENERAL | LD_NET | LD_NOCB.

Inductive log_arg : Type :=
| Str (s : string)
| Int (n : Z).

(** One call of [log(severity, domain, format, args...)]. *)
Record log_entry : Type := LogEntry {
  log_sev : log_severity;
  log_dom : list log_domain;
  log_format : string;
  log_args : list log_arg
}.

(** ** The program state *)

Record timeval : Type := Timeval { tv_sec : Z; tv_usec : Z }.

(** The callback of an event: the file registers only [periodic_timer_cb]. *)
Inductive event_callback : Type :=
| Periodic_timer_cb
| Other_cb (id : nat).

(** A [struct event] of the library: what it was created with, and the
    timeout it is pending with ([None]: not pending). *)
Record event : Type := Event {
  ev_base : ptr;
  ev_fd : Z;
  ev_what : Z;
  ev_cb : event_callback;
  ev_arg : ptr;
  ev_pending : option timeval
}.

(** [struct periodic_timer_t]; [cb] names the user's callback by a number,
    [None] being the null function pointer.  The field [tv] exists only
    without [HAVE_PERIODIC]; with it the model leaves [tv] untouched. *)
Record periodic_timer_t : Type := PeriodicTimer {
  ev : ptr;
  cb : option nat;
  data : Z;
  tv : timeval
}.

Record world : Type := World {
  the_event_base : ptr;
  suppress_msg : option string;
  timers : gmap positive periodic_timer_t;
  events : gmap positive event;
  (** how many more events the library is able to allocate *)
  event_room : nat;
  environ : gmap string string;
  log_out : list log_entry
}.

(** The state at program start: [the_event_base] and [suppress_msg] are
    initialised to [NULL]. *)
Definition initial_world : world :=
  World None None ∅ ∅ 16 ∅ [].

(** ** Outcomes of running a function *)

Inductive outcome (A : Type) : Type :=
| Ok (a : A) (w : world)
| AssertionFailed                  (* a [tor_assert] did not hold *)
| Exited (status : Z) (w : world)  (* [exit(status)] *)
| Undefined.                       (* use of a null or released pointer *)
Arguments Ok {A} a w.
Arguments AssertionFailed {A}.
Arguments Exited {A} status w.
Arguments Undefined {A}.

Definition M (A : Type) : Type := world → outcome A.

Definition ret {A} (a : A) : M A := fun w => Ok a w.

Definition bind {A B} (m : M A) (k : A → M B) : M B :=
  fun w =>
    match m w with
    | Ok a w' => k a w'
    | AssertionFailed => AssertionFailed
    | Exited st w' => Exited st w'
    | Undefined => Undefined
    end.

Notation "x <- m ;; k" := (bind m (fun x => k))
  (at level 100, m at next level, right associativity).
Notation "m ;; k" := (bind m (fun _ => k))
  (at level 100, right associativity).

Definition get {A} (f : world → A) : M A := fun w => Ok (f w) w.
Definition modify (f : world → world) : M unit := fun w => Ok tt (f w).

(** Modelled from the spec: [tor_assert] is a macro of util.h, which is not
    under src/.  A failed assertion is a programming error that ends the
    run ("assert/fail loudly"). *)
Definition tor_assert (c : bool) : M unit :=
  fun w => if c then Ok tt w else AssertionFailed.

Definition exit (status : Z) : M unit := fun w => Exited status w.

Definition undefined {A} : M A := fun _ => Undefined.

Definition is_null (p : ptr) : bool :=
  match p with None => true | Some _ => false end.

Definition set_log (l : list log_entry) (w : world) : world :=
  World (the_event_base w) (suppress_msg w) (timers w) (events w)
        (event_room w) (environ w) l.

(** Modelled from the spec: [log] and its variants [log_err], [log_warn],
    [log_info] belong to log.c and torlog.h, which are not under src/.  A
    call hands one entry (severity, domain, format, arguments) to the
    host's logger; the model keeps the entries in order. *)
Definition log (sev : log_severity) (dom : list log_domain)
    (format : string) (args : list log_arg) : M unit :=
  modify (fun w => set_log (log_out w ++ [LogEntry sev dom format args]) w).

Definition log_err := log LOG_ERR.
Definition log_warn := log LOG_WARN.
Definition log_info := log LOG_INFO.

Definition set_base (p : ptr) (w : world) : world :=
  World p (suppress_msg w) (timers w) (events w)
        (event_room w) (environ w) (log_out w).

Definition set_suppress (s : option string) (w : world) : world :=
  World (the_event_base w) s (timers w) (events w)
        (event_room w) (environ w) (log_out w).

Definition set_timers (t : gmap positive periodic_timer_t) (w : world) : world :=
  World (the_event_base w) (suppress_msg w) t (events w)
        (event_room w) (environ w) (log_out w).

Definition set_events (e : gmap positive event) (w : world) : world :=
  World (the_event_base w) (suppress_msg w) (timers w) e
        (event_room w) (environ w) (log_out w).

Definition set_room (n : nat) (w : world) : world :=
  World (the_event_base w) (suppress_msg w) (timers w) (events w)
        n (environ w) (log_out w).

Definition set_environ (e : gmap string string) (w : world) : world :=
  World (the_event_base w) (suppress_msg w) (timers w) (events w)
        (event_room w) e (log_out w).

(** [setenv(name, value, 1)] *)
Definition setenv (name value : string) : M unit :=
  modify (fun w => set_environ (<[name:=value]> (environ w)) w).

(** ** The log callback ([libevent_logging_callback]) *)

Definition NUL : ascii := Ascii.zero.
Definition newline : ascii := "010"%char.

(** What [%s] prints for a buffer: the characters in front of the first
    NUL. *)
Fixpoint c_string (buf : list ascii) : list ascii :=
  match buf with
  | c :: r => if Ascii.eqb c NUL then [] else c :: c_string r
  | [] => []
  end.

(** The C library's [strlcpy(dst, src, size)]: copies at most [size - 1]
    characters, terminates the copy with NUL when [size] is not 0, and
    returns the length of [src]. *)
Definition strlcpy (dst : list ascii) (src : string) (size : nat)
  : list ascii * nat :=
  let s := chars src in
  (match size with
   | O => dst
   | S k =>
       let copied := take k s in
       copied ++ [NUL] ++ drop (S (length copied)) dst
   end,
   length s).

Fixpoint starts_with (s p : list ascii) : bool :=
  match p, s with
  | [], _ => true
  | a :: p', b :: s' => Ascii.eqb a b && starts_with s' p'
  | _ :: _, [] => false
  end.

(** The C library's [strstr(haystack, needle) != NULL]. *)
Fixpoint strstr (haystack needle : list ascii) : bool :=
  starts_with haystack needle
  || match haystack with
     | [] => false
     | _ :: h' => strstr h' needle
     end.

(** Libevent's severities. *)
Definition _EVENT_LOG_DEBUG : Z := 0.
Definition _EVENT_LOG_MSG : Z := 1.
Definition _EVENT_LOG_WARN : Z := 2.
Definition _EVENT_LOG_ERR : Z := 3.

(** The buffer after [strlcpy] and the trimming of lines 68-71; [buf0] is
    the content [char buf[1024]] starts out with. *)
Definition fill_buffer (buf0 : list ascii) (msg : string) : list ascii :=
  let '(buf, n) := strlcpy buf0 msg 1024 in
  if negb (n =? 0)%nat && (n <? 1024)%nat
     && bool_decide (buf !! (n - 1)%nat = Some newline)
  then <[(n - 1)%nat := NUL]> buf
  else buf.

Definition libevent_logging_callback (buf0 : list ascii)
    (severity : Z) (msg : string) : M unit :=
  sup <- get suppress_msg ;;
  if match sup with
     | Some s => strstr (chars msg) (chars s)
     | None => false
     end
  then ret tt
  else
    let buf := string_of_list_ascii (c_string (fill_buffer buf0 msg)) in
    if severity =? _EVENT_LOG_DEBUG then
      log LOG_DEBUG [LD_NOCB; LD_NET] "Message from libevent: %s" [Str buf]
    else if severity =? _EVENT_LOG_MSG then
      log LOG_INFO [LD_NOCB; LD_NET] "Message from libevent: %s" [Str buf]
    else if severity =? _EVENT_LOG_WARN then
      log LOG_WARN [LD_NOCB; LD_GENERAL] "Warning from libevent: %s" [Str buf]
    else if severity =? _EVENT_LOG_ERR then
      log LOG_ERR [LD_NOCB; LD_GENERAL] "Error from libevent: %s" [Str buf]
    else
      log LOG_WARN [LD_NOCB; LD_GENERAL] "Message [%d] from libevent: %s"
          [Int severity; Str buf].

Definition suppress_libevent_log_msg (msg : option string) : M unit :=
  modify (set_suppress msg).

(** ** The event base *)

(** [tor_get_libevent_version(&v)]: the version string and its number. *)
Definition tor_get_libevent_version (b : build) (lib : libevent)
  : string * Z :=
  if HAVE_EVENT_GET_VERSION_NUMBER b then
    (event_get_version lib, event_get_version_number lib)
  else if HAVE_EVENT_GET_VERSION b then
    (event_get_version lib,
     tor_decode_libevent_version (event_get_version lib))
  else ("pre-1.0c"%string, LE_OLD).

Definition tor_libevent_get_method (b : build) (lib : libevent) : string :=
  if HAVE_EVENT2_EVENT_H b then event_get_method lib
  else if HAVE_EVENT_GET_METHOD b then event_get_method lib
  else "<unknown>"%string.

Definition tor_libevent_initialize (b : build) (lib : libevent) : M unit :=
  base0 <- get the_event_base ;;
  tor_assert (is_null base0) ;;
  (match target_os b with
   | Apple =>
       if MACOSX_KQUEUE_IS_BROKEN b
          || (snd (tor_get_libevent_version b lib) <? V_OLD 1 1 (chr "b"))
       then setenv "EVENT_NOKQUEUE" "1"
       else ret tt
   | _ => ret tt
   end) ;;
  (if HAVE_EVENT2_EVENT_H b then
     tor_assert (negb (is_null (event_config_new lib))) ;;
     modify (set_base (event_base_new lib))
   else modify (set_base (event_base_new lib))) ;;
  base <- get the_event_base ;;
  (if is_null base then
     log_err [LD_GENERAL]
       "Unable to initialize Libevent: cannot continue." [] ;;
     exit 1
   else ret tt) ;;
  if HAVE_EVENT_GET_VERSION b && HAVE_EVENT_GET_METHOD b then
    log LOG_NOTICE [LD_GENERAL]
      "Initialized libevent version %s using method %s. Good."
      [Str (event_get_version lib); Str (tor_libevent_get_method b lib)]
  else
    log LOG_NOTICE [LD_GENERAL]
      "Initialized old libevent (version 1.0b or earlier)." [] ;;
    log LOG_WARN [LD_GENERAL]
      "You have a *VERY* old version of libevent.  It is likely to be buggy; please build Tor with a more recent version." [].

(** [tor_libevent_get_base]: [return the_event_base;] *)
Definition tor_libevent_get_base : M ptr := get the_event_base.

(** ** The compatibility matrix ([tor_check_libevent_version]) *)

Record bug_flags : Type := BugFlags {
  buggy : bool;
  iffy : bool;
  slow : bool;
  thread_unsafe : bool;
  sad_os : string
}.

(** Lines 356-373: the flags the backend [m] raises for [version]. *)
Definition backend_flags (m : string) (version : Z) : bool * bool * bool :=
  if String.eqb m "kqueue" then
    (version <? V_OLD 1 1 (chr "b"), false, false)
  else if String.eqb m "epoll" then
    (false, version <? V 1 1 0, false)
  else if String.eqb m "poll" then
    (version <? V_OLD 1 0 (chr "e"), false, version <? V 1 1 0)
  else if String.eqb m "select" then
    (false, false, version <? V 1 1 0)
  else if String.eqb m "win32" then
    (version <? V_OLD 1 1 (chr "b"), false, false)
  else (false, false, false).

(** Lines 377-387: the threading flag of the platform. *)
Definition platform_flags (os : os_family) (server : bool) (version : Z)
  : bool * string :=
  match os with
  | BSD =>
      if server && (version <? V_OLD 1 3 (chr "b"))
      then (true, "BSD variants"%string) else (false, EmptyString)
  | Apple =>
      if server && (version <? V_OLD 1 3 (chr "b"))
      then (true, "Mac OS X"%string) else (false, EmptyString)
  | OtherOS => (false, EmptyString)
  end.

Definition compute_flags (os : os_family) (m : string) (server : bool)
    (version : Z) : bug_flags :=
  let '(buggy, iffy, slow) := backend_flags m version in
  let '(thread_unsafe, sad_os) := platform_flags os server version in
  BugFlags buggy iffy slow thread_unsafe sad_os.

Definition msg_thread_unsafe : string :=
  "Libevent version %s often crashes when running a Tor server with %s. Please use the latest version of libevent (1.3b or later)".
Definition msg_buggy : string :=
  "There are serious bugs in using %s with libevent %s. Please use the latest version of libevent.".
Definition msg_iffy : string :=
  "There are minor bugs in using %s with libevent %s. You may want to use the latest version of libevent.".
Definition msg_slow : string :=
  "libevent %s can be very slow with %s. When running a server, please use the latest version of libevent.".

(** The result is what the function stores in [*badness_out]; [None] is
    [NULL]. *)
Definition tor_check_libevent_version (b : build) (lib : libevent)
    (m : string) (server : bool) : M (option string) :=
  let '(v, version) := tor_get_libevent_version b lib in
  let f := compute_flags (target_os b) m server version in
  if thread_unsafe f then
    log LOG_WARN [LD_GENERAL] msg_thread_unsafe [Str v; Str (sad_os f)] ;;
    ret (Some "BROKEN"%string)
  else if buggy f then
    log LOG_WARN [LD_GENERAL] msg_buggy [Str m; Str v] ;;
    ret (Some "BROKEN"%string)
  else if iffy f then
    log LOG_WARN [LD_GENERAL] msg_iffy [Str m; Str v] ;;
    ret (Some "BUGGY"%string)
  else if slow f && server then
    log LOG_WARN [LD_GENERAL] msg_slow [Str v; Str m] ;;
    ret (Some "SLOW"%string)
  else ret None.

(** ** The header/runtime skew check
    ([tor_check_libevent_header_compatibility])

    The branch compiled when both [HEADER_VERSION] and
    [HAVE_EVENT_GET_VERSION] are defined; [HEADER_VERSION] is the version
    string of the headers. *)

Definition msg_skew : string :=
  "We were compiled with headers from version %s of Libevent, but we're using a Libevent library that says it's version %s.".
Definition msg_crash : string :=
  "This will almost certainly make Tor crash.".
Definition msg_compatible : string :=
  "I think these versions are binary-compatible.".

Definition tor_check_libevent_header_compatibility
    (HEADER_VERSION : string) (lib : libevent) : M unit :=
  if negb (String.eqb HEADER_VERSION (event_get_version lib)) then
    let v1 := tor_decode_libevent_version HEADER_VERSION in
    let v2 := tor_decode_libevent_version (event_get_version lib) in
    let compat1 := le_versions_compatibility v1 in
    let compat2 := le_versions_compatibility v2 in
    let verybad := negb (compat1 =? compat2) in
    log (if verybad then LOG_WARN else LOG_NOTICE) [LD_GENERAL] msg_skew
        [Str HEADER_VERSION; Str (event_get_version lib)] ;;
    if verybad then log_warn [LD_GENERAL] msg_crash []
    else log_info [LD_GENERAL] msg_compatible []
  else ret tt.

(** ** Periodic timers *)

(** Libevent's [event_new]: a new event, not pending, or [NULL] when the
    library has no room left.  Events and timers live in typed heaps. *)
Definition event_new (base : ptr) (fd what : Z) (cb : event_callback)
    (arg : ptr) : M ptr :=
  fun w =>
    match event_room w with
    | O => Ok None w
    | S n =>
        let a := fresh (dom (events w)) in
        Ok (Some a)
           (set_room n
              (set_events (<[a := Event base fd what cb arg None]> (events w))
                          w))
    end.

Definition set_pending (x : event) (o : option timeval) : event :=
  Event (ev_base x) (ev_fd x) (ev_what x) (ev_cb x) (ev_arg x) o.

(** Reading [*e] of an event pointer. *)
Definition load_event (e : ptr) : M event :=
  fun w =>
    match e with
    | Some a =>
        match events w !! a with
        | Some x => Ok x w
        | None => Undefined
        end
    | None => Undefined
    end.

(** Libevent's [event_add(ev, tv)]: the event becomes pending with the
    timeout [tv]. *)
Definition event_add (e : ptr) (t : timeval) : M Z :=
  x <- load_event e ;;
  match e with
  | Some a =>
      modify (fun w =>
        set_events (<[a := set_pending x (Some t)]> (events w)) w) ;;
      ret 0
  | None => undefined
  end.

(** Libevent's [event_del(ev)]: the event is no longer pending. *)
Definition event_del (e : ptr) : M Z :=
  x <- load_event e ;;
  match e with
  | Some a =>
      modify (fun w => set_events (<[a := set_pending x None]> (events w)) w) ;;
      ret 0
  | None => undefined
  end.

(** Modelled from the spec: [tor_free] is a macro of util.h, which is not
    under src/.  It "releases the memory" of a non-null pointer and does
    nothing for [NULL]; releasing what is not allocated is undefined. *)
Definition tor_free_event (e : ptr) : M unit :=
  match e with
  | None => ret tt
  | Some a =>
      x <- load_event e ;;
      modify (fun w => set_events (delete a (events w)) w)
  end.

(** [tor_event_free]: [event_del(ev); tor_free(ev);] (Libevent 2's
    [event_free] does the same). *)
Definition tor_event_free (e : ptr) : M unit :=
  event_del e ;;
  tor_free_event e.

(** Reading [*timer]. *)
Definition load_timer (p : ptr) : M periodic_timer_t :=
  fun w =>
    match p with
    | Some a =>
        match timers w !! a with
        | Some t => Ok t w
        | None => Undefined
        end
    | None => Undefined
    end.

(** Writing [*timer]. *)
Definition store_timer (p : ptr) (t : periodic_timer_t) : M unit :=
  load_timer p ;;
  match p with
  | Some a => modify (fun w => set_timers (<[a := t]> (timers w)) w)
  | None => undefined
  end.

(** Modelled from the spec: [tor_free], see [tor_free_event]. *)
Definition tor_free_timer (p : ptr) : M unit :=
  match p with
  | None => ret tt
  | Some a =>
      load_timer p ;;
      modify (fun w => set_timers (delete a (timers w)) w)
  end.

(** Modelled from the spec: [tor_malloc_zero] is a function of util.c, which
    is not under src/.  It hands out fresh memory filled with zeros and
    never returns [NULL]. *)
Definition tor_malloc_zero_timer : M ptr :=
  fun w =>
    let a := fresh (dom (timers w)) in
    Ok (Some a)
       (set_timers (<[a := PeriodicTimer None None 0 (Timeval 0 0)]> (timers w))
                   w).

(** Modelled from the spec: [tor_malloc_zero], see
    [tor_malloc_zero_timer]. *)
Definition tor_malloc_zero_event : M ptr :=
  fun w =>
    let a := fresh (dom (events w)) in
    Ok (Some a)
       (set_events (<[a := Event None 0 0 (Other_cb 0) None None]> (events w))
                   w).

(** [tor_event_new]: Libevent 2's [event_new], or the replacement of lines
    117-127 ([event_set] and [event_base_set] fill the fresh event).
    Libevent 1's [event_base_set(base, e)] reads the base it is given (the
    event's priority is [base->nactivequeues/2]): a null base, which line
    125 passes on when the argument is [NULL] and [the_event_base] is
    still [NULL], is undefined behaviour. *)
Definition tor_event_new (b : build) (base : ptr) (sock what : Z)
    (cb : event_callback) (arg : ptr) : M ptr :=
  if HAVE_EVENT2_EVENT_H b then event_new base sock what cb arg
  else
    e <- tor_malloc_zero_event ;;
    base' <- (if is_null base then tor_libevent_get_base else ret base) ;;
    match e, base' with
    | Some a, Some _ =>
        modify (fun w =>
          set_events (<[a := Event base' sock what cb arg None]> (events w))
                     w) ;;
        ret e
    | _, _ => undefined
    end.

Section Timers.

(** The user's callbacks: [user_cb f timer data] runs callback number
    [f]. *)
Variable user_cb : nat → ptr → Z → M unit.
Variable b : build.

Definition periodic_timer_cb (arg : ptr) : M unit :=
  let timer := arg in
  (if HAVE_PERIODIC b then ret tt
   else
     t <- load_timer timer ;;
     event_add (ev t) (tv t) ;;
     ret tt) ;;
  t <- load_timer timer ;;
  match cb t with
  | Some f => user_cb f timer (data t)
  | None => undefined
  end.

Definition periodic_timer_new (base : ptr) (tv : option timeval)
    (cb : option nat) (data : Z) : M ptr :=
  tor_assert (negb (is_null base)) ;;
  tor_assert (bool_decide (is_Some tv)) ;;
  tor_assert (bool_decide (is_Some cb)) ;;
  timer <- tor_malloc_zero_timer ;;
  e <- tor_event_new b base (-1) (PERIODIC_FLAGS b) Periodic_timer_cb timer ;;
  t <- load_timer timer ;;
  store_timer timer
    (let 'PeriodicTimer _ cb0 data0 tv0 := t in
     PeriodicTimer e cb0 data0 tv0) ;;
  if is_null e then
    tor_free_timer timer ;;
    ret None
  else
    match tv with
    | Some interval =>
        store_timer timer
          (PeriodicTimer e cb data
             (if HAVE_PERIODIC b then Timeval 0 0 else interval)) ;;
        event_add e interval ;;
        ret timer
    | None => undefined
    end.

Definition periodic_timer_free (timer : ptr) : M unit :=
  if is_null timer then ret tt
  else
    t <- load_timer timer ;;
    tor_event_free (ev t) ;;
    tor_free_timer timer.

(** The event loop firing a pending event: without [EV_PERSIST] the event
    stops being pending, then its callback runs. *)
Definition event_fire (e : ptr) : M unit :=
  x <- load_event e ;;
  match ev_pending x with
  | None => ret tt
  | Some _ =>
      (if Z.land (ev_what x) EV_PERSIST =? 0 then event_del e ;; ret tt
       else ret tt) ;;
      match ev_cb x with
      | Periodic_timer_cb => periodic_timer_cb (ev_arg x)
      | Other_cb _ => ret tt
      end
  end.

End Timers.

(** ** The other event constructors (lines 128-141)

    [tor_evtimer_new] and [tor_evsignal_new] call [tor_event_new]; with
    Libevent 2 they are the library's [evtimer_new] and [evsignal_new],
    which are [event_new] with the same arguments. *)

Definition EV_SIGNAL : Z := 8.

Definition tor_evtimer_new (b : build) (base : ptr) (cb : event_callback)
    (arg : ptr) : M ptr :=
  tor_event_new b base (-1) 0 cb arg.

Definition tor_evsignal_new (b : build) (base : ptr) (sig : Z)
    (cb : event_callback) (arg : ptr) : M ptr :=
  tor_event_new b base sig (Z.lor EV_SIGNAL EV_PERSIST) cb arg.

(** * Vocabulary of the statements *)

(** ** The two shapes [tor_decode_libevent_version] accepts

    The conditions of lines 261-263 and 269-271 on their own. *)

Definition matches_modern (v : string) : bool :=
  let '(fields, a) := Scanf.sscanf v "%u.%u.%u%c%c" in
  let c := Scanf.arg 3 a 0 in
  let e := Scanf.arg 4 a 0 in
  (fields =? 3)
  || (((fields =? 4) || (fields =? 5)) && is_sep c)
  || ((fields =? 5) && TOR_ISALPHA c && is_sep e).

Definition matches_legacy (v : string) : bool :=
  let '(fields, a) := Scanf.sscanf v "%u.%u%c%c" in
  let c := Scanf.arg 2 a 0 in
  ((fields =? 3) && TOR_ISALPHA c) || (fields =? 2).

(** ** Version triples and their dotted text

    The text Libevent prints for a triple: three decimal numbers with dots
    in between.  These definitions serve the statements about ordering. *)

Record triple : Type := Triple { t_major : Z; t_minor : Z; t_patch : Z }.

Definition digit_char (d : Z) : ascii := ascii_of_N (Z.to_N (chr "0" + d)).

Fixpoint decimal_aux (fuel : nat) (n : Z) : list ascii :=
  match fuel with
  | O => []
  | S fuel' =>
      (if n <? 10 then [] else decimal_aux fuel' (n / 10))
      ++ [digit_char (n mod 10)]
  end.

Definition decimal (n : Z) : list ascii :=
  decimal_aux (S (Z.to_nat (Z.log2 n))) n.

Definition dotted (t : triple) : string :=
  string_of_list_ascii
    (decimal (t_major t) ++ "."%char :: decimal (t_minor t)
       ++ "."%char :: decimal (t_patch t)).

(** The value of a run of digits read after [acc]. *)
Definition digits_value (ds : list ascii) (acc : Z) : Z :=
  fold_left (fun a c => 10 * a + Scanf.digit_value c) ds acc.

(** The input after a number: its end, or a character that is no digit. *)
Definition no_digit_ahead (rest : list ascii) : Prop :=
  match rest with
  | [] => True
  | c :: _ => Scanf.is_digit c = false
  end.

(** The legacy text of a version: two decimal numbers with a dot in
    between and one letter at the end. *)
Definition legacy_lettered (major minor : Z) (letter : ascii) : string :=
  string_of_list_ascii (decimal major ++ "."%char :: decimal minor ++ [letter]).

(** Semantic version precedence. *)
Definition earlier (a b : triple) : Prop :=
  t_major a < t_major b
  ∨ (t_major a = t_major b
     ∧ (t_minor a < t_minor b
        ∨ (t_minor a = t_minor b ∧ t_patch a < t_patch b))).

(** Every component fits its byte of [le_version_t]. *)
Definition in_bytes (t : triple) : Prop :=
  0 <= t_major t < 256 ∧ 0 <= t_minor t < 256 ∧ 0 <= t_patch t < 256.

Definition tag (t : triple) : Z := V (t_major t) (t_minor t) (t_patch t).

(** ** Logs, eras and classifications *)

(** The state [w] with the entries [es] logged after what it holds. *)
Definition add_log (es : list log_entry) (w : world) : world :=
  set_log (log_out w ++ es) w.

(** The step function of ABI eras, without the sentinel: below 1.0c era 1,
    below 1.4.0 era 2, below 1.4.99 era 3, below 2.0.1 era 4, else era 5. *)
Definition abi_era_step (v : Z) : Z :=
  if v <? V_OLD 1 0 (chr "c") then 1
  else if v <? V 1 4 0 then 2
  else if v <? V 1 4 99 then 3
  else if v <? V 2 0 1 then 4
  else 5.

(** The two advisories of the skew check. *)
Definition high_severity_advisory (hv rv : string) : list log_entry :=
  [LogEntry LOG_WARN [LD_GENERAL] msg_skew [Str hv; Str rv];
   LogEntry LOG_WARN [LD_GENERAL] msg_crash []].

Definition low_severity_advisory (hv rv : string) : list log_entry :=
  [LogEntry LOG_NOTICE [LD_GENERAL] msg_skew [Str hv; Str rv];
   LogEntry LOG_INFO [LD_GENERAL] msg_compatible []].

(** The classifications of the compatibility matrix, their order of
    severity, and the most severe of a list of them. *)
Inductive BugClassification : Type :=
| NoBug | Slow | Iffy | Buggy | ThreadUnsafe.

Definition severity (c : BugClassification) : nat :=
  match c with
  | NoBug => 0 | Slow => 1 | Iffy => 2 | Buggy => 3 | ThreadUnsafe => 4
  end.

Definition more_severe (c d : BugClassification) : BugClassification :=
  if (severity c <? severity d)%nat then d else c.

Definition most_severe (l : list BugClassification) : BugClassification :=
  fold_right more_severe NoBug l.

Definition triggered (thread_unsafe buggy iffy slow : bool)
  : list BugClassification :=
  (if slow then [Slow] else [])
  ++ (if iffy then [Iffy] else [])
  ++ (if buggy then [Buggy] else [])
  ++ (if thread_unsafe then [ThreadUnsafe] else []).

(** What the function reports for a classification: the warning it logs
    and the word it stores in [*badness_out]. *)
Definition report (c : BugClassification) (m v sad_os : string)
  : list log_entry * option string :=
  match c with
  | ThreadUnsafe =>
      ([LogEntry LOG_WARN [LD_GENERAL] msg_thread_unsafe [Str v; Str sad_os]],
       Some "BROKEN"%string)
  | Buggy =>
      ([LogEntry LOG_WARN [LD_GENERAL] msg_buggy [Str m; Str v]],
       Some "BROKEN"%string)
  | Iffy =>
      ([LogEntry LOG_WARN [LD_GENERAL] msg_iffy [Str m; Str v]],
       Some "BUGGY"%string)
  | Slow =>
      ([LogEntry LOG_WARN [LD_GENERAL] msg_slow [Str v; Str m]],
       Some "SLOW"%string)
  | NoBug => ([], None)
  end.

(** A version string of neither accepted shape. *)
Definition unparseable (v : string) : Prop :=
  matches_modern v = false ∧ matches_legacy v = false.

(** The ABI era the skew check assigns to a version string. *)
Definition era (v : string) : Z :=
  le_versions_compatibility (tor_decode_libevent_version v).

(** ** Configurations and states of the examples *)

(** The configuration of this repository's orconfig.h (Libevent 2 with all
    the version functions), for a given platform. *)
Definition orconfig (os : os_family) : build :=
  Build true true true true os false.

(** A build against Libevent 1: no [event2/event.h], hence no
    [HAVE_PERIODIC]. *)
Definition libevent1_build : build :=
  Build false false true true OtherOS false.

(** A Libevent library reporting version 1.0 and the backend "select". *)
Definition libevent_1_0_select : libevent :=
  Libevent "1.0" (V 1 0 0) "select" (Some 1%positive) (Some 2%positive).

(** A library of which only the version string matters. *)
Definition library_saying (version : string) : libevent :=
  Libevent version 0 EmptyString None None.

(** A message is a C string: it holds no NUL. *)
Definition no_nul (s : string) : bool :=
  forallb (fun c => negb (Ascii.eqb c NUL)) (chars s).

(** The text with one newline at its end removed, if there is one. *)
Fixpoint without_trailing_newline (l : list ascii) : list ascii :=
  match l with
  | [] => []
  | c :: r =>
      match r with
      | [] => if Ascii.eqb c newline then [] else [c]
      | _ :: _ => c :: without_trailing_newline r
      end
  end.

(** The message "hi" with a newline at its end. *)
Definition hi_line : string :=
  String "h" (String "i" (String newline EmptyString)).

(** Whether the suppression filter of the state drops the message. *)
Definition suppressed (msg : string) (w : world) : bool :=
  match suppress_msg w with
  | Some s => strstr (chars msg) (chars s)
  | None => false
  end.

(** A timer of 100 ms with callback number 0 and data 7, created in the
    initial state on the event base at address 1, and the state it leaves. *)
Definition demo_interval : timeval := Timeval 0 100000.

Definition scheduled (b : build) : outcome (option positive) :=
  periodic_timer_new b (Some 1%positive) (Some demo_interval) (Some 0%nat) 7
    initial_world.

Definition scheduled_world (b : build) : world :=
  match scheduled b with
  | Ok _ w => w
  | _ => initial_world
  end.

(** A user callback that destroys its own timer. *)
Definition self_destroying_cb (f : nat) (timer : option positive) (data : Z)
  : M unit :=
  periodic_timer_free timer.

(** ** Texts and callbacks of the further properties *)

(** The legacy text without a letter: two decimal numbers and a dot. *)
Definition legacy_plain (major minor : Z) : string :=
  string_of_list_ascii (decimal major ++ "."%char :: decimal minor).

(** The first character of a text is a separator. *)
Definition starts_with_sep (s : string) : bool :=
  match s with
  | String e _ => is_sep (chr e)
  | EmptyString => false
  end.

(** Every component fits [unsigned]. *)
Definition in_unsigned (t : triple) : Prop :=
  0 <= t_major t < 2 ^ 32 ∧ 0 <= t_minor t < 2 ^ 32
  ∧ 0 <= t_patch t < 2 ^ 32.

(** The two formats of the decoder, parsed. *)
Definition fmt_modern : list Scanf.directive :=
  [Scanf.Conv_u; Scanf.Lit "."; Scanf.Conv_u; Scanf.Lit "."; Scanf.Conv_u;
   Scanf.Conv_c; Scanf.Conv_c].

Definition fmt_legacy : list Scanf.directive :=
  [Scanf.Conv_u; Scanf.Lit "."; Scanf.Conv_u; Scanf.Conv_c; Scanf.Conv_c].

(** The modern format stops after two items on a text that has third
    number: at the end of the text, at a character other than a dot, or at
    a dot that no digit follows. *)
Definition no_third_number (tail : list ascii) : Prop :=
  match tail with
  | [] => True
  | c :: r =>
      if Ascii.eqb c "." then r = [] else Scanf.is_digit c = false
  end.

(** The outcome of the compatibility check that reports [c]. *)
Definition reporting (c : BugClassification) (m v sad_os : string)
    (w : world) : outcome (option string) :=
  Ok (snd (report c m v sad_os)) (add_log (fst (report c m v sad_os)) w).

(** The build [b] compiled for another platform. *)
Definition on_platform (os : os_family) (b : build) : build :=
  Build (HAVE_EVENT2_EVENT_H b) (HAVE_EVENT_GET_VERSION_NUMBER b)
        (HAVE_EVENT_GET_VERSION b) (HAVE_EVENT_GET_METHOD b) os
        (MACOSX_KQUEUE_IS_BROKEN b).

(** The backends the compatibility matrix knows. *)
Definition known_backends : list string :=
  ["kqueue"; "epoll"; "poll"; "select"; "win32"]%string.

(** Whether the initialisation switches kqueue off (lines 172-177). *)
Definition needs_kqueue_workaround (b : build) (lib : libevent) : bool :=
  match target_os b with
  | Apple =>
      MACOSX_KQUEUE_IS_BROKEN b
      || (snd (tor_get_libevent_version b lib) <? V_OLD 1 1 (chr "b"))
  | _ => false
  end.

(** The state after that step. *)
Definition kqueue_workaround (b : build) (lib : libevent) (w : world)
  : world :=
  if needs_kqueue_workaround b lib
  then set_environ (<["EVENT_NOKQUEUE"%string := "1"%string]> (environ w)) w
  else w.

(** What a successful initialisation logs. *)
Definition initialized_messages (b : build) (lib : libevent)
  : list log_entry :=
  if HAVE_EVENT_GET_VERSION b && HAVE_EVENT_GET_METHOD b then
    [LogEntry LOG_NOTICE [LD_GENERAL]
       "Initialized libevent version %s using method %s. Good."
       [Str (event_get_version lib); Str (tor_libevent_get_method b lib)]]
  else
    [LogEntry LOG_NOTICE [LD_GENERAL]
       "Initialized old libevent (version 1.0b or earlier)." [];
     LogEntry LOG_WARN [LD_GENERAL]
       "You have a *VERY* old version of libevent.  It is likely to be buggy; please build Tor with a more recent version." []].

Definition unable_to_initialize : log_entry :=
  LogEntry LOG_ERR [LD_GENERAL]
    "Unable to initialize Libevent: cannot continue." [].

(** The timer and the event a successful [periodic_timer_new] leaves in
    the heaps: the timer at [p] owning the event at [e]. *)
Definition created_timer (b : build) (e : positive) (f : nat) (data : Z)
    (interval : timeval) : periodic_timer_t :=
  PeriodicTimer (Some e) (Some f) data
    (if HAVE_PERIODIC b then Timeval 0 0 else interval).

Definition created_event (b : build) (base p : positive)
    (interval : timeval) : event :=
  Event (Some base) (-1) (PERIODIC_FLAGS b) Periodic_timer_cb (Some p)
    (Some interval).

(** The text of a triple with white space in front of each number. *)
Definition spaced (ws1 ws2 ws3 : list ascii) (t : triple) : string :=
  string_of_list_ascii
    (ws1 ++ decimal (t_major t) ++ "."%char :: ws2 ++ decimal (t_minor t)
       ++ "."%char :: ws3 ++ decimal (t_patch t)).

Definition all_space (ws : list ascii) : bool := forallb Scanf.is_space ws.

(** A user callback that logs one line and touches nothing else. *)
Definition tick : log_entry := LogEntry LOG_INFO [LD_GENERAL] "tick" [].

Definition ticking_cb (f : nat) (timer : option positive) (data : Z)
  : M unit :=
  log LOG_INFO [LD_GENERAL] "tick" [].

(** The loop firing the event [e] [n] times in a row. *)
Fixpoint fire_times (user_cb : nat → option positive → Z → M unit)
    (b : build) (e : option positive) (n : nat) : M unit :=
  match n with
  | O => ret tt
  | S n' => event_fire user_cb b e ;; fire_times user_cb b e n'
  end.

(** The part of the state a timer operation may not touch. *)
Definition same_outside_heaps (w w' : world) : Prop :=
  the_event_base w' = the_event_base w
  ∧ suppress_msg w' = suppress_msg w
  ∧ environ w' = environ w
  ∧ log_out w' = log_out w.

(** ** Shapes of version texts

    The spec's two shapes, in its words: MAJOR.MINOR.PATCH, alone or
    followed by '-' or '_' and anything, with at most one letter before
    that separator; and MAJOR.MINOR with at most one letter after it.
    MAJOR, MINOR and PATCH are runs of one or more decimal digits. *)

Fixpoint drop_digits (s : list ascii) : list ascii :=
  match s with
  | c :: s' => if Scanf.is_digit c then drop_digits s' else s
  | [] => []
  end.

(** What follows the run of digits at the front of [s], if there is one. *)
Definition spec_number (s : list ascii) : option (list ascii) :=
  match s with
  | c :: s' => if Scanf.is_digit c then Some (drop_digits s') else None
  | [] => None
  end.

Definition spec_dot (s : list ascii) : option (list ascii) :=
  match s with
  | c :: s' => if Ascii.eqb c "." then Some s' else None
  | [] => None
  end.

(** After PATCH: nothing, a separator, or one letter and a separator. *)
Definition modern_tail (rest : list ascii) : bool :=
  match rest with
  | [] => true
  | c :: r =>
      is_sep (chr c)
      || (TOR_ISALPHA (chr c)
          && match r with
             | e :: _ => is_sep (chr e)
             | [] => false
             end)
  end.

(** After MINOR: nothing, or one letter and then nothing. *)
Definition legacy_tail (rest : list ascii) : bool :=
  match rest with
  | [] => true
  | [c] => TOR_ISALPHA (chr c)
  | _ => false
  end.

(** One part of a shape after the other. *)
Definition and_then (o : option (list ascii))
    (part : list ascii → option (list ascii)) : option (list ascii) :=
  match o with
  | Some s => part s
  | None => None
  end.

Definition major_minor (v : string) : option (list ascii) :=
  and_then (and_then (spec_number (chars v)) spec_dot) spec_number.

Definition spec_modern_shape (v : string) : bool :=
  match and_then (and_then (major_minor v) spec_dot) spec_number with
  | Some rest => modern_tail rest
  | None => false
  end.

Definition spec_legacy_shape (v : string) : bool :=
  match major_minor v with
  | Some rest => legacy_tail rest
  | None => false
  end.

(** The shapes with numbers as [%u] takes them: a number is white space
    (none, or more), an optional sign and one or more decimal digits. *)

Definition is_sign (sg : list ascii) : Prop :=
  sg = [] ∨ sg = ["+"%char] ∨ sg = ["-"%char].

Definition numeral (n : list ascii) : Prop :=
  ∃ ws sg ds,
    n = ws ++ sg ++ ds ∧ all_space ws = true ∧ is_sign sg
    ∧ ds ≠ [] ∧ Forall (fun c => Scanf.is_digit c = true) ds.

(** number '.' number '.' number, and the tail of the modern shape. *)
Definition accepted_modern (v : string) : Prop :=
  ∃ n1 n2 n3 rest,
    chars v = n1 ++ "."%char :: n2 ++ "."%char :: n3 ++ rest
    ∧ numeral n1 ∧ numeral n2 ∧ numeral n3 ∧ modern_tail rest = true.

(** number '.' number, and the tail of the legacy shape. *)
Definition accepted_legacy (v : string) : Prop :=
  ∃ n1 n2 rest,
    chars v = n1 ++ "."%char :: n2 ++ rest
    ∧ numeral n1 ∧ numeral n2 ∧ legacy_tail rest = true.

(** * Properties *)

(** ** Arithmetic of version numbers *)

Lemma land_shiftl_small (hi lo n : Z) :
  0 <= n → 0 <= lo < 2 ^ n → Z.land (Z.shiftl hi n) lo = 0.
Proof.
  intros Hn [Hlo Hlt]. apply Z.bits_inj'. intros i Hi.
  rewrite Z.land_spec, Z.bits_0.
  destruct (Z.lt_ge_cases i n) as [Hin | Hin].
  - rewrite Z.shiftl_spec_low by lia. reflexivity.
  - rewrite andb_false_iff. right.
    destruct (Z.eq_dec lo 0) as [-> | Hne]; [apply Z.bits_0 |].
    apply Z.bits_above_log2; [lia |].
    assert (Z.log2 lo < n) by (apply Z.log2_lt_pow2; lia). lia.
Qed.

Lemma lor_shiftl_small (hi lo n : Z) :
  0 <= n → 0 <= lo < 2 ^ n → Z.lor (Z.shiftl hi n) lo = hi * 2 ^ n + lo.
Proof.
  intros Hn Hlo.
  pose proof (Z.add_lor_land (Z.shiftl hi n) lo) as H.
  rewrite land_shiftl_small in H by assumption.
  rewrite Z.shiftl_mul_pow2 in H by assumption.
  rewrite Z.shiftl_mul_pow2 by assumption. lia.
Qed.

(** For components that fit a byte, [V] packs them without overlap. *)
Lemma V_bytes (major minor patch : Z) :
  0 <= major < 256 → 0 <= minor < 256 → 0 <= patch < 256 →
  V major minor patch = major * 2 ^ 24 + minor * 2 ^ 16 + patch * 2 ^ 8.
Proof.
  intros HM Hm Hp. unfold V, wrap32.
  replace (Z.shiftl major 24) with (Z.shiftl (Z.shiftl major 8) 16)
    by (rewrite Z.shiftl_shiftl by lia; reflexivity).
  rewrite <- Z.shiftl_lor.
  rewrite (lor_shiftl_small major minor 8) by lia.
  replace (Z.shiftl (major * 2 ^ 8 + minor) 16)
    with (Z.shiftl (Z.shiftl (major * 2 ^ 8 + minor) 8) 8)
    by (rewrite Z.shiftl_shiftl by lia; reflexivity).
  rewrite <- Z.shiftl_lor.
  rewrite (lor_shiftl_small (major * 2 ^ 8 + minor) patch 8) by lia.
  rewrite Z.shiftl_mul_pow2 by lia.
  rewrite Z.mod_small by lia. lia.
Qed.

(** ** What [sscanf] returns *)

Lemma run_fields fmt s vals f a :
  Scanf.run fmt s vals = (f, a) →
  f = Z.of_nat (length a) ∨ (f = Scanf.EOF ∧ a = []).
Proof.
  revert s vals. induction fmt as [| d fmt IH]; intros s vals H; simpl in H.
  - inversion H; subst. now left.
  - destruct (Scanf.step d s) as [[v |] s' | |].
    + eapply IH; eassumption.
    + eapply IH; eassumption.
    + inversion H; subst. now left.
    + destruct vals; inversion H; subst; [now right | now left].
Qed.

Lemma sscanf_fields v format f a :
  Scanf.sscanf v format = (f, a) →
  f = Z.of_nat (length a) ∨ (f = Scanf.EOF ∧ a = []).
Proof. apply run_fields. Qed.

(** The decoder never reads a local that [sscanf] did not assign: its
    result does not depend on what the locals start out with. *)
Lemma decode_with_junk_irrelevant (junk : locals) (v : string) :
  decode_with junk v = tor_decode_libevent_version v.
Proof.
  unfold tor_decode_libevent_version, decode_with.
  destruct (Scanf.sscanf v "%u.%u.%u%c%c") as [f a] eqn:E1.
  destruct (Scanf.sscanf v "%u.%u%c%c") as [f2 a2] eqn:E2.
  apply sscanf_fields in E1, E2.
  destruct a as [| x0 [| x1 [| x2 [| x3 [| x4 a]]]]];
    (destruct E1 as [-> | [-> E1]]; [| try discriminate E1]);
    destruct a2 as [| y0 [| y1 [| y2 a2]]];
    (destruct E2 as [-> | [-> E2]]; [| try discriminate E2]);
    cbn -[V V_OLD LE_OTHER TOR_ISALPHA is_sep Z.eqb Z.of_nat];
    try reflexivity.
  all: try (destruct (is_sep x3); reflexivity).
  all: repeat match goal with
       | |- context [Z.of_nat (S (S (S (S ?n)))) =? 3] =>
           replace (Z.of_nat (S (S (S (S n)))) =? 3) with false
             by (symmetry; apply Z.eqb_neq; lia)
       | |- context [Z.of_nat (S (S (S (S ?n)))) =? 2] =>
           replace (Z.of_nat (S (S (S (S n)))) =? 2) with false
             by (symmetry; apply Z.eqb_neq; lia)
       end; cbn -[V V_OLD LE_OTHER TOR_ISALPHA is_sep Z.eqb Z.of_nat];
       try reflexivity.
Qed.

(** ** The version codec *)

(** The three upper bytes of the number of a triple of bytes are its
    components, the lowest byte is 0. *)
Lemma tag_byte_fields (t : triple) :
  in_bytes t →
  Z.land (Z.shiftr (tag t) 24) 255 = t_major t
  ∧ Z.land (Z.shiftr (tag t) 16) 255 = t_minor t
  ∧ Z.land (Z.shiftr (tag t) 8) 255 = t_patch t
  ∧ Z.land (tag t) 255 = 0.
Proof.
  intros (HM & Hm & Hp). unfold tag. rewrite V_bytes by assumption.
  destruct t as [M m q]. cbn [t_major t_minor t_patch] in *.
  change 255 with (Z.ones 8).
  rewrite !Z.land_ones, !Z.shiftr_div_pow2 by lia.
  change (2 ^ 24) with 16777216. change (2 ^ 16) with 65536.
  change (2 ^ 8) with 256.
  assert ((M * 16777216 + m * 65536 + q * 256) / 16777216 = M) as ->
    by (symmetry; apply (Z.div_unique _ _ _ (m * 65536 + q * 256)); lia).
  assert ((M * 16777216 + m * 65536 + q * 256) / 65536 = M * 256 + m) as ->
    by (symmetry; apply (Z.div_unique _ _ _ (q * 256)); lia).
  assert ((M * 16777216 + m * 65536 + q * 256) / 256
          = M * 65536 + m * 256 + q) as ->
    by (symmetry; apply (Z.div_unique _ _ _ 0); lia).
  repeat split.
  - apply Z.mod_small. lia.
  - symmetry. apply (Z.mod_unique _ _ M); lia.
  - symmetry. apply (Z.mod_unique _ _ (M * 256 + m)); lia.
  - symmetry. apply (Z.mod_unique _ _ (M * 65536 + m * 256 + q)); lia.
Qed.

Lemma tag_injective (a b : triple) :
  in_bytes a → in_bytes b → tag a = tag b → a = b.
Proof.
  intros (HM & Hm & Hp) (HM' & Hm' & Hp'). unfold tag.
  rewrite !V_bytes by assumption.
  destruct a as [M m q], b as [M' m' q']. cbn [t_major t_minor t_patch] in *.
  change (2 ^ 24) with 16777216. change (2 ^ 16) with 65536.
  change (2 ^ 8) with 256.
  intros H. f_equal; lia.
Qed.

(** C6: the decoder maps "1.4.11-stable" to (1,4,11), i.e. the number
    0x01040b00, "1.4.14b-stable" to (1,4,14) = 0x01040e00, "1.3e" to
    (1,3,5) = 0x01030500 (the legacy letter counts from 'a' = 1, 'b' = 2,
    ...), "1.1" to (1,1,0) = 0x01010000, "2.0.1" to (2,0,1) = 0x02000100
    and "garbage" to the sentinel [LE_OTHER] = 0x00006300.  The number of
    a triple of bytes holds the major, minor and patch numbers in its
    three upper bytes, so different triples have different numbers; the
    result is a function of the string alone, whatever the uninitialised
    locals hold. *)
Theorem decode_documented_versions :
  tor_decode_libevent_version "1.4.11-stable" = 0x01040b00
  ∧ tor_decode_libevent_version "1.4.14b-stable" = 0x01040e00
  ∧ tor_decode_libevent_version "1.3e" = 0x01030500
  ∧ tor_decode_libevent_version "1.3a" = 0x01030100
  ∧ tor_decode_libevent_version "1.3b" = 0x01030200
  ∧ tor_decode_libevent_version "1.1" = 0x01010000
  ∧ tor_decode_libevent_version "2.0.1" = 0x02000100
  ∧ tor_decode_libevent_version "garbage" = 0x00006300
  ∧ LE_OTHER = 0x00006300
  ∧ V 1 4 11 = 0x01040b00
  ∧ V 1 4 14 = 0x01040e00
  ∧ V 1 3 5 = 0x01030500
  ∧ V 1 1 0 = 0x01010000
  ∧ V 2 0 1 = 0x02000100
  ∧ V_OLD 1 3 (chr "a") = 0x01030100
  ∧ V_OLD 1 3 (chr "b") = 0x01030200
  ∧ V_OLD 1 3 (chr "e") = 0x01030500
  ∧ (∀ major minor k, V_OLD major minor (chr "a" + k) = V major minor (k + 1))
  ∧ (∀ t : triple, in_bytes t →
        Z.land (Z.shiftr (tag t) 24) 255 = t_major t
        ∧ Z.land (Z.shiftr (tag t) 16) 255 = t_minor t
        ∧ Z.land (Z.shiftr (tag t) 8) 255 = t_patch t
        ∧ Z.land (tag t) 255 = 0)
  ∧ (∀ a b : triple, in_bytes a → in_bytes b → tag a = tag b → a = b)
  ∧ (∀ (junk : locals) (v : string),
        decode_with junk v = tor_decode_libevent_version v).
Proof.
  do 17 (split; [vm_compute; reflexivity |]).
  split; [intros major minor k; unfold V_OLD; f_equal; lia |].
  split; [intros t Ht; apply tag_byte_fields; exact Ht |].
  split; [intros a b Ha Hb; apply tag_injective; assumption |].
  apply decode_with_junk_irrelevant.
Qed.

Lemma decode_documented_versions_witness :
  in_bytes (Triple 1 4 11)
  ∧ tor_decode_libevent_version "1.4.11-stable" = tag (Triple 1 4 11)
  ∧ Z.land (Z.shiftr (tag (Triple 1 4 11)) 24) 255 = 1
  ∧ Z.land (Z.shiftr (tag (Triple 1 4 11)) 16) 255 = 4
  ∧ Z.land (Z.shiftr (tag (Triple 1 4 11)) 8) 255 = 11
  ∧ Z.land (tag (Triple 1 4 11)) 255 = 0.
Proof.
  assert (in_bytes (Triple 1 4 11)) as H
    by (unfold in_bytes; cbn [t_major t_minor t_patch]; lia).
  split; [exact H |].
  destruct decode_documented_versions
    as (Hd & _ & _ & _ & _ & _ & _ & _ & _ & Hv & _ & _ & _ & _ & _ & _ & _
        & _ & Hb & _).
  split; [rewrite Hd; symmetry; exact Hv |].
  exact (Hb (Triple 1 4 11) H).
Defined.

Lemma decode_unmatched (v : string) :
  matches_modern v = false → matches_legacy v = false →
  tor_decode_libevent_version v = LE_OTHER.
Proof.
  unfold tor_decode_libevent_version, decode_with, matches_modern,
    matches_legacy.
  destruct (Scanf.sscanf v "%u.%u.%u%c%c") as [f a] eqn:E1.
  destruct (Scanf.sscanf v "%u.%u%c%c") as [f2 a2] eqn:E2.
  apply sscanf_fields in E2.
  cbn [zeroed junk_major junk_minor junk_patchlevel junk_c junk_e junk_extra].
  intros -> H2.
  apply orb_false_iff in H2 as [H3 Hf2]. rewrite Hf2.
  destruct (f2 =? 3) eqn:Hf3; [| reflexivity].
  apply Z.eqb_eq in Hf3. subst f2.
  destruct E2 as [E2 | [E2 _]]; [| discriminate E2].
  destruct a2 as [| y0 [| y1 [| y2 a2]]]; try (cbn in E2; lia).
  cbn [Scanf.arg nth] in *. cbn [andb] in H3. rewrite H3. reflexivity.
Qed.

(** ** Decoding the dotted text of a triple *)

Lemma digit_char_spec (d : Z) :
  0 <= d < 10 →
  Scanf.is_digit (digit_char d) = true
  ∧ Scanf.digit_value (digit_char d) = d.
Proof.
  intros H.
  assert (d = 0 ∨ d = 1 ∨ d = 2 ∨ d = 3 ∨ d = 4 ∨ d = 5 ∨ d = 6 ∨ d = 7
          ∨ d = 8 ∨ d = 9) as Hd by lia.
  repeat (destruct Hd as [-> | Hd]; [split; reflexivity |]).
  subst d. split; reflexivity.
Qed.

Lemma decimal_aux_digits (fuel : nat) (n : Z) :
  0 <= n → Forall (fun c => Scanf.is_digit c = true) (decimal_aux fuel n).
Proof.
  revert n. induction fuel as [| fuel IH]; intros n Hn; simpl.
  - constructor.
  - apply Forall_app. split.
    + destruct (n <? 10); [constructor |].
      apply IH. apply Z.div_pos; lia.
    + constructor; [| constructor].
      apply digit_char_spec. apply Z.mod_pos_bound. lia.
Qed.

Lemma digits_value_snoc ds d acc :
  digits_value (ds ++ [d]) acc
  = 10 * digits_value ds acc + Scanf.digit_value d.
Proof. unfold digits_value. rewrite fold_left_app. reflexivity. Qed.

Lemma decimal_aux_value (fuel : nat) (n : Z) :
  0 <= n < 2 ^ Z.of_nat fuel → digits_value (decimal_aux fuel n) 0 = n.
Proof.
  revert n. induction fuel as [| fuel IH]; intros n Hn.
  - simpl in *. unfold digits_value. simpl. lia.
  - cbn [decimal_aux]. rewrite digits_value_snoc.
    pose proof (digit_char_spec (n mod 10)) as [_ Hv];
      [apply Z.mod_pos_bound; lia |].
    rewrite Hv.
    destruct (n <? 10) eqn:E.
    + apply Z.ltb_lt in E. unfold digits_value. simpl.
      rewrite Z.mod_small by lia. lia.
    + apply Z.ltb_ge in E. rewrite IH.
      * pose proof (Z.div_mod n 10). lia.
      * rewrite Nat2Z.inj_succ, Z.pow_succ_r in Hn by lia.
        split; [apply Z.div_pos; lia |].
        apply Z.div_lt_upper_bound; lia.
Qed.

Lemma decimal_value (n : Z) : 0 <= n → digits_value (decimal n) 0 = n.
Proof.
  intros Hn. unfold decimal. apply decimal_aux_value.
  rewrite Nat2Z.inj_succ, Z2Nat.id by apply Z.log2_nonneg.
  destruct (Z.eq_dec n 0) as [-> | Hne]; [simpl; lia |].
  split; [assumption |]. apply Z.log2_spec. lia.
Qed.

Lemma decimal_digits (n : Z) :
  0 <= n → Forall (fun c => Scanf.is_digit c = true) (decimal n).
Proof. apply decimal_aux_digits. Qed.

Lemma decimal_nonempty (n : Z) : decimal n ≠ [].
Proof.
  unfold decimal. cbn [decimal_aux].
  destruct (if n <? 10 then [] else _); discriminate.
Qed.

Lemma scan_digits_app ds rest acc :
  Forall (fun c => Scanf.is_digit c = true) ds → no_digit_ahead rest →
  Scanf.scan_digits (ds ++ rest) acc = (digits_value ds acc, rest).
Proof.
  intros Hds Hrest. revert acc.
  induction Hds as [| c ds Hc _ IH]; intros acc; simpl.
  - destruct rest as [| c rest]; [reflexivity |].
    simpl in Hrest. cbn [Scanf.scan_digits]. rewrite Hrest. reflexivity.
  - rewrite Hc. apply IH.
Qed.

Lemma digit_not_space_or_sign (c : ascii) :
  Scanf.is_digit c = true →
  Scanf.is_space c = false ∧ Ascii.eqb c "-" = false
  ∧ Ascii.eqb c "+" = false.
Proof.
  unfold Scanf.is_digit, Scanf.is_space. intros H.
  apply andb_true_iff in H as [H1 H2].
  apply Z.leb_le in H1, H2.
  change (chr "0") with 48 in H1. change (chr "9") with 57 in H2.
  repeat split.
  - apply orb_false_iff. split; [apply Z.eqb_neq; lia |].
    apply andb_false_iff. right. apply Z.leb_gt. lia.
  - apply Ascii.eqb_neq. intros ->. vm_compute in H1. apply H1. reflexivity.
  - apply Ascii.eqb_neq. intros ->. vm_compute in H1. apply H1. reflexivity.
Qed.

Lemma scan_unsigned_decimal (n : Z) rest :
  0 <= n < 2 ^ 32 → no_digit_ahead rest →
  Scanf.scan_unsigned (decimal n ++ rest) = Scanf.Matched (Some n) rest.
Proof.
  intros Hn Hrest.
  pose proof (decimal_digits n (proj1 Hn)) as Hds.
  pose proof (decimal_value n (proj1 Hn)) as Hv.
  pose proof (decimal_nonempty n) as Hne.
  pose proof (scan_digits_app (decimal n) rest 0 Hds Hrest) as Hscan.
  destruct (decimal n) as [| c ds]; [congruence |].
  pose proof (Forall_inv Hds) as Hc. cbn beta in Hc.
  destruct (digit_not_space_or_sign c Hc) as (Hsp & Hmi & Hpl).
  unfold Scanf.scan_unsigned. cbn [app Scanf.skip_space].
  rewrite Hsp, Hmi, Hpl, Hc.
  change (c :: ds ++ rest) with ((c :: ds) ++ rest).
  rewrite Hscan, Hv. unfold wrap32. rewrite Z.mod_small by assumption.
  reflexivity.
Qed.

Lemma chars_dotted (t : triple) :
  chars (dotted t)
  = decimal (t_major t) ++ "."%char :: decimal (t_minor t)
      ++ "."%char :: decimal (t_patch t).
Proof. apply list_ascii_of_string_of_list_ascii. Qed.

(** The decoder reads the dotted text of a triple back as the triple. *)
Lemma decode_dotted (t : triple) :
  0 <= t_major t < 2 ^ 32 → 0 <= t_minor t < 2 ^ 32 →
  0 <= t_patch t < 2 ^ 32 →
  tor_decode_libevent_version (dotted t) = tag t.
Proof.
  intros HM Hm Hp.
  unfold tor_decode_libevent_version, decode_with, Scanf.sscanf.
  rewrite chars_dotted.
  change (Scanf.parse_format (chars "%u.%u.%u%c%c"))
    with [Scanf.Conv_u; Scanf.Lit "."; Scanf.Conv_u; Scanf.Lit ".";
          Scanf.Conv_u; Scanf.Conv_c; Scanf.Conv_c].
  cbn [Scanf.run Scanf.step].
  rewrite scan_unsigned_decimal by (assumption || reflexivity).
  cbn [Scanf.run Scanf.step Ascii.eqb Bool.eqb app].
  rewrite scan_unsigned_decimal by (assumption || reflexivity).
  cbn [Scanf.run Scanf.step Ascii.eqb Bool.eqb app].
  rewrite <- (app_nil_r (decimal (t_patch t))).
  rewrite scan_unsigned_decimal by (assumption || exact I).
  reflexivity.
Qed.

Lemma letter_is_no_digit_or_dot (c : ascii) :
  TOR_ISALPHA (chr c) = true →
  Scanf.is_digit c = false ∧ Ascii.eqb c "." = false.
Proof.
  unfold TOR_ISALPHA, Scanf.is_digit.
  change (chr "A") with 65. change (chr "Z") with 90.
  change (chr "a") with 97. change (chr "z") with 122.
  change (chr "0") with 48. change (chr "9") with 57.
  intros H. split.
  - apply andb_false_iff.
    destruct (Z.leb_spec 48 (chr c)); [right | left; reflexivity].
    apply Z.leb_gt.
    apply orb_true_iff in H as [H | H]; apply andb_true_iff in H as [H1 H2];
      apply Z.leb_le in H1; lia.
  - apply Ascii.eqb_neq. intros ->. vm_compute in H. discriminate H.
Qed.

(** The legacy text with a letter decodes through [V_OLD]: the letter
    becomes the patch level, counted from 'a' = 1. *)
Lemma decode_legacy_lettered (major minor : Z) (letter : ascii) :
  0 <= major < 2 ^ 32 → 0 <= minor < 2 ^ 32 →
  TOR_ISALPHA (chr letter) = true →
  tor_decode_libevent_version (legacy_lettered major minor letter)
  = V_OLD major minor (chr letter).
Proof.
  intros HM Hm Hl.
  destruct (letter_is_no_digit_or_dot letter Hl) as [Hd Hdot].
  unfold tor_decode_libevent_version, decode_with, Scanf.sscanf,
    legacy_lettered, chars.
  rewrite list_ascii_of_string_of_list_ascii.
  change (Scanf.parse_format (list_ascii_of_string "%u.%u.%u%c%c"))
    with [Scanf.Conv_u; Scanf.Lit "."; Scanf.Conv_u; Scanf.Lit ".";
          Scanf.Conv_u; Scanf.Conv_c; Scanf.Conv_c].
  change (Scanf.parse_format (list_ascii_of_string "%u.%u%c%c"))
    with [Scanf.Conv_u; Scanf.Lit "."; Scanf.Conv_u;
          Scanf.Conv_c; Scanf.Conv_c].
  cbn [Scanf.run Scanf.step].
  rewrite scan_unsigned_decimal by (assumption || reflexivity).
  cbn [Scanf.run Scanf.step Ascii.eqb Bool.eqb app].
  rewrite scan_unsigned_decimal by (assumption || exact Hd).
  cbn [Scanf.run Scanf.step app]. rewrite Hdot.
  cbn [length Z.of_nat Pos.of_succ_nat Pos.succ Z.eqb Pos.eqb orb andb
       Scanf.arg nth app].
  rewrite Hl. reflexivity.
Qed.

Lemma tag_bytes (t : triple) :
  in_bytes t →
  tag t = t_major t * 16777216 + t_minor t * 65536 + t_patch t * 256.
Proof.
  intros (HM & Hm & Hp). unfold tag. rewrite V_bytes by assumption.
  reflexivity.
Qed.

Lemma triple_eq (a b : triple) :
  t_major a = t_major b → t_minor a = t_minor b → t_patch a = t_patch b →
  a = b.
Proof. destruct a, b. simpl. intros -> -> ->. reflexivity. Qed.

(** C8 (as amended): for triples whose components each fit a byte, the
    decoder reads the dotted text back as the triple's number, an earlier
    triple decodes to a strictly smaller number and only equal triples to
    equal numbers, so the comparison of decoded numbers is a strict total
    order that agrees with version precedence (1.3.9 < 1.4.0 < 2.0.1). *)
Theorem decoded_order_of_byte_triples (a b : triple) :
  in_bytes a → in_bytes b →
  tor_decode_libevent_version (dotted a) = tag a
  ∧ tor_decode_libevent_version (dotted b) = tag b
  ∧ (earlier a b ↔
     tor_decode_libevent_version (dotted a)
     < tor_decode_libevent_version (dotted b))
  ∧ (a = b ↔
     tor_decode_libevent_version (dotted a)
     = tor_decode_libevent_version (dotted b))
  ∧ (earlier a b ∨ a = b ∨ earlier b a)
  ∧ tor_decode_libevent_version "1.3.9" < tor_decode_libevent_version "1.4.0"
  ∧ tor_decode_libevent_version "1.4.0" < tor_decode_libevent_version "2.0.1".
Proof.
  intros Ha Hb.
  assert (tor_decode_libevent_version (dotted a) = tag a) as Da
    by (destruct Ha as (? & ? & ?); apply decode_dotted; lia).
  assert (tor_decode_libevent_version (dotted b) = tag b) as Db
    by (destruct Hb as (? & ? & ?); apply decode_dotted; lia).
  rewrite Da, Db, (tag_bytes a Ha), (tag_bytes b Hb).
  destruct Ha as (HaM & Ham & Hap), Hb as (HbM & Hbm & Hbp).
  unfold earlier.
  split; [reflexivity |]. split; [reflexivity |].
  split; [lia |].
  split.
  - split; [intros ->; reflexivity |].
    intros H. apply triple_eq; lia.
  - split.
    + destruct (Z.lt_trichotomy (t_major a) (t_major b)) as [? | [EM | ?]];
        [lia | | lia].
      destruct (Z.lt_trichotomy (t_minor a) (t_minor b)) as [? | [Em | ?]];
        [lia | | lia].
      destruct (Z.lt_trichotomy (t_patch a) (t_patch b)) as [? | [Ep | ?]];
        [lia | | lia].
      right. left. apply triple_eq; assumption.
    + split; vm_compute; reflexivity.
Qed.

Lemma decoded_order_of_byte_triples_witness :
  in_bytes (Triple 1 3 9) ∧ in_bytes (Triple 1 4 0)
  ∧ (earlier (Triple 1 3 9) (Triple 1 4 0) ↔
     tor_decode_libevent_version (dotted (Triple 1 3 9))
     < tor_decode_libevent_version (dotted (Triple 1 4 0))).
Proof.
  assert (in_bytes (Triple 1 3 9)) as Ha by (unfold in_bytes; simpl; lia).
  assert (in_bytes (Triple 1 4 0)) as Hb by (unfold in_bytes; simpl; lia).
  split; [exact Ha |]. split; [exact Hb |].
  exact (proj1 (proj2 (proj2
           (decoded_order_of_byte_triples (Triple 1 3 9) (Triple 1 4 0)
              Ha Hb)))).
Defined.

(** C8 as stated fails for parseable text with a component beyond a byte:
    1.4.0 precedes 1.256.0, yet "1.256.0" decodes to the number of 1.0.0,
    below that of "1.4.0". *)
Lemma component_beyond_a_byte_breaks_the_order :
  earlier (Triple 1 4 0) (Triple 1 256 0)
  ∧ dotted (Triple 1 4 0) = "1.4.0"%string
  ∧ dotted (Triple 1 256 0) = "1.256.0"%string
  ∧ matches_modern "1.256.0" = true
  ∧ tor_decode_libevent_version "1.256.0"
    = tor_decode_libevent_version "1.0.0"
  ∧ ¬ (tor_decode_libevent_version (dotted (Triple 1 4 0))
       < tor_decode_libevent_version (dotted (Triple 1 256 0))).
Proof.
  split; [unfold earlier; simpl; lia |].
  repeat (split; [vm_compute; reflexivity |]).
  vm_compute. intros H. discriminate H.
Qed.

(** ** The shapes the decoder accepts *)

Lemma skip_space_app (ws rest : list ascii) :
  all_space ws = true → Scanf.skip_space (ws ++ rest) = Scanf.skip_space rest.
Proof.
  unfold all_space. induction ws as [| c ws IH]; [reflexivity |].
  cbn [forallb app Scanf.skip_space]. intros H.
  apply andb_true_iff in H as [Hc Hws]. rewrite Hc. apply IH. exact Hws.
Qed.

Lemma scan_unsigned_skips_space (ws rest : list ascii) :
  all_space ws = true →
  Scanf.scan_unsigned (ws ++ rest) = Scanf.scan_unsigned rest.
Proof.
  intros H. unfold Scanf.scan_unsigned. rewrite skip_space_app by exact H.
  reflexivity.
Qed.

Lemma skip_space_split (s : list ascii) :
  ∃ ws, s = ws ++ Scanf.skip_space s ∧ all_space ws = true.
Proof.
  induction s as [| c s (ws & E & H)]; [exists []; split; reflexivity |].
  cbn [Scanf.skip_space]. destruct (Scanf.is_space c) eqn:Hc.
  - exists (c :: ws). split; [cbn [app]; f_equal; exact E |].
    unfold all_space in *. cbn [forallb]. rewrite Hc. exact H.
  - exists []. split; reflexivity.
Qed.

Lemma scan_digits_split (s : list ascii) (acc n : Z) (rest : list ascii) :
  Scanf.scan_digits s acc = (n, rest) →
  ∃ ds,
    s = ds ++ rest ∧ Forall (fun c => Scanf.is_digit c = true) ds
    ∧ no_digit_ahead rest.
Proof.
  revert acc. induction s as [| c s IH]; intros acc; cbn [Scanf.scan_digits].
  - intros [= _ <-]. exists []. repeat split. constructor.
  - destruct (Scanf.is_digit c) eqn:Hc.
    + intros H. destruct (IH _ H) as (ds & E & Hd & Hr).
      exists (c :: ds). split; [cbn [app]; f_equal; exact E |].
      split; [constructor; assumption | exact Hr].
    + intros [= _ <-]. exists []. split; [reflexivity |].
      split; [constructor | exact Hc].
Qed.

(** What [%u] takes from the input is a number, and the input goes on with
    something that is no digit. *)
Lemma scan_unsigned_inv (s : list ascii) (x : option Z) (rest : list ascii) :
  Scanf.scan_unsigned s = Scanf.Matched x rest →
  ∃ n val,
    s = n ++ rest ∧ numeral n ∧ no_digit_ahead rest ∧ x = Some val.
Proof.
  unfold Scanf.scan_unsigned.
  destruct (skip_space_split s) as (ws & Es & Hws).
  destruct (Scanf.skip_space s) as [| c r]; [discriminate |].
  assert (∀ (sg body : list ascii) (negative : bool),
             is_sign sg → c :: r = sg ++ body →
             match body with
             | d :: _ =>
                 if Scanf.is_digit d then
                   let '(n, rest) := Scanf.scan_digits body 0 in
                   Scanf.Matched
                     (Some (wrap32 (if negative then - n else n))) rest
                 else Scanf.MatchingFailure
             | [] => Scanf.MatchingFailure
             end = Scanf.Matched x rest →
             ∃ n val,
               s = n ++ rest ∧ numeral n ∧ no_digit_ahead rest
               ∧ x = Some val) as Hbody.
  { intros sg body negative Hsg Ebody.
    destruct body as [| d body']; [discriminate |].
    destruct (Scanf.is_digit d) eqn:Hd; [| discriminate].
    destruct (Scanf.scan_digits (d :: body') 0) as [n rest'] eqn:Hs.
    intros [= <- <-].
    destruct (scan_digits_split _ _ _ _ Hs) as (ds & E & Hds & Hr).
    exists (ws ++ sg ++ ds), (wrap32 (if negative then - n else n)).
    split; [rewrite Es, Ebody, E, <- !app_assoc; reflexivity |].
    split; [| split; [exact Hr | reflexivity]].
    exists ws, sg, ds. split; [reflexivity |]. split; [exact Hws |].
    split; [exact Hsg |]. split; [| exact Hds].
    intros ->. cbn [app] in E. subst rest'. cbn in Hr. congruence. }
  destruct (Ascii.eqb c "-") eqn:Hm; [| destruct (Ascii.eqb c "+") eqn:Hp].
  - apply Ascii.eqb_eq in Hm. subst c.
    apply (Hbody ["-"%char] r true); [right; right; reflexivity | reflexivity].
  - apply Ascii.eqb_eq in Hp. subst c.
    apply (Hbody ["+"%char] r false); [right; left; reflexivity | reflexivity].
  - apply (Hbody [] (c :: r) false); [left; reflexivity | reflexivity].
Qed.

(** A number in front of something that is no digit is what [%u] takes. *)
Lemma scan_unsigned_numeral (n rest : list ascii) :
  numeral n → no_digit_ahead rest →
  ∃ val, Scanf.scan_unsigned (n ++ rest) = Scanf.Matched (Some val) rest.
Proof.
  intros (ws & sg & ds & -> & Hws & Hsg & Hne & Hds) Hr.
  rewrite <- app_assoc. rewrite scan_unsigned_skips_space by exact Hws.
  pose proof (scan_digits_app ds rest 0 Hds Hr) as Hscan.
  destruct ds as [| d ds]; [congruence |].
  pose proof (Forall_inv Hds) as Hd. cbn beta in Hd.
  destruct (digit_not_space_or_sign d Hd) as (Hsp & Hmi & Hpl).
  unfold Scanf.scan_unsigned.
  destruct Hsg as [-> | [-> | ->]]; cbn [app Scanf.skip_space].
  - rewrite Hsp, Hmi, Hpl, Hd.
    change (d :: ds ++ rest) with ((d :: ds) ++ rest).
    rewrite Hscan. eexists. reflexivity.
  - change (Scanf.is_space "+") with false. cbv beta iota.
    change (Ascii.eqb "+" "-") with false.
    change (Ascii.eqb "+" "+") with true.
    cbv beta iota. rewrite Hd.
    change (d :: ds ++ rest) with ((d :: ds) ++ rest).
    rewrite Hscan. eexists. reflexivity.
  - change (Scanf.is_space "-") with false. cbv beta iota.
    change (Ascii.eqb "-" "-") with true.
    cbv beta iota. rewrite Hd.
    change (d :: ds ++ rest) with ((d :: ds) ++ rest).
    rewrite Hscan. eexists. reflexivity.
Qed.

(** Going on past a conversion or a literal: what the input starts with
    when the result counts more items than were assigned before it. *)
Lemma run_u_inv (fmt : list Scanf.directive) (s : list ascii)
    (vals : list Z) (f : Z) (a : list Z) :
  Scanf.run (Scanf.Conv_u :: fmt) s vals = (f, a) →
  Z.of_nat (length vals) < f →
  ∃ n val rest,
    s = n ++ rest ∧ numeral n ∧ no_digit_ahead rest
    ∧ Scanf.run fmt rest (vals ++ [val]) = (f, a).
Proof.
  cbn [Scanf.run Scanf.step].
  destruct (Scanf.scan_unsigned s) as [x rest | |] eqn:E.
  - destruct (scan_unsigned_inv s x rest E) as (n & val & Es & Hn & Hr & ->).
    intros H _. exists n, val, rest. repeat split; assumption.
  - intros [= <- _]. lia.
  - destruct vals; intros [= <- _]; unfold Scanf.EOF; cbn [length]; lia.
Qed.

Lemma run_lit_inv (l : ascii) (fmt : list Scanf.directive) (s : list ascii)
    (vals : list Z) (f : Z) (a : list Z) :
  Scanf.run (Scanf.Lit l :: fmt) s vals = (f, a) →
  Z.of_nat (length vals) < f →
  ∃ rest, s = l :: rest ∧ Scanf.run fmt rest vals = (f, a).
Proof.
  cbn [Scanf.run Scanf.step].
  destruct s as [| c rest].
  - destruct vals; intros [= <- _]; unfold Scanf.EOF; cbn [length]; lia.
  - destruct (Ascii.eqb c l) eqn:E.
    + apply Ascii.eqb_eq in E. subst c. intros H _. exists rest.
      split; [reflexivity | exact H].
    + intros [= <- _]. lia.
Qed.

Lemma tail_starts_without_digit (rest : list ascii) :
  modern_tail rest = true ∨ legacy_tail rest = true → no_digit_ahead rest.
Proof.
  destruct rest as [| c r]; [intros _; exact I |].
  cbn [no_digit_ahead modern_tail legacy_tail].
  assert (is_sep (chr c) = true → Scanf.is_digit c = false) as Hsep.
  { unfold is_sep, Scanf.is_digit.
    change (chr "-") with 45. change (chr "_") with 95.
    change (chr "0") with 48. change (chr "9") with 57.
    intros H. apply orb_true_iff in H as [H | H]; apply Z.eqb_eq in H;
      rewrite H; reflexivity. }
  intros [H | H].
  - apply orb_true_iff in H as [H | H]; [exact (Hsep H) |].
    apply andb_true_iff in H as [H _].
    exact (proj1 (letter_is_no_digit_or_dot c H)).
  - destruct r; [| discriminate H].
    exact (proj1 (letter_is_no_digit_or_dot c H)).
Qed.

Lemma matches_modern_formats (v : string) :
  matches_modern v
  = let '(fields, a) := Scanf.run fmt_modern (chars v) [] in
    (fields =? 3)
    || (((fields =? 4) || (fields =? 5)) && is_sep (Scanf.arg 3 a 0))
    || ((fields =? 5) && TOR_ISALPHA (Scanf.arg 3 a 0)
        && is_sep (Scanf.arg 4 a 0)).
Proof. reflexivity. Qed.

Lemma matches_legacy_formats (v : string) :
  matches_legacy v
  = let '(fields, a) := Scanf.run fmt_legacy (chars v) [] in
    ((fields =? 3) && TOR_ISALPHA (Scanf.arg 2 a 0)) || (fields =? 2).
Proof. reflexivity. Qed.

(** The modern condition of lines 261-263 holds exactly for the texts of
    the modern shape. *)
Lemma accepted_modern_matches (v : string) :
  accepted_modern v ↔ matches_modern v = true.
Proof.
  rewrite matches_modern_formats. split.
  - intros (n1 & n2 & n3 & rest & -> & H1 & H2 & H3 & Ht).
    pose proof (tail_starts_without_digit rest (or_introl Ht)) as Hr.
    unfold fmt_modern. cbn [Scanf.run Scanf.step].
    destruct (scan_unsigned_numeral n1 ("."%char :: n2 ++ "."%char
                                          :: n3 ++ rest) H1 eq_refl)
      as (x1 & ->).
    cbn [Scanf.run Scanf.step Ascii.eqb Bool.eqb app].
    destruct (scan_unsigned_numeral n2 ("."%char :: n3 ++ rest) H2 eq_refl)
      as (x2 & ->).
    cbn [Scanf.run Scanf.step Ascii.eqb Bool.eqb app].
    destruct (scan_unsigned_numeral n3 rest H3 Hr) as (x3 & ->).
    destruct rest as [| c [| e r]]; cbn [modern_tail] in Ht.
    + reflexivity.
    + cbn [Scanf.run Scanf.step app length Scanf.arg nth].
      rewrite andb_false_r, orb_false_r in Ht. rewrite Ht. reflexivity.
    + cbn [Scanf.run Scanf.step app length Scanf.arg nth].
      vm_compute (Z.of_nat 5 =? 3). vm_compute (Z.of_nat 5 =? 4).
      vm_compute (Z.of_nat 5 =? 5). cbn [orb andb]. exact Ht.
  - destruct (Scanf.run fmt_modern (chars v) []) as [f a] eqn:E.
    intros Hc.
    assert (3 <= f) as Hf.
    { destruct (f =? 3) eqn:E3; [apply Z.eqb_eq in E3; lia |].
      destruct (f =? 4) eqn:E4; [apply Z.eqb_eq in E4; lia |].
      destruct (f =? 5) eqn:E5; [apply Z.eqb_eq in E5; lia |].
      discriminate Hc. }
    unfold fmt_modern in E.
    apply run_u_inv in E as (n1 & x1 & r1 & Es1 & H1 & _ & E);
      [| cbn [length]; lia].
    apply run_lit_inv in E as (r1' & -> & E); [| cbn [length app]; lia].
    apply run_u_inv in E as (n2 & x2 & r2 & -> & H2 & _ & E);
      [| cbn [length app]; lia].
    apply run_lit_inv in E as (r2' & -> & E); [| cbn [length app]; lia].
    apply run_u_inv in E as (n3 & x3 & r3 & -> & H3 & _ & E);
      [| cbn [length app]; lia].
    exists n1, n2, n3, r3. split; [exact Es1 |].
    split; [exact H1 |]. split; [exact H2 |]. split; [exact H3 |].
    cbn [app] in E.
    destruct r3 as [| c [| e r]]; cbn [Scanf.run Scanf.step app length] in E;
      injection E as <- <-; cbn [modern_tail]; [reflexivity | |].
    + cbn [Scanf.arg nth] in Hc. vm_compute (Z.of_nat 4 =? 3) in Hc.
      vm_compute (Z.of_nat 4 =? 4) in Hc. vm_compute (Z.of_nat 4 =? 5) in Hc.
      cbn [orb andb] in Hc. rewrite orb_false_r in Hc. rewrite Hc.
      reflexivity.
    + cbn [Scanf.arg nth] in Hc. vm_compute (Z.of_nat 5 =? 3) in Hc.
      vm_compute (Z.of_nat 5 =? 4) in Hc. vm_compute (Z.of_nat 5 =? 5) in Hc.
      cbn [orb andb] in Hc. exact Hc.
Qed.

(** The legacy condition of lines 269-271 holds exactly for the texts of
    the legacy shape. *)
Lemma accepted_legacy_matches (v : string) :
  accepted_legacy v ↔ matches_legacy v = true.
Proof.
  rewrite matches_legacy_formats. split.
  - intros (n1 & n2 & rest & -> & H1 & H2 & Ht).
    pose proof (tail_starts_without_digit rest (or_intror Ht)) as Hr.
    unfold fmt_legacy. cbn [Scanf.run Scanf.step].
    destruct (scan_unsigned_numeral n1 ("."%char :: n2 ++ rest) H1 eq_refl)
      as (x1 & ->).
    cbn [Scanf.run Scanf.step Ascii.eqb Bool.eqb app].
    destruct (scan_unsigned_numeral n2 rest H2 Hr) as (x2 & ->).
    destruct rest as [| c [| e r]]; cbn [legacy_tail] in Ht.
    + reflexivity.
    + cbn [Scanf.run Scanf.step app length Scanf.arg nth].
      rewrite Ht. reflexivity.
    + discriminate Ht.
  - destruct (Scanf.run fmt_legacy (chars v) []) as [f a] eqn:E.
    intros Hc.
    assert (2 <= f) as Hf.
    { destruct (f =? 3) eqn:E3; [apply Z.eqb_eq in E3; lia |].
      destruct (f =? 2) eqn:E2; [apply Z.eqb_eq in E2; lia |].
      discriminate Hc. }
    unfold fmt_legacy in E.
    apply run_u_inv in E as (n1 & x1 & r1 & Es1 & H1 & _ & E);
      [| cbn [length]; lia].
    apply run_lit_inv in E as (r1' & -> & E); [| cbn [length app]; lia].
    apply run_u_inv in E as (n2 & x2 & r2 & -> & H2 & _ & E);
      [| cbn [length app]; lia].
    exists n1, n2, r2. split; [exact Es1 |].
    split; [exact H1 |]. split; [exact H2 |].
    cbn [app] in E.
    destruct r2 as [| c [| e r]]; cbn [Scanf.run Scanf.step app length] in E;
      injection E as <- <-; cbn [legacy_tail]; [reflexivity | |].
    + cbn [Scanf.arg nth] in Hc. vm_compute (Z.of_nat 3 =? 3) in Hc.
      vm_compute (Z.of_nat 3 =? 2) in Hc.
      cbn [orb andb] in Hc. rewrite orb_false_r in Hc. exact Hc.
    + vm_compute (Z.of_nat 4 =? 3) in Hc. vm_compute (Z.of_nat 4 =? 2) in Hc.
      cbn [orb andb] in Hc. discriminate Hc.
Qed.

(** A text of one of the spec's shapes is a text of the same shape as the
    decoder takes it, with no white space and no sign. *)
Lemma spec_number_inv (s rest : list ascii) :
  spec_number s = Some rest →
  ∃ ds, s = ds ++ rest ∧ numeral ds.
Proof.
  assert (∀ t, ∃ ds, t = ds ++ drop_digits t
                     ∧ Forall (fun c => Scanf.is_digit c = true) ds) as Hdrop.
  { induction t as [| c t (ds & E & Hds)]; [exists []; split; constructor |].
    cbn [drop_digits]. destruct (Scanf.is_digit c) eqn:Hc.
    - exists (c :: ds). split; [cbn [app]; f_equal; exact E |].
      constructor; assumption.
    - exists []. split; [reflexivity | constructor]. }
  destruct s as [| c s]; [discriminate |]. cbn [spec_number].
  destruct (Scanf.is_digit c) eqn:Hc; [| discriminate].
  intros [= <-]. destruct (Hdrop s) as (ds & E & Hds).
  exists (c :: ds). split; [cbn [app]; f_equal; exact E |].
  exists [], [], (c :: ds). split; [reflexivity |]. split; [reflexivity |].
  split; [left; reflexivity |]. split; [discriminate |].
  constructor; assumption.
Qed.

Lemma spec_dot_inv (s rest : list ascii) :
  spec_dot s = Some rest → s = "."%char :: rest.
Proof.
  destruct s as [| c s]; [discriminate |]. cbn [spec_dot].
  destruct (Ascii.eqb c ".") eqn:E; [| discriminate].
  apply Ascii.eqb_eq in E. subst c. intros [= <-]. reflexivity.
Qed.

Lemma major_minor_inv (v : string) (rest : list ascii) :
  major_minor v = Some rest →
  ∃ n1 n2, chars v = n1 ++ "."%char :: n2 ++ rest ∧ numeral n1 ∧ numeral n2.
Proof.
  unfold major_minor.
  destruct (spec_number (chars v)) as [s1 |] eqn:E1; [| discriminate].
  cbn [and_then].
  destruct (spec_dot s1) as [s2 |] eqn:E2; [| discriminate].
  cbn [and_then]. intros E3.
  apply spec_number_inv in E1 as (n1 & Ev & H1).
  apply spec_dot_inv in E2 as ->.
  apply spec_number_inv in E3 as (n2 & -> & H2).
  exists n1, n2. repeat split; assumption.
Qed.

Lemma spec_shapes_are_accepted (v : string) :
  (spec_modern_shape v = true → accepted_modern v)
  ∧ (spec_legacy_shape v = true → accepted_legacy v).
Proof.
  unfold spec_modern_shape, spec_legacy_shape.
  destruct (major_minor v) as [s3 |] eqn:E; cbn [and_then];
    [| split; discriminate].
  apply major_minor_inv in E as (n1 & n2 & Ev & H1 & H2).
  split.
  - destruct (spec_dot s3) as [s4 |] eqn:E4; [| discriminate].
    cbn [and_then].
    destruct (spec_number s4) as [s5 |] eqn:E5; [| discriminate].
    intros Ht.
    apply spec_dot_inv in E4 as ->.
    apply spec_number_inv in E5 as (n3 & -> & H3).
    exists n1, n2, n3, s5. repeat split; assumption.
  - intros Ht. exists n1, n2, s3. repeat split; assumption.
Qed.

(** C1 (as amended): a text of neither shape the decoder accepts decodes to
    the sentinel [LE_OTHER].  The shapes are: number '.' number '.' number
    followed by nothing, by '-' or '_' and anything, or by one letter, '-'
    or '_' and anything; and number '.' number followed by nothing or by
    exactly one letter; a number being what [%u] takes, that is white
    space, an optional sign and one or more digits.  They are exactly the
    texts for which the conditions of lines 261-263 and 269-271 hold, and
    they include the spec's two shapes.  The sentinel is the number
    0x00006300 of the triple (0,0,99), equal to the number of no other
    triple of bytes, and it compares strictly less than the thresholds of
    the compatibility matrix (1.0e, 1.1b, 1.1.0, 1.3b). *)
Theorem unmatched_decodes_to_low_sentinel (v : string) :
  (¬ accepted_modern v → ¬ accepted_legacy v →
   tor_decode_libevent_version v = LE_OTHER)
  ∧ (accepted_modern v ↔ matches_modern v = true)
  ∧ (accepted_legacy v ↔ matches_legacy v = true)
  ∧ (spec_modern_shape v = true → accepted_modern v)
  ∧ (spec_legacy_shape v = true → accepted_legacy v)
  ∧ LE_OTHER = 0x00006300
  ∧ LE_OTHER = tor_decode_libevent_version "0.0.99"
  ∧ (∀ major minor patch,
        0 <= major < 256 → 0 <= minor < 256 → 0 <= patch < 256 →
        V major minor patch = LE_OTHER ↔
        major = 0 ∧ minor = 0 ∧ patch = 99)
  ∧ LE_OTHER < V_OLD 1 0 (chr "e")
  ∧ LE_OTHER < V_OLD 1 1 (chr "b")
  ∧ LE_OTHER < V 1 1 0
  ∧ LE_OTHER < V_OLD 1 3 (chr "b")
  ∧ tor_decode_libevent_version "1.0e" = V_OLD 1 0 (chr "e")
  ∧ tor_decode_libevent_version "1.1b" = V_OLD 1 1 (chr "b")
  ∧ tor_decode_libevent_version "1.1.0" = V 1 1 0.
Proof.
  split.
  { intros Hm Hl. apply decode_unmatched.
    - destruct (matches_modern v) eqn:E; [| reflexivity].
      exfalso. apply Hm. apply accepted_modern_matches. exact E.
    - destruct (matches_legacy v) eqn:E; [| reflexivity].
      exfalso. apply Hl. apply accepted_legacy_matches. exact E. }
  split; [apply accepted_modern_matches |].
  split; [apply accepted_legacy_matches |].
  split; [apply spec_shapes_are_accepted |].
  split; [apply spec_shapes_are_accepted |].
  split; [vm_compute; reflexivity |].
  split; [vm_compute; reflexivity |].
  split.
  - intros major minor patch HM Hmi Hp.
    rewrite V_bytes by assumption.
    change LE_OTHER with 25344.
    change (2 ^ 24) with 16777216. change (2 ^ 16) with 65536.
    change (2 ^ 8) with 256. lia.
  - repeat split; vm_compute; reflexivity.
Qed.

Lemma unmatched_decodes_to_low_sentinel_witness :
  ¬ accepted_modern "garbage"
  ∧ ¬ accepted_legacy "garbage"
  ∧ tor_decode_libevent_version "garbage" = LE_OTHER.
Proof.
  assert (¬ accepted_modern "garbage") as Hm.
  { intros H. apply accepted_modern_matches in H. discriminate H. }
  assert (¬ accepted_legacy "garbage") as Hl.
  { intros H. apply accepted_legacy_matches in H. discriminate H. }
  split; [exact Hm |]. split; [exact Hl |].
  exact (proj1 (unmatched_decodes_to_low_sentinel "garbage") Hm Hl).
Defined.

(** C1 as stated fails.  With the shapes as the spec words them, the texts
    " 1. 4. 11" and "-1.2.3" have neither shape and yet decode to a version
    number, not to the sentinel.  And the sentinel is the decoded value of
    the well-formed string "0.0.99", and it is below, not above, the
    decoded values of 1.0e, 1.1b and 1.1.0. *)
Lemma sentinel_meets_a_real_triple_and_sorts_low :
  spec_modern_shape " 1. 4. 11" = false
  ∧ spec_legacy_shape " 1. 4. 11" = false
  ∧ tor_decode_libevent_version " 1. 4. 11" = 0x01040b00
  ∧ tor_decode_libevent_version " 1. 4. 11" ≠ LE_OTHER
  ∧ spec_modern_shape "-1.2.3" = false
  ∧ spec_legacy_shape "-1.2.3" = false
  ∧ tor_decode_libevent_version "-1.2.3" = 0xff020300
  ∧ tor_decode_libevent_version "-1.2.3" ≠ LE_OTHER
  ∧ spec_modern_shape "0.0.99" = true
  ∧ matches_modern "0.0.99" = true
  ∧ tor_decode_libevent_version "0.0.99" = LE_OTHER
  ∧ ¬ (tor_decode_libevent_version "1.0e" < LE_OTHER)
  ∧ ¬ (tor_decode_libevent_version "1.1b" < LE_OTHER)
  ∧ ¬ (tor_decode_libevent_version "1.1.0" < LE_OTHER).
Proof.
  repeat split; try (vm_compute; reflexivity);
    vm_compute; intros H; discriminate H.
Qed.

(** ** Running the state monad *)

Lemma add_log_nil (w : world) : add_log [] w = w.
Proof. destruct w. unfold add_log, set_log. simpl. rewrite app_nil_r. reflexivity. Qed.

Lemma add_log_add_log (es fs : list log_entry) (w : world) :
  add_log fs (add_log es w) = add_log (es ++ fs) w.
Proof. unfold add_log, set_log. simpl. rewrite app_assoc. reflexivity. Qed.

Lemma log_run sev dom format args (w : world) :
  log sev dom format args w = Ok tt (add_log [LogEntry sev dom format args] w).
Proof. reflexivity. Qed.

Lemma log_then {A} sev dom format args (k : M A) (w : world) :
  (log sev dom format args ;; k) w
  = k (add_log [LogEntry sev dom format args] w).
Proof. reflexivity. Qed.

(** ** The header/runtime skew check *)

Lemma le_versions_compatibility_range (v : Z) :
  0 <= le_versions_compatibility v <= 5
  ∧ (le_versions_compatibility v = 0 ↔ v = LE_OTHER).
Proof.
  unfold le_versions_compatibility.
  destruct (v =? LE_OTHER) eqn:E.
  - apply Z.eqb_eq in E. split; [lia | tauto].
  - apply Z.eqb_neq in E.
    repeat match goal with
           | |- context [if ?c then _ else _] => destruct c
           end; (split; [lia | split; [lia | congruence]]).
Qed.

Lemma le_versions_compatibility_step (v : Z) :
  v ≠ LE_OTHER → le_versions_compatibility v = abi_era_step v.
Proof.
  intros H. unfold le_versions_compatibility, abi_era_step.
  apply Z.eqb_neq in H. rewrite H. reflexivity.
Qed.

Lemma abi_era_step_monotone (v w : Z) :
  v <= w → abi_era_step v <= abi_era_step w.
Proof.
  intros H. unfold abi_era_step.
  change (V_OLD 1 0 (chr "c")) with 16777984.
  change (V 1 4 0) with 17039360. change (V 1 4 99) with 17064704.
  change (V 2 0 1) with 33554688.
  repeat match goal with
         | |- context [?a <? ?b] => destruct (Z.ltb_spec a b)
         end; lia.
Qed.

Lemma skew_check_run (hv : string) (lib : libevent) (w : world) :
  tor_check_libevent_header_compatibility hv lib w
  = if String.eqb hv (event_get_version lib) then Ok tt w
    else if le_versions_compatibility (tor_decode_libevent_version hv)
            =? le_versions_compatibility
                 (tor_decode_libevent_version (event_get_version lib))
         then Ok tt (add_log (low_severity_advisory hv (event_get_version lib)) w)
         else Ok tt (add_log (high_severity_advisory hv (event_get_version lib)) w).
Proof.
  unfold tor_check_libevent_header_compatibility.
  destruct (String.eqb hv (event_get_version lib)); [reflexivity |].
  cbn [negb].
  destruct (_ =? _); cbn [negb]; rewrite log_then;
    unfold log_warn, log_info; rewrite log_run, add_log_add_log; reflexivity.
Qed.

Lemma skew_check_same (hv : string) (lib : libevent) (w : world) :
  hv = event_get_version lib →
  tor_check_libevent_header_compatibility hv lib w = Ok tt w.
Proof.
  intros H. rewrite skew_check_run.
  apply String.eqb_eq in H. rewrite H. reflexivity.
Qed.

Lemma skew_check_differ (hv : string) (lib : libevent) (w : world) :
  hv ≠ event_get_version lib →
  tor_check_libevent_header_compatibility hv lib w
  = Ok tt (add_log
             ((if era hv =? era (event_get_version lib)
               then low_severity_advisory else high_severity_advisory)
                hv (event_get_version lib)) w).
Proof.
  intros H. rewrite skew_check_run.
  apply String.eqb_neq in H. rewrite H. unfold era.
  destruct (_ =? _); reflexivity.
Qed.

(** C7 (as amended): identical strings give no advisory; differing strings
    are decoded and bucketed, differing eras give the high-severity
    advisory and equal eras the low-severity one.  The bucket function maps
    the sentinel [LE_OTHER] to era 0 and every other number through the
    monotonic step function with boundaries 1.0c, 1.4.0, 1.4.99 and 2.0.1
    (era 5 from 2.0.1 on). *)
Theorem skew_check_advisories (hv : string) (lib : libevent) (w : world) :
  (hv = event_get_version lib →
   tor_check_libevent_header_compatibility hv lib w = Ok tt w)
  ∧ (hv ≠ event_get_version lib → era hv ≠ era (event_get_version lib) →
     tor_check_libevent_header_compatibility hv lib w
     = Ok tt (add_log (high_severity_advisory hv (event_get_version lib)) w))
  ∧ (hv ≠ event_get_version lib → era hv = era (event_get_version lib) →
     tor_check_libevent_header_compatibility hv lib w
     = Ok tt (add_log (low_severity_advisory hv (event_get_version lib)) w))
  ∧ le_versions_compatibility LE_OTHER = 0
  ∧ (∀ v, v ≠ LE_OTHER → le_versions_compatibility v = abi_era_step v)
  ∧ (∀ v v', v <= v' → abi_era_step v <= abi_era_step v')
  ∧ (∀ v, abi_era_step v = 1 ↔ v < tor_decode_libevent_version "1.0c")
  ∧ (∀ v, abi_era_step v <= 2 ↔ v < tor_decode_libevent_version "1.4.0")
  ∧ (∀ v, abi_era_step v <= 3 ↔ v < tor_decode_libevent_version "1.4.99")
  ∧ (∀ v, abi_era_step v <= 4 ↔ v < tor_decode_libevent_version "2.0.1").
Proof.
  split; [apply skew_check_same |].
  split.
  { intros Hne He. rewrite skew_check_differ by assumption.
    apply Z.eqb_neq in He. rewrite He. reflexivity. }
  split.
  { intros Hne He. rewrite skew_check_differ by assumption.
    apply Z.eqb_eq in He. rewrite He. reflexivity. }
  split; [reflexivity |].
  split; [apply le_versions_compatibility_step |].
  split; [apply abi_era_step_monotone |].
  change (tor_decode_libevent_version "1.0c") with 16777984.
  change (tor_decode_libevent_version "1.4.0") with 17039360.
  change (tor_decode_libevent_version "1.4.99") with 17064704.
  change (tor_decode_libevent_version "2.0.1") with 33554688.
  unfold abi_era_step.
  change (V_OLD 1 0 (chr "c")) with 16777984.
  change (V 1 4 0) with 17039360. change (V 1 4 99) with 17064704.
  change (V 2 0 1) with 33554688.
  repeat split; intros;
    repeat match goal with
           | H : context [?a <? ?b] |- _ => destruct (Z.ltb_spec a b)
           | |- context [?a <? ?b] => destruct (Z.ltb_spec a b)
           end; lia.
Qed.

Lemma skew_check_advisories_witness :
  "2.0.10-stable"%string ≠ "2.0.12-stable"%string
  ∧ era "2.0.10-stable" = era "2.0.12-stable"
  ∧ tor_check_libevent_header_compatibility "2.0.10-stable"
      (library_saying "2.0.12-stable") initial_world
    = Ok tt (add_log
               (low_severity_advisory "2.0.10-stable" "2.0.12-stable")
               initial_world).
Proof.
  assert ("2.0.10-stable"%string ≠ "2.0.12-stable"%string) as Hne
    by (intros H; discriminate H).
  split; [exact Hne |]. split; [reflexivity |].
  exact (proj1 (proj2 (proj2
           (skew_check_advisories "2.0.10-stable"
              (library_saying "2.0.12-stable") initial_world)))
           Hne eq_refl).
Defined.

(** C7 as stated fails: the bucket function is not the step function alone.
    The sentinel, the number of 0.0.99, is put in era 0 although it lies
    below the boundary 1.0c, so the eras do not grow with the numbers, and
    "0.0.98" against "0.0.99" gets the high-severity advisory although the
    step function puts both in era 1. *)
Lemma sentinel_breaks_the_step_function :
  tor_decode_libevent_version "0.0.98" < tor_decode_libevent_version "0.0.99"
  ∧ era "0.0.98" = 1 ∧ era "0.0.99" = 0
  ∧ abi_era_step (tor_decode_libevent_version "0.0.98") = 1
  ∧ abi_era_step (tor_decode_libevent_version "0.0.99") = 1
  ∧ tor_check_libevent_header_compatibility "0.0.98"
      (library_saying "0.0.99") initial_world
    = Ok tt (add_log (high_severity_advisory "0.0.98" "0.0.99") initial_world)
  ∧ abi_era_step (tor_decode_libevent_version "garbage")
    = abi_era_step (tor_decode_libevent_version "1.0b")
  ∧ tor_check_libevent_header_compatibility "garbage"
      (library_saying "1.0b") initial_world
    = Ok tt (add_log (high_severity_advisory "garbage" "1.0b") initial_world).
Proof. repeat (split; [vm_compute; reflexivity |]). vm_compute. reflexivity. Qed.

(** C4 (as amended): the check never fails, whatever the strings.  When the
    strings differ and one of them is unparseable while the other decodes to
    a number other than the sentinel, the unparseable one is in era 0, the
    other in one of the eras 1 to 5, and the high-severity advisory is
    logged.  When both are unparseable both are in era 0 and the
    low-severity advisory is logged. *)
Theorem skew_check_with_unparseable (hv : string) (lib : libevent)
    (w : world) :
  hv ≠ event_get_version lib →
  (∃ es, tor_check_libevent_header_compatibility hv lib w
         = Ok tt (add_log es w))
  ∧ (unparseable hv →
     tor_decode_libevent_version (event_get_version lib) ≠ LE_OTHER →
     era hv = 0 ∧ 1 <= era (event_get_version lib) <= 5
     ∧ tor_check_libevent_header_compatibility hv lib w
       = Ok tt (add_log (high_severity_advisory hv (event_get_version lib)) w))
  ∧ (unparseable (event_get_version lib) →
     tor_decode_libevent_version hv ≠ LE_OTHER →
     era (event_get_version lib) = 0 ∧ 1 <= era hv <= 5
     ∧ tor_check_libevent_header_compatibility hv lib w
       = Ok tt (add_log (high_severity_advisory hv (event_get_version lib)) w))
  ∧ (unparseable hv → unparseable (event_get_version lib) →
     era hv = 0 ∧ era (event_get_version lib) = 0
     ∧ tor_check_libevent_header_compatibility hv lib w
       = Ok tt (add_log (low_severity_advisory hv (event_get_version lib)) w)).
Proof.
  intros Hne.
  assert (∀ v, unparseable v → era v = 0) as Hun.
  { intros v [Hm Hl]. unfold era. rewrite decode_unmatched by assumption.
    reflexivity. }
  assert (∀ v, tor_decode_libevent_version v ≠ LE_OTHER → 1 <= era v <= 5)
    as Hreal.
  { intros v Hv. unfold era.
    destruct (le_versions_compatibility_range
                (tor_decode_libevent_version v)) as [Hr Hz].
    assert (le_versions_compatibility (tor_decode_libevent_version v) ≠ 0)
      by (intros E; apply Hv, Hz, E).
    lia. }
  rewrite skew_check_differ by assumption.
  split; [eexists; reflexivity |].
  split; [| split].
  - intros Hu Hr. specialize (Hun _ Hu). specialize (Hreal _ Hr).
    split; [assumption |]. split; [assumption |].
    replace (era hv =? era (event_get_version lib)) with false
      by (symmetry; apply Z.eqb_neq; lia).
    reflexivity.
  - intros Hu Hr. specialize (Hun _ Hu). specialize (Hreal _ Hr).
    split; [assumption |]. split; [assumption |].
    replace (era hv =? era (event_get_version lib)) with false
      by (symmetry; apply Z.eqb_neq; lia).
    reflexivity.
  - intros Hu Hu'. pose proof (Hun _ Hu) as E1. pose proof (Hun _ Hu') as E2.
    split; [assumption |]. split; [assumption |].
    rewrite E1, E2. reflexivity.
Qed.

Lemma skew_check_with_unparseable_witness :
  "garbage"%string ≠ "2.0.12-stable"%string
  ∧ unparseable "garbage"
  ∧ tor_check_libevent_header_compatibility "garbage"
      (library_saying "2.0.12-stable") initial_world
    = Ok tt (add_log (high_severity_advisory "garbage" "2.0.12-stable")
               initial_world).
Proof.
  assert ("garbage"%string ≠ "2.0.12-stable"%string) as Hne
    by (intros H; discriminate H).
  assert (unparseable "garbage") as Hu by (split; reflexivity).
  assert (tor_decode_libevent_version "2.0.12-stable" ≠ LE_OTHER) as Hr
    by (vm_compute; intros H; discriminate H).
  split; [exact Hne |]. split; [exact Hu |].
  exact (proj2 (proj2 (proj1 (proj2
           (skew_check_with_unparseable "garbage"
              (library_saying "2.0.12-stable") initial_world Hne))
           Hu Hr))).
Defined.

(** C4 as stated fails when both strings are unparseable: "garbage" and
    "junk" differ and both are in era 0, so the check logs the low-severity
    advisory, not the high-severity one. *)
Lemma two_unparseable_strings_are_low_severity :
  "garbage"%string ≠ "junk"%string
  ∧ unparseable "garbage" ∧ unparseable "junk"
  ∧ tor_check_libevent_header_compatibility "garbage"
      (library_saying "junk") initial_world
    = Ok tt (add_log (low_severity_advisory "garbage" "junk") initial_world)
  ∧ tor_check_libevent_header_compatibility "garbage"
      (library_saying "junk") initial_world
    ≠ Ok tt (add_log (high_severity_advisory "garbage" "junk") initial_world).
Proof.
  split; [intros H; discriminate H |].
  split; [split; reflexivity |]. split; [split; reflexivity |].
  split; [vm_compute; reflexivity |].
  vm_compute. intros H. discriminate H.
Qed.

(** ** The compatibility matrix *)

Lemma check_version_run (b : build) (lib : libevent) (m : string)
    (server : bool) (w : world) :
  let v := fst (tor_get_libevent_version b lib) in
  let version := snd (tor_get_libevent_version b lib) in
  let f := compute_flags (target_os b) m server version in
  let c := most_severe
             (triggered (thread_unsafe f) (buggy f) (iffy f)
                        (slow f && server)) in
  tor_check_libevent_version b lib m server w
  = Ok (snd (report c m v (sad_os f)))
       (add_log (fst (report c m v (sad_os f))) w).
Proof.
  unfold tor_check_libevent_version, compute_flags.
  destruct (tor_get_libevent_version b lib) as [v version].
  cbn [fst snd].
  destruct (backend_flags m version) as [[bu iff] sl].
  destruct (platform_flags (target_os b) server version) as [tu so].
  cbn [thread_unsafe buggy iffy slow sad_os].
  destruct tu, bu, iff, sl, server; cbn; rewrite ?add_log_nil; reflexivity.
Qed.

(** C5 (as amended): every flag is computed, the backend's flags from the
    backend and the version alone and the threading flag from the platform,
    the role and the version alone; the function reports the most severe
    of the raised conditions in the order thread-unsafe > buggy > iffy >
    slow > none, where slow counts in server role only.  A server on a
    platform that raises thread-unsafe, with a version that also raises
    slow, is reported thread-unsafe. *)
Theorem most_severe_condition_is_reported (b : build) (lib : libevent)
    (m : string) (server : bool) (w : world) :
  let v := fst (tor_get_libevent_version b lib) in
  let version := snd (tor_get_libevent_version b lib) in
  let f := compute_flags (target_os b) m server version in
  let c := most_severe
             (triggered (thread_unsafe f) (buggy f) (iffy f)
                        (slow f && server)) in
  tor_check_libevent_version b lib m server w
  = Ok (snd (report c m v (sad_os f)))
       (add_log (fst (report c m v (sad_os f))) w)
  ∧ (buggy f, iffy f, slow f) = backend_flags m version
  ∧ (thread_unsafe f, sad_os f) = platform_flags (target_os b) server version
  ∧ (thread_unsafe f = true → slow f = true →
     c = ThreadUnsafe
     ∧ tor_check_libevent_version b lib m server w
       = Ok (Some "BROKEN"%string)
            (add_log [LogEntry LOG_WARN [LD_GENERAL] msg_thread_unsafe
                        [Str v; Str (sad_os f)]] w))
  ∧ (target_os b ≠ OtherOS → server = true →
     version < V_OLD 1 3 (chr "b") → thread_unsafe f = true).
Proof.
  intros v version f c.
  pose proof (check_version_run b lib m server w) as Hrun.
  cbn zeta in Hrun. fold v version f c in Hrun.
  split; [exact Hrun |].
  assert ((buggy f, iffy f, slow f) = backend_flags m version
          ∧ (thread_unsafe f, sad_os f)
            = platform_flags (target_os b) server version) as [Hb Hp].
  { subst f. unfold compute_flags.
    destruct (backend_flags m version) as [[bu iff] sl].
    destruct (platform_flags (target_os b) server version) as [tu so].
    split; reflexivity. }
  split; [exact Hb |]. split; [exact Hp |].
  split.
  - intros Ht Hs.
    assert (c = ThreadUnsafe) as Hc.
    { subst c. rewrite Ht. destruct (buggy f), (iffy f), (slow f && server);
        reflexivity. }
    split; [exact Hc |]. rewrite Hrun, Hc. reflexivity.
  - intros Hos Hsrv Hlt.
    assert (fst (platform_flags (target_os b) server version) = true) as H.
    { unfold platform_flags. rewrite Hsrv.
      apply Z.ltb_lt in Hlt. rewrite Hlt.
      destruct (target_os b); [reflexivity | reflexivity | congruence]. }
    rewrite <- Hp in H. exact H.
Qed.

Lemma most_severe_condition_is_reported_witness :
  thread_unsafe (compute_flags BSD "select" true (V 1 0 0)) = true
  ∧ slow (compute_flags BSD "select" true (V 1 0 0)) = true
  ∧ tor_check_libevent_version (orconfig BSD) libevent_1_0_select
      "select" true initial_world
    = Ok (Some "BROKEN"%string)
         (add_log [LogEntry LOG_WARN [LD_GENERAL] msg_thread_unsafe
                     [Str "1.0"; Str "BSD variants"]] initial_world).
Proof.
  split; [reflexivity |]. split; [reflexivity |].
  exact (proj2 (proj1 (proj2 (proj2 (proj2
           (most_severe_condition_is_reported (orconfig BSD)
              libevent_1_0_select "select" true initial_world))))
           eq_refl eq_refl)).
Defined.

(** C5 as stated fails in client role: with the backend "select" and the
    version 1.0.0 the slow flag is raised and is the most severe one, yet
    nothing is reported. *)
Lemma slow_is_not_reported_to_a_client :
  backend_flags "select" (V 1 0 0) = (false, false, true)
  ∧ platform_flags OtherOS false (V 1 0 0) = (false, EmptyString)
  ∧ most_severe (triggered false false false true) = Slow
  ∧ tor_check_libevent_version (orconfig OtherOS) libevent_1_0_select
      "select" false initial_world
    = Ok None initial_world
  ∧ tor_check_libevent_version (orconfig OtherOS) libevent_1_0_select
      "select" false initial_world
    ≠ Ok (snd (report Slow "select" "1.0" EmptyString))
         (add_log (fst (report Slow "select" "1.0" EmptyString)) initial_world).
Proof.
  repeat (split; [vm_compute; reflexivity |]).
  vm_compute. intros H. discriminate H.
Qed.

(** ** The log callback *)

Lemma no_nul_spec (s : string) :
  no_nul s = true → Forall (fun c => Ascii.eqb c NUL = false) (chars s).
Proof.
  unfold no_nul. rewrite forallb_forall, List.Forall_forall.
  intros H c Hc. specialize (H c Hc). destruct (Ascii.eqb c NUL); [discriminate H | reflexivity].
Qed.

Lemma c_string_app (s rest : list ascii) :
  Forall (fun c => Ascii.eqb c NUL = false) s →
  c_string (s ++ NUL :: rest) = s.
Proof.
  induction 1 as [| c s Hc _ IH]; simpl.
  - reflexivity.
  - rewrite Hc, IH. reflexivity.
Qed.

Lemma without_trailing_newline_snoc (s : list ascii) (c : ascii) :
  without_trailing_newline (s ++ [c])
  = if Ascii.eqb c newline then s else s ++ [c].
Proof.
  induction s as [| a s IH].
  - simpl. destruct (Ascii.eqb c newline); reflexivity.
  - change ((a :: s) ++ [c]) with (a :: (s ++ [c])).
    cbn [without_trailing_newline].
    destruct (s ++ [c]) as [| x r] eqn:E.
    + destruct s; discriminate E.
    + rewrite IH. destruct (Ascii.eqb c newline); reflexivity.
Qed.

Lemma strlcpy_run (dst : list ascii) (src : string) :
  strlcpy dst src 1024
  = (take 1023 (chars src) ++ NUL
       :: drop (S (length (take 1023 (chars src)))) dst,
     length (chars src)).
Proof. reflexivity. Qed.

(** The buffer keeps its 1024 bytes. *)
Lemma fill_buffer_length (buf0 : list ascii) (msg : string) :
  length buf0 = 1024%nat → length (fill_buffer buf0 msg) = 1024%nat.
Proof.
  intros H. unfold fill_buffer. rewrite strlcpy_run.
  assert (length (take 1023 (chars msg) ++ NUL
            :: drop (S (length (take 1023 (chars msg)))) buf0) = 1024%nat).
  { rewrite length_app. cbn [length]. rewrite length_drop, H, length_take.
    lia. }
  destruct (_ && _); [rewrite length_insert |]; assumption.
Qed.

(** What [%s] prints for the buffer. *)
Lemma fill_buffer_text (buf0 : list ascii) (msg : string) :
  no_nul msg = true →
  c_string (fill_buffer buf0 msg)
  = if (length (chars msg) <=? 1023)%nat
    then without_trailing_newline (chars msg)
    else take 1023 (chars msg).
Proof.
  intros Hn. apply no_nul_spec in Hn.
  unfold fill_buffer. rewrite strlcpy_run.
  set (s := chars msg) in *.
  destruct (Nat.leb_spec (length s) 1023) as [Hle | Hgt].
  - rewrite (take_ge s) by lia.
    replace (length s <? 1024)%nat with true
      by (symmetry; apply Nat.ltb_lt; lia).
    clearbody s. induction s as [| c s' _] using rev_ind.
    + reflexivity.
    + apply Forall_app in Hn as [Hs' Hc].
      apply Forall_inv in Hc.
      rewrite length_app. cbn [length].
      replace (length s' + 1 =? 0)%nat with false
        by (symmetry; apply Nat.eqb_neq; lia).
      replace (length s' + 1 - 1)%nat with (length s') by lia.
      rewrite <- app_assoc. cbn [app negb andb].
      rewrite list_lookup_middle by reflexivity.
      rewrite without_trailing_newline_snoc.
      destruct (Ascii.eqb_spec c newline) as [-> | Hne].
      * rewrite bool_decide_eq_true_2 by reflexivity.
        replace (length s') with (length s' + 0)%nat at 1 by lia.
        rewrite insert_app_r. cbn [list_insert insert].
        apply c_string_app. assumption.
      * rewrite bool_decide_eq_false_2 by congruence.
        change (s' ++ c :: NUL :: ?r) with (s' ++ [c] ++ NUL :: r).
        rewrite app_assoc. apply c_string_app.
        apply Forall_app. split; [assumption |]. constructor; [assumption | constructor].
  - replace (length s <? 1024)%nat with false
      by (symmetry; apply Nat.ltb_ge; lia).
    rewrite andb_false_r. cbn [andb].
    apply c_string_app.
    apply Forall_take. assumption.
Qed.

Lemma log_callback_run (buf0 : list ascii) (severity : Z) (msg : string)
    (w : world) :
  suppressed msg w = false →
  ∃ sev dom format pre,
    libevent_logging_callback buf0 severity msg w
    = Ok tt (add_log
               [LogEntry sev dom format
                  (pre ++ [Str (string_of_list_ascii
                                  (c_string (fill_buffer buf0 msg)))])] w).
Proof.
  intros Hs. unfold libevent_logging_callback, suppressed in *.
  unfold bind at 1. unfold get at 1. cbv beta iota.
  rewrite Hs.
  destruct (severity =? _EVENT_LOG_DEBUG);
    [exists LOG_DEBUG, [LD_NOCB; LD_NET], "Message from libevent: %s"%string,
       []; reflexivity |].
  destruct (severity =? _EVENT_LOG_MSG);
    [exists LOG_INFO, [LD_NOCB; LD_NET], "Message from libevent: %s"%string,
       []; reflexivity |].
  destruct (severity =? _EVENT_LOG_WARN);
    [exists LOG_WARN, [LD_NOCB; LD_GENERAL],
       "Warning from libevent: %s"%string, []; reflexivity |].
  destruct (severity =? _EVENT_LOG_ERR);
    [exists LOG_ERR, [LD_NOCB; LD_GENERAL],
       "Error from libevent: %s"%string, []; reflexivity |].
  exists LOG_WARN, [LD_NOCB; LD_GENERAL],
    "Message [%d] from libevent: %s"%string, [Int severity]. reflexivity.
Qed.

(** C10: a message that is not suppressed goes through the 1024-byte
    buffer.  A message of at most 1023 bytes is forwarded with one trailing
    newline removed, if it has one; a longer message is forwarded cut to its
    first 1023 bytes, and nothing is trimmed from it.  What the buffer held
    before does not matter. *)
Theorem log_callback_forwards_through_buffer (buf0 : list ascii)
    (severity : Z) (msg : string) (w : world) :
  length buf0 = 1024%nat → no_nul msg = true → suppressed msg w = false →
  length (fill_buffer buf0 msg) = 1024%nat
  ∧ c_string (fill_buffer buf0 msg)
    = (if (length (chars msg) <=? 1023)%nat
       then without_trailing_newline (chars msg)
       else take 1023 (chars msg))
  ∧ ∃ sev dom format pre,
      libevent_logging_callback buf0 severity msg w
      = Ok tt (add_log
                 [LogEntry sev dom format
                    (pre ++ [Str (string_of_list_ascii
                       (if (length (chars msg) <=? 1023)%nat
                        then without_trailing_newline (chars msg)
                        else take 1023 (chars msg)))])] w).
Proof.
  intros Hlen Hn Hs.
  split; [apply fill_buffer_length; assumption |].
  split; [apply fill_buffer_text; assumption |].
  rewrite <- (fill_buffer_text buf0 msg Hn).
  apply log_callback_run. assumption.
Qed.

Lemma log_callback_forwards_through_buffer_witness :
  length (replicate 1024 "x"%char) = 1024%nat
  ∧ no_nul hi_line = true
  ∧ suppressed hi_line initial_world
    = false
  ∧ c_string (fill_buffer (replicate 1024 "x"%char)
                hi_line)
    = ["h"%char; "i"%char].
Proof.
  split; [reflexivity |]. split; [reflexivity |]. split; [reflexivity |].
  exact (proj1 (proj2
           (log_callback_forwards_through_buffer (replicate 1024 "x"%char)
              _EVENT_LOG_MSG hi_line
              initial_world eq_refl eq_refl eq_refl))).
Defined.

(** A suppressed message leaves no trace. *)
Lemma log_callback_suppressed (buf0 : list ascii) (severity : Z)
    (msg : string) (w : world) :
  suppressed msg w = true →
  libevent_logging_callback buf0 severity msg w = Ok tt w.
Proof.
  intros Hs. unfold libevent_logging_callback, suppressed in *.
  unfold bind at 1. unfold get at 1. cbv beta iota.
  rewrite Hs. reflexivity.
Qed.

(** ** The event base *)

(** C2 (as amended): [tor_libevent_get_base] has no assertion; before the
    initialisation it returns the null event base and leaves the state as
    it is.  In every state it returns [the_event_base]. *)
Theorem get_base_before_initialize_is_null (w : world) :
  the_event_base w = None →
  tor_libevent_get_base w = Ok None w
  ∧ tor_libevent_get_base initial_world = Ok None initial_world
  ∧ (∀ w', tor_libevent_get_base w' = Ok (the_event_base w') w').
Proof.
  intros H. unfold tor_libevent_get_base, get. rewrite H.
  repeat split; reflexivity.
Qed.

Lemma get_base_before_initialize_is_null_witness :
  the_event_base initial_world = None
  ∧ tor_libevent_get_base initial_world = Ok None initial_world.
Proof.
  split; [reflexivity |].
  exact (proj1 (get_base_before_initialize_is_null initial_world eq_refl)).
Defined.

(** C2 as stated fails: in the initial state, where
    [tor_libevent_initialize] has not run, the call returns the null event
    base and does not fail. *)
Lemma get_base_does_not_fail_before_initialize :
  the_event_base initial_world = None
  ∧ tor_libevent_get_base initial_world = Ok None initial_world
  ∧ tor_libevent_get_base initial_world ≠ AssertionFailed.
Proof.
  split; [reflexivity |]. split; [reflexivity |].
  intros H. discriminate H.
Qed.

Lemma initialize_asserts_fresh_state (b : build) (lib : libevent) (w : world) :
  the_event_base w ≠ None → tor_libevent_initialize b lib w = AssertionFailed.
Proof.
  intros H. unfold tor_libevent_initialize.
  unfold bind at 1. unfold get at 1. cbv beta iota.
  unfold bind at 1. unfold tor_assert.
  destruct (the_event_base w); [reflexivity | congruence].
Qed.

Lemma initialize_sets_base (b : build) (lib : libevent) (w w' : world) :
  tor_libevent_initialize b lib w = Ok tt w' →
  the_event_base w = None
  ∧ the_event_base w' = event_base_new lib
  ∧ event_base_new lib ≠ None
  ∧ tor_libevent_get_base w' = Ok (event_base_new lib) w'.
Proof.
  unfold tor_libevent_initialize, tor_libevent_get_base.
  unfold bind, get, tor_assert, setenv, log_err, log, modify, exit, ret.
  destruct (the_event_base w) eqn:E0; cbn [is_null]; [discriminate |].
  destruct (event_base_new lib) eqn:Eb;
    repeat match goal with
           | |- context [match ?c with _ => _ end] =>
               match c with
               | context [match _ with _ => _ end] => fail 1
               | _ => destruct c eqn:?
               end
           end;
    cbn; intros H; try discriminate H; inversion H; subst; cbn in *;
    try discriminate; repeat split; congruence.
Qed.

(** ** Periodic timers *)

Ltac world_simpl :=
  cbn [events timers the_event_base suppress_msg event_room environ log_out
       set_events set_timers set_log set_base set_room set_environ
       set_suppress].

Lemma event_add_run (e : positive) (x : event) (t : timeval) (w : world) :
  events w !! e = Some x →
  event_add (Some e) t w
  = Ok 0 (set_events (<[e := set_pending x (Some t)]> (events w)) w).
Proof.
  intros H. unfold event_add, bind, load_event. rewrite H. reflexivity.
Qed.

Lemma event_del_run (e : positive) (x : event) (w : world) :
  events w !! e = Some x →
  event_del (Some e) w
  = Ok 0 (set_events (<[e := set_pending x None]> (events w)) w).
Proof.
  intros H. unfold event_del, bind, load_event. rewrite H. reflexivity.
Qed.

Lemma tor_event_free_run (e : positive) (x : event) (w : world) :
  events w !! e = Some x →
  tor_event_free (Some e) w = Ok tt (set_events (delete e (events w)) w).
Proof.
  intros H. unfold tor_event_free. unfold bind at 1.
  rewrite (event_del_run e x w H).
  unfold tor_free_event, bind, load_event, modify.
  world_simpl. rewrite lookup_insert_eq. world_simpl.
  rewrite delete_insert_eq. reflexivity.
Qed.

Lemma periodic_timer_free_run (p e : positive) (t : periodic_timer_t)
    (x : event) (w : world) :
  timers w !! p = Some t → ev t = Some e → events w !! e = Some x →
  periodic_timer_free (Some p) w
  = Ok tt (set_timers (delete p (timers w))
             (set_events (delete e (events w)) w)).
Proof.
  intros Ht He Hx. unfold periodic_timer_free. cbn [is_null].
  unfold bind at 1. unfold load_timer at 1. rewrite Ht, He.
  unfold bind at 1. rewrite (tor_event_free_run e x w Hx).
  unfold tor_free_timer, bind, load_timer, modify.
  world_simpl. rewrite Ht. reflexivity.
Qed.

Lemma periodic_timer_free_released (p : positive) (w : world) :
  timers w !! p = None → periodic_timer_free (Some p) w = Undefined.
Proof.
  intros H. unfold periodic_timer_free. cbn [is_null].
  unfold bind at 1. unfold load_timer at 1. rewrite H. reflexivity.
Qed.

(** C3 (as amended): destroying the null timer changes nothing.  Destroying
    a live timer releases its event and the timer itself.  The code has no
    guard for a timer already destroyed: a second destroy of the same
    pointer reads released memory, which is undefined, and is neither a
    no-op nor the state after one destroy. *)
Theorem destroy_null_is_noop_and_destroy_releases (p e : positive)
    (t : periodic_timer_t) (x : event) (w : world) :
  timers w !! p = Some t → ev t = Some e → events w !! e = Some x →
  periodic_timer_free None w = Ok tt w
  ∧ periodic_timer_free (Some p) w
    = Ok tt (set_timers (delete p (timers w))
               (set_events (delete e (events w)) w))
  ∧ (periodic_timer_free (Some p) ;; periodic_timer_free None) w
    = periodic_timer_free (Some p) w
  ∧ (periodic_timer_free (Some p) ;; periodic_timer_free (Some p)) w
    = Undefined.
Proof.
  intros Ht He Hx.
  pose proof (periodic_timer_free_run p e t x w Ht He Hx) as Hrun.
  split; [reflexivity |]. split; [exact Hrun |].
  split.
  - unfold bind. rewrite Hrun. reflexivity.
  - unfold bind. rewrite Hrun.
    apply periodic_timer_free_released.
    world_simpl. apply lookup_delete_eq.
Qed.

Lemma destroy_null_is_noop_and_destroy_releases_witness :
  timers (scheduled_world (orconfig OtherOS)) !! 1%positive
  = Some (PeriodicTimer (Some 1%positive) (Some 0%nat) 7 (Timeval 0 0))
  ∧ events (scheduled_world (orconfig OtherOS)) !! 1%positive
    = Some (Event (Some 1%positive) (-1) EV_PERSIST Periodic_timer_cb
              (Some 1%positive) (Some demo_interval))
  ∧ periodic_timer_free None (scheduled_world (orconfig OtherOS))
    = Ok tt (scheduled_world (orconfig OtherOS)).
Proof.
  split; [reflexivity |]. split; [reflexivity |].
  exact (proj1
           (destroy_null_is_noop_and_destroy_releases 1%positive 1%positive
              (PeriodicTimer (Some 1%positive) (Some 0%nat) 7 (Timeval 0 0))
              (Event (Some 1%positive) (-1) EV_PERSIST Periodic_timer_cb
                 (Some 1%positive) (Some demo_interval))
              (scheduled_world (orconfig OtherOS))
              eq_refl eq_refl eq_refl)).
Defined.

(** C3 as stated fails: for the timer created in the initial state, one
    destroy succeeds, and a second destroy of the same pointer is undefined
    and not the state after one destroy. *)
Lemma double_destroy_is_undefined :
  scheduled (orconfig OtherOS)
  = Ok (Some 1%positive) (scheduled_world (orconfig OtherOS))
  ∧ periodic_timer_free (Some 1%positive) (scheduled_world (orconfig OtherOS))
    = Ok tt (set_room 15 initial_world)
  ∧ periodic_timer_free (Some 1%positive) (set_room 15 initial_world)
    = Undefined
  ∧ (periodic_timer_free (Some 1%positive) ;;
     periodic_timer_free (Some 1%positive))
      (scheduled_world (orconfig OtherOS))
    ≠ periodic_timer_free (Some 1%positive)
        (scheduled_world (orconfig OtherOS)).
Proof.
  repeat (split; [vm_compute; reflexivity |]).
  vm_compute. intros H. discriminate H.
Qed.

Lemma bind_ok {A B} (m : M A) (k : A → M B) (a : A) (w w' : world) :
  m w = Ok a w' → (x <- m ;; k x) w = k a w'.
Proof. intros H. unfold bind. rewrite H. reflexivity. Qed.

Lemma load_timer_run (p : positive) (t : periodic_timer_t) (w : world) :
  timers w !! p = Some t → load_timer (Some p) w = Ok t w.
Proof. intros H. unfold load_timer. rewrite H. reflexivity. Qed.

Lemma store_timer_run (p : positive) (t t' : periodic_timer_t) (w : world) :
  timers w !! p = Some t →
  store_timer (Some p) t' w
  = Ok tt (set_timers (<[p := t']> (timers w)) w).
Proof.
  intros H. unfold store_timer.
  rewrite (bind_ok _ _ t w w (load_timer_run p t w H)). reflexivity.
Qed.

Lemma tor_event_new_replacement (b : build) (base : positive) (sock what : Z)
    (cb : event_callback) (arg : option positive) (w : world) :
  HAVE_EVENT2_EVENT_H b = false →
  tor_event_new b (Some base) sock what cb arg w
  = Ok (Some (fresh (dom (events w))))
       (set_events
          (<[fresh (dom (events w)) := Event (Some base) sock what cb arg None]>
             (events w)) w).
Proof.
  intros Hb. unfold tor_event_new. rewrite Hb.
  unfold bind, tor_malloc_zero_event, ret, modify. cbn [is_null].
  world_simpl. rewrite insert_insert_eq. reflexivity.
Qed.

(** Without Libevent 2 a new timer keeps the interval in its field [tv] and
    its event is a one-shot event pending with that interval. *)
Lemma periodic_timer_new_emulated (b : build) (base : positive)
    (interval : timeval) (f : nat) (data : Z) (w : world) :
  HAVE_EVENT2_EVENT_H b = false →
  periodic_timer_new b (Some base) (Some interval) (Some f) data w
  = Ok (Some (fresh (dom (timers w))))
       (set_events
          (<[fresh (dom (events w)) :=
               Event (Some base) (-1) 0 Periodic_timer_cb
                 (Some (fresh (dom (timers w)))) (Some interval)]> (events w))
          (set_timers
             (<[fresh (dom (timers w)) :=
                  PeriodicTimer (Some (fresh (dom (events w)))) (Some f) data
                    interval]> (timers w)) w)).
Proof.
  intros Hb. unfold periodic_timer_new, PERIODIC_FLAGS, HAVE_PERIODIC.
  rewrite Hb. cbn [is_null negb].
  rewrite !bool_decide_eq_true_2 by eauto.
  unfold tor_assert.
  rewrite (bind_ok _ _ tt w w eq_refl).
  rewrite (bind_ok _ _ tt w w eq_refl).
  rewrite (bind_ok _ _ tt w w eq_refl).
  set (p := fresh (dom (timers w))).
  set (e := fresh (dom (events w))).
  erewrite bind_ok by (unfold tor_malloc_zero_timer; reflexivity).
  erewrite bind_ok by (apply tor_event_new_replacement; assumption).
  world_simpl. fold e p.
  erewrite bind_ok
    by (apply load_timer_run; world_simpl; apply lookup_insert_eq).
  erewrite bind_ok
    by (eapply store_timer_run; world_simpl; apply lookup_insert_eq).
  cbn [is_null]. world_simpl.
  erewrite bind_ok
    by (eapply store_timer_run; world_simpl; apply lookup_insert_eq).
  world_simpl.
  erewrite bind_ok
    by (eapply event_add_run; world_simpl; apply lookup_insert_eq).
  unfold ret. world_simpl. rewrite !insert_insert_eq. reflexivity.
Qed.

Section TimerFiring.

Variable user_cb : nat → option positive → Z → M unit.
Variable b : build.

Lemma periodic_timer_cb_emulated (p e : positive) (f : nat)
    (t : periodic_timer_t) (x : event) (w : world) :
  HAVE_PERIODIC b = false →
  timers w !! p = Some t → ev t = Some e → cb t = Some f →
  events w !! e = Some x →
  periodic_timer_cb user_cb b (Some p) w
  = user_cb f (Some p) (data t)
      (set_events (<[e := set_pending x (Some (tv t))]> (events w)) w).
Proof.
  intros Hb Ht He Hf Hx. unfold periodic_timer_cb. rewrite Hb.
  unfold bind at 1. unfold bind at 1. unfold load_timer at 1.
  rewrite Ht, He. unfold bind at 1.
  rewrite (event_add_run e x (tv t) w Hx).
  unfold ret at 1. unfold bind, load_timer. world_simpl.
  rewrite Ht, Hf. reflexivity.
Qed.

Lemma periodic_timer_cb_native (p : positive) (f : nat)
    (t : periodic_timer_t) (w : world) :
  HAVE_PERIODIC b = true →
  timers w !! p = Some t → cb t = Some f →
  periodic_timer_cb user_cb b (Some p) w = user_cb f (Some p) (data t) w.
Proof.
  intros Hb Ht Hf. unfold periodic_timer_cb. rewrite Hb.
  unfold bind, ret, load_timer. rewrite Ht, Hf. reflexivity.
Qed.

Lemma event_fire_emulated (p e : positive) (f : nat)
    (t : periodic_timer_t) (x : event) (w : world) :
  HAVE_PERIODIC b = false →
  timers w !! p = Some t → ev t = Some e → cb t = Some f →
  events w !! e = Some x →
  ev_cb x = Periodic_timer_cb → ev_arg x = Some p →
  is_Some (ev_pending x) → Z.land (ev_what x) EV_PERSIST = 0 →
  event_fire user_cb b (Some e) w
  = user_cb f (Some p) (data t)
      (set_events (<[e := set_pending x (Some (tv t))]> (events w)) w).
Proof.
  intros Hb Ht He Hf Hx Hcb Harg [i Hpend] Hflag.
  unfold event_fire. unfold bind at 1. unfold load_event at 1.
  rewrite Hx, Hpend, Hflag. cbn [Z.eqb].
  unfold bind at 1. unfold bind at 1.
  rewrite (event_del_run e x w Hx). unfold ret at 1.
  rewrite Hcb, Harg.
  rewrite (periodic_timer_cb_emulated p e f t (set_pending x None));
    try assumption.
  - world_simpl. rewrite insert_insert_eq. reflexivity.
  - world_simpl. apply lookup_insert_eq.
Qed.

(** C9: without native periodic timers, a firing first adds the event
    again with the interval stored in the timer, and then calls the
    user's callback with the timer and the user's data: the callback
    starts in the state in which the event is pending with that
    interval.  This holds for the callback [periodic_timer_cb] itself and
    for the loop firing the one-shot event. *)
Theorem emulated_firing_rearms_before_callback (p e : positive) (f : nat)
    (t : periodic_timer_t) (x : event) (w : world) :
  HAVE_PERIODIC b = false →
  timers w !! p = Some t → ev t = Some e → cb t = Some f →
  events w !! e = Some x →
  periodic_timer_cb user_cb b (Some p) w
  = (event_add (ev t) (tv t) ;; user_cb f (Some p) (data t)) w
  ∧ periodic_timer_cb user_cb b (Some p) w
    = user_cb f (Some p) (data t)
        (set_events (<[e := set_pending x (Some (tv t))]> (events w)) w)
  ∧ (ev_pending <$>
       events (set_events (<[e := set_pending x (Some (tv t))]> (events w))
                          w) !! e)
    = Some (Some (tv t))
  ∧ (ev_cb x = Periodic_timer_cb → ev_arg x = Some p →
     is_Some (ev_pending x) → Z.land (ev_what x) EV_PERSIST = 0 →
     event_fire user_cb b (Some e) w
     = user_cb f (Some p) (data t)
         (set_events (<[e := set_pending x (Some (tv t))]> (events w)) w)).
Proof.
  intros Hb Ht He Hf Hx.
  pose proof (periodic_timer_cb_emulated p e f t x w Hb Ht He Hf Hx) as Hrun.
  split.
  { rewrite Hrun. unfold bind. rewrite He.
    rewrite (event_add_run e x (tv t) w Hx). reflexivity. }
  split; [exact Hrun |].
  split.
  { world_simpl. rewrite lookup_insert_eq. reflexivity. }
  intros Hcb Harg Hpend Hflag.
  apply event_fire_emulated; assumption.
Qed.

End TimerFiring.

Lemma emulated_firing_rearms_before_callback_witness :
  HAVE_PERIODIC libevent1_build = false
  ∧ timers (scheduled_world libevent1_build) !! 1%positive
    = Some (PeriodicTimer (Some 1%positive) (Some 0%nat) 7 demo_interval)
  ∧ events (scheduled_world libevent1_build) !! 1%positive
    = Some (Event (Some 1%positive) (-1) 0 Periodic_timer_cb
              (Some 1%positive) (Some demo_interval))
  ∧ periodic_timer_cb self_destroying_cb libevent1_build (Some 1%positive)
      (scheduled_world libevent1_build)
    = self_destroying_cb 0%nat (Some 1%positive) 7
        (set_events
           (<[1%positive :=
                set_pending
                  (Event (Some 1%positive) (-1) 0 Periodic_timer_cb
                     (Some 1%positive) (Some demo_interval))
                  (Some demo_interval)]>
              (events (scheduled_world libevent1_build)))
           (scheduled_world libevent1_build)).
Proof.
  split; [reflexivity |]. split; [reflexivity |]. split; [reflexivity |].
  exact (proj1 (proj2
           (emulated_firing_rearms_before_callback self_destroying_cb
              libevent1_build 1%positive 1%positive 0%nat
              (PeriodicTimer (Some 1%positive) (Some 0%nat) 7 demo_interval)
              (Event (Some 1%positive) (-1) 0 Periodic_timer_cb
                 (Some 1%positive) (Some demo_interval))
              (scheduled_world libevent1_build)
              eq_refl eq_refl eq_refl eq_refl eq_refl))).
Defined.

(** A timer made by [periodic_timer_new] without Libevent 2 fires as the
    theorem says: the loop's firing hands the callback the very state the
    creation left, the event pending again with the interval given at
    creation. *)
Lemma created_timer_fires_with_its_interval
    (user_cb : nat → option positive → Z → M unit) (b : build)
    (base : positive) (interval : timeval) (f : nat) (data : Z)
    (w w1 : world) (p : option positive) :
  HAVE_EVENT2_EVENT_H b = false →
  periodic_timer_new b (Some base) (Some interval) (Some f) data w
  = Ok p w1 →
  p = Some (fresh (dom (timers w)))
  ∧ event_fire user_cb b (Some (fresh (dom (events w)))) w1
    = user_cb f p data w1.
Proof.
  intros Hb Hnew.
  rewrite (periodic_timer_new_emulated b base interval f data w Hb) in Hnew.
  inversion Hnew as [[Hp Hw]]. split; [reflexivity |]. clear Hnew.
  set (pa := fresh (dom (timers w))).
  set (e := fresh (dom (events w))).
  set (t := PeriodicTimer (Some e) (Some f) data interval).
  set (x := Event (Some base) (-1) 0 Periodic_timer_cb (Some pa)
              (Some interval)).
  set (w' := set_events (<[e := x]> (events w))
               (set_timers (<[pa := t]> (timers w)) w)).
  rewrite (event_fire_emulated user_cb b pa e f t x w').
  - subst w'. world_simpl. rewrite insert_insert_eq. reflexivity.
  - exact Hb.
  - subst w'. world_simpl. apply lookup_insert_eq.
  - reflexivity.
  - reflexivity.
  - subst w'. world_simpl. apply lookup_insert_eq.
  - reflexivity.
  - reflexivity.
  - eexists; reflexivity.
  - reflexivity.
Qed.

(** * Further properties *)

(** ** The layout of version numbers *)

Lemma V_as_multiple (major minor patch : Z) :
  V major minor patch
  = (Z.lor (Z.lor (Z.shiftl major 16) (Z.shiftl minor 8)) patch * 2 ^ 8)
    mod 2 ^ 32.
Proof.
  unfold V, wrap32. f_equal.
  rewrite <- Z.shiftl_mul_pow2 by lia.
  rewrite !Z.shiftl_lor, !Z.shiftl_shiftl by lia. reflexivity.
Qed.

(** X1: whatever the components, a version number fits 32 bits and its
    lowest byte is 0 ("the fourth byte is unused"). *)
Theorem version_number_fits_and_low_byte_is_unused (major minor patch : Z) :
  0 <= V major minor patch < 2 ^ 32
  ∧ V major minor patch mod 2 ^ 8 = 0.
Proof.
  split.
  - unfold V, wrap32. apply Z.mod_pos_bound. lia.
  - rewrite V_as_multiple.
    set (y := Z.lor (Z.lor (Z.shiftl major 16) (Z.shiftl minor 8)) patch).
    change (2 ^ 32) with (2 ^ 24 * 2 ^ 8).
    rewrite Z.mul_mod_distr_r by lia.
    apply Z.mod_mul. lia.
Qed.

(** X2: for components that fit a byte each, the three bytes of the number
    are the components: the triple is read back from its number. *)
Theorem version_number_bytes_are_the_components (major minor patch : Z) :
  0 <= major < 256 → 0 <= minor < 256 → 0 <= patch < 256 →
  V major minor patch / 2 ^ 24 = major
  ∧ (V major minor patch / 2 ^ 16) mod 256 = minor
  ∧ (V major minor patch / 2 ^ 8) mod 256 = patch.
Proof.
  intros HM Hm Hp. rewrite V_bytes by assumption.
  change (2 ^ 24) with 16777216. change (2 ^ 16) with 65536.
  change (2 ^ 8) with 256.
  repeat split.
  - symmetry. apply (Z.div_unique _ _ _ (minor * 65536 + patch * 256)); lia.
  - rewrite <- (Z.div_unique (major * 16777216 + minor * 65536 + patch * 256)
                  65536 (major * 256 + minor) (patch * 256)) by lia.
    symmetry. apply (Z.mod_unique _ _ major); lia.
  - rewrite <- (Z.div_unique (major * 16777216 + minor * 65536 + patch * 256)
                  256 (major * 65536 + minor * 256 + patch) 0) by lia.
    symmetry. apply (Z.mod_unique _ _ (major * 256 + minor)); lia.
Qed.

Lemma version_number_bytes_are_the_components_witness :
  0 <= 1 < 256 ∧ 0 <= 4 < 256 ∧ 0 <= 11 < 256
  ∧ V 1 4 11 / 2 ^ 24 = 1
  ∧ (V 1 4 11 / 2 ^ 16) mod 256 = 4
  ∧ (V 1 4 11 / 2 ^ 8) mod 256 = 11.
Proof.
  split; [lia |]. split; [lia |]. split; [lia |].
  apply (version_number_bytes_are_the_components 1 4 11); lia.
Defined.

(** ** Decoding version texts *)

Lemma chars_append (a b : string) : chars (a +:+ b) = chars a ++ chars b.
Proof.
  unfold chars. induction a as [| c a IH]; [reflexivity |].
  simpl. f_equal. exact IH.
Qed.

Lemma decode_with_formats (v : string) :
  tor_decode_libevent_version v
  = let '(fields, a) := Scanf.run fmt_modern (chars v) [] in
    let major := Scanf.arg 0 a 0 in
    let minor := Scanf.arg 1 a 0 in
    let patchlevel := Scanf.arg 2 a 0 in
    let c := Scanf.arg 3 a 0 in
    let e := Scanf.arg 4 a 0 in
    if (fields =? 3)
       || (((fields =? 4) || (fields =? 5)) && is_sep c)
       || ((fields =? 5) && TOR_ISALPHA c && is_sep e)
    then V major minor patchlevel
    else
      let '(fields, a) := Scanf.run fmt_legacy (chars v) [] in
      let major := Scanf.arg 0 a major in
      let minor := Scanf.arg 1 a minor in
      let c := Scanf.arg 2 a c in
      if (fields =? 3) && TOR_ISALPHA c then V_OLD major minor c
      else if fields =? 2 then V major minor 0
      else LE_OTHER.
Proof. reflexivity. Qed.

Lemma run_modern_on_dotted (major minor patch : Z) (tail : list ascii) :
  0 <= major < 2 ^ 32 → 0 <= minor < 2 ^ 32 → 0 <= patch < 2 ^ 32 →
  no_digit_ahead tail →
  Scanf.run fmt_modern
    (decimal major ++ "."%char :: decimal minor ++ "."%char
       :: decimal patch ++ tail) []
  = Scanf.run [Scanf.Conv_c; Scanf.Conv_c] tail [major; minor; patch].
Proof.
  intros HM Hm Hp Ht. unfold fmt_modern.
  cbn [Scanf.run Scanf.step].
  rewrite scan_unsigned_decimal by (assumption || reflexivity).
  cbn [Scanf.run Scanf.step Ascii.eqb Bool.eqb app].
  rewrite scan_unsigned_decimal by (assumption || reflexivity).
  cbn [Scanf.run Scanf.step Ascii.eqb Bool.eqb app].
  rewrite scan_unsigned_decimal by assumption.
  reflexivity.
Qed.

Lemma run_legacy_on_dotted (major minor patch : Z) (tail : list ascii) :
  0 <= major < 2 ^ 32 → 0 <= minor < 2 ^ 32 →
  ∃ d, Scanf.run fmt_legacy
         (decimal major ++ "."%char :: decimal minor ++ "."%char
            :: decimal patch ++ tail) []
       = (4, [major; minor; chr "."; d]).
Proof.
  intros HM Hm. unfold fmt_legacy.
  cbn [Scanf.run Scanf.step].
  rewrite scan_unsigned_decimal by (assumption || reflexivity).
  cbn [Scanf.run Scanf.step Ascii.eqb Bool.eqb app].
  rewrite scan_unsigned_decimal by (assumption || reflexivity).
  pose proof (decimal_nonempty patch) as Hne.
  destruct (decimal patch) as [| d ds]; [congruence |].
  exists (chr d). reflexivity.
Qed.

Lemma run_legacy_on_plain (major minor : Z) (tail : list ascii) :
  0 <= major < 2 ^ 32 → 0 <= minor < 2 ^ 32 → no_digit_ahead tail →
  Scanf.run fmt_legacy (decimal major ++ "."%char :: decimal minor ++ tail) []
  = Scanf.run [Scanf.Conv_c; Scanf.Conv_c] tail [major; minor].
Proof.
  intros HM Hm Ht. unfold fmt_legacy.
  cbn [Scanf.run Scanf.step].
  rewrite scan_unsigned_decimal by (assumption || reflexivity).
  cbn [Scanf.run Scanf.step Ascii.eqb Bool.eqb app].
  rewrite scan_unsigned_decimal by assumption.
  reflexivity.
Qed.

Lemma run_modern_on_plain (major minor : Z) (tail : list ascii) :
  0 <= major < 2 ^ 32 → 0 <= minor < 2 ^ 32 → no_third_number tail →
  Scanf.run fmt_modern (decimal major ++ "."%char :: decimal minor ++ tail) []
  = (2, [major; minor]).
Proof.
  intros HM Hm Ht. unfold fmt_modern.
  cbn [Scanf.run Scanf.step].
  rewrite scan_unsigned_decimal by (assumption || reflexivity).
  cbn [Scanf.run Scanf.step Ascii.eqb Bool.eqb app].
  rewrite scan_unsigned_decimal.
  - destruct tail as [| c r]; [reflexivity |].
    cbn [Scanf.run Scanf.step]. cbn in Ht.
    destruct (Ascii.eqb c "."); [| reflexivity].
    subst r. reflexivity.
  - assumption.
  - destruct tail as [| c r]; [exact I |]. cbn in *.
    destruct (Ascii.eqb_spec c "."); [subst c; reflexivity | assumption].
Qed.

Lemma chars_dotted_suffix (t : triple) (tail : list ascii) :
  chars (dotted t) ++ tail
  = decimal (t_major t) ++ "."%char :: decimal (t_minor t) ++ "."%char
      :: decimal (t_patch t) ++ tail.
Proof.
  rewrite chars_dotted. rewrite <- app_assoc. cbn [app].
  rewrite <- app_assoc. reflexivity.
Qed.

Lemma chars_legacy_plain_suffix (major minor : Z) (tail : list ascii) :
  chars (legacy_plain major minor) ++ tail
  = decimal major ++ "."%char :: decimal minor ++ tail.
Proof.
  unfold legacy_plain, chars. rewrite list_ascii_of_string_of_list_ascii.
  rewrite <- app_assoc. reflexivity.
Qed.

Ltac decide_fields :=
  change (Z.of_nat 2) with 2; change (Z.of_nat 3) with 3;
  change (Z.of_nat 4) with 4; change (Z.of_nat 5) with 5;
  cbn [Z.eqb Pos.eqb orb andb Scanf.arg nth].

(** X3: the text of a triple decodes to the triple's number, and so does
    the text followed by '-' or '_' and anything, or by one letter, '-' or
    '_' and anything ("1.4.14b-stable").  Followed by anything else that is
    no digit (a letter alone as in "1.4.14b", a blank) the text decodes to
    the sentinel. *)
Theorem decode_modern_text_with_suffix (t : triple) (c : ascii)
    (rest : string) :
  in_unsigned t → Scanf.is_digit c = false →
  tor_decode_libevent_version (dotted t) = tag t
  ∧ tor_decode_libevent_version (dotted t +:+ String c rest)
    = if is_sep (chr c) || (TOR_ISALPHA (chr c) && starts_with_sep rest)
      then tag t else LE_OTHER.
Proof.
  intros (HM & Hm & Hp) Hc.
  split; [apply decode_dotted; assumption |].
  rewrite decode_with_formats, chars_append, chars_dotted_suffix.
  rewrite run_modern_on_dotted by assumption.
  destruct (run_legacy_on_dotted (t_major t) (t_minor t) (t_patch t)
              (chars (String c rest)) HM Hm) as [d Hleg].
  rewrite Hleg. clear Hleg. unfold tag.
  destruct rest as [| e rest]; cbn; decide_fields.
  - destruct (is_sep (chr c)), (TOR_ISALPHA (chr c)); reflexivity.
  - destruct (is_sep (chr c)), (TOR_ISALPHA (chr c)), (is_sep (chr e));
      reflexivity.
Qed.

Lemma decode_modern_text_with_suffix_witness :
  in_unsigned (Triple 1 4 14) ∧ Scanf.is_digit "b" = false
  ∧ tor_decode_libevent_version (dotted (Triple 1 4 14) +:+ "b-stable")
    = tag (Triple 1 4 14)
  ∧ tor_decode_libevent_version (dotted (Triple 1 4 14) +:+ "b")
    = LE_OTHER.
Proof.
  assert (in_unsigned (Triple 1 4 14)) as Ht
    by (unfold in_unsigned; simpl; lia).
  split; [exact Ht |]. split; [reflexivity |].
  split.
  - exact (proj2 (decode_modern_text_with_suffix (Triple 1 4 14) "b"
                    "-stable" Ht eq_refl)).
  - exact (proj2 (decode_modern_text_with_suffix (Triple 1 4 14) "b"
                    EmptyString Ht eq_refl)).
Defined.

Lemma decode_legacy_plain (major minor : Z) :
  0 <= major < 2 ^ 32 → 0 <= minor < 2 ^ 32 →
  tor_decode_libevent_version (legacy_plain major minor) = V major minor 0.
Proof.
  intros HM Hm. rewrite decode_with_formats.
  rewrite <- (app_nil_r (chars (legacy_plain major minor))).
  rewrite chars_legacy_plain_suffix.
  rewrite run_modern_on_plain by (assumption || exact I).
  rewrite run_legacy_on_plain by (assumption || exact I).
  cbn. decide_fields. reflexivity.
Qed.

(** X4: the legacy text "MAJOR.MINOR" decodes to (major, minor, 0); with
    one letter after it, to the number [V_OLD] gives that letter; with one
    other character that is no digit after it, or with two or more
    characters after it that do not start a third number ("1.3e-stable",
    "1.3ee"), to the sentinel. *)
Theorem decode_legacy_text (major minor : Z) (c c' : ascii) (rest : string) :
  0 <= major < 2 ^ 32 → 0 <= minor < 2 ^ 32 → Scanf.is_digit c = false →
  tor_decode_libevent_version (legacy_plain major minor) = V major minor 0
  ∧ tor_decode_libevent_version
      (legacy_plain major minor +:+ String c EmptyString)
    = (if TOR_ISALPHA (chr c) then V_OLD major minor (chr c) else LE_OTHER)
  ∧ (c ≠ "."%char →
     tor_decode_libevent_version
       (legacy_plain major minor +:+ String c (String c' rest))
     = LE_OTHER).
Proof.
  intros HM Hm Hc.
  split; [| split].
  - apply decode_legacy_plain; assumption.
  - rewrite decode_with_formats, chars_append, chars_legacy_plain_suffix.
    rewrite run_modern_on_plain.
    + rewrite run_legacy_on_plain by assumption.
      cbn. decide_fields. reflexivity.
    + assumption.
    + assumption.
    + cbn. destruct (Ascii.eqb c "."); [reflexivity | assumption].
  - intros Hdot.
    rewrite decode_with_formats, chars_append, chars_legacy_plain_suffix.
    rewrite run_modern_on_plain.
    + rewrite run_legacy_on_plain by assumption.
      cbn. decide_fields. reflexivity.
    + assumption.
    + assumption.
    + cbn. apply Ascii.eqb_neq in Hdot. fold (Ascii.eqb c ".").
      rewrite Hdot. assumption.
Qed.

Lemma decode_legacy_text_witness :
  0 <= 1 < 2 ^ 32 ∧ 0 <= 3 < 2 ^ 32 ∧ Scanf.is_digit "e" = false
  ∧ tor_decode_libevent_version (legacy_plain 1 3) = V 1 3 0
  ∧ tor_decode_libevent_version (legacy_plain 1 3 +:+ "e")
    = V_OLD 1 3 (chr "e")
  ∧ tor_decode_libevent_version (legacy_plain 1 3 +:+ "e-stable")
    = LE_OTHER.
Proof.
  assert (0 <= 1 < 2 ^ 32) as H1 by lia.
  assert (0 <= 3 < 2 ^ 32) as H3 by lia.
  assert ("e"%char ≠ "."%char) as He by (intros H; discriminate H).
  split; [exact H1 |]. split; [exact H3 |]. split; [reflexivity |].
  split; [| split].
  - exact (proj1 (decode_legacy_text 1 3 "e" "-" "stable" H1 H3 eq_refl)).
  - exact (proj1 (proj2
             (decode_legacy_text 1 3 "e" "-" "stable" H1 H3 eq_refl))).
  - exact (proj2 (proj2
             (decode_legacy_text 1 3 "e" "-" "stable" H1 H3 eq_refl)) He).
Defined.

(** X5: the legacy texts name the same versions as the modern ones, as the
    comment on [le_version_t] says: "1.0" decodes like "1.0.0", and a text
    with the n-th lower-case letter like the text with patch level n. *)
Theorem legacy_text_agrees_with_modern_text (major minor : Z)
    (letter : ascii) :
  0 <= major < 2 ^ 32 → 0 <= minor < 2 ^ 32 →
  chr "a" <= chr letter <= chr "z" →
  tor_decode_libevent_version (legacy_plain major minor)
  = tor_decode_libevent_version (dotted (Triple major minor 0))
  ∧ tor_decode_libevent_version (legacy_lettered major minor letter)
    = tor_decode_libevent_version
        (dotted (Triple major minor (chr letter - chr "a" + 1))).
Proof.
  intros HM Hm Hl.
  change (chr "a") with 97 in *. change (chr "z") with 122 in Hl.
  split.
  - rewrite decode_legacy_plain by assumption.
    rewrite decode_dotted by (cbn; lia). reflexivity.
  - rewrite decode_legacy_lettered; try assumption.
    + rewrite decode_dotted by (cbn; lia). reflexivity.
    + unfold TOR_ISALPHA. change (chr "a") with 97. change (chr "z") with 122.
      apply orb_true_iff. right. apply andb_true_iff.
      split; apply Z.leb_le; lia.
Qed.

Lemma legacy_text_agrees_with_modern_text_witness :
  0 <= 1 < 2 ^ 32 ∧ 0 <= 3 < 2 ^ 32 ∧ chr "a" <= chr "e" <= chr "z"
  ∧ tor_decode_libevent_version (legacy_lettered 1 3 "e")
    = tor_decode_libevent_version (dotted (Triple 1 3 5)).
Proof.
  assert (0 <= 1 < 2 ^ 32) as H1 by lia.
  assert (0 <= 3 < 2 ^ 32) as H3 by lia.
  assert (chr "a" <= chr "e" <= chr "z") as He by (vm_compute; split; discriminate).
  split; [exact H1 |]. split; [exact H3 |]. split; [exact He |].
  exact (proj2 (legacy_text_agrees_with_modern_text 1 3 "e" H1 H3 He)).
Defined.

(** ** The skew check on release numbers *)

Lemma advisories_differ (hv rv : string) (w : world) :
  add_log (low_severity_advisory hv rv) w
  ≠ add_log (high_severity_advisory hv rv) w.
Proof.
  intros H. apply (f_equal log_out) in H. unfold add_log in H.
  cbn [log_out set_log] in H. apply app_inv_head in H. discriminate H.
Qed.

(** X6: the verdict of the skew check does not depend on which of the two
    differing texts is the headers' and which the library's: both orders
    give the high-severity advisory, or both the low-severity one. *)
Theorem skew_check_is_symmetric (hv rv : string) (lib lib' : libevent)
    (w : world) :
  hv ≠ rv → event_get_version lib = rv → event_get_version lib' = hv →
  (tor_check_libevent_header_compatibility hv lib w
   = Ok tt (add_log (high_severity_advisory hv rv) w)
   ∧ tor_check_libevent_header_compatibility rv lib' w
     = Ok tt (add_log (high_severity_advisory rv hv) w))
  ∨ (tor_check_libevent_header_compatibility hv lib w
     = Ok tt (add_log (low_severity_advisory hv rv) w)
     ∧ tor_check_libevent_header_compatibility rv lib' w
       = Ok tt (add_log (low_severity_advisory rv hv) w)).
Proof.
  intros Hne <- <-.
  rewrite (skew_check_differ (event_get_version lib') lib w) by assumption.
  rewrite (skew_check_differ (event_get_version lib) lib' w) by congruence.
  rewrite (Z.eqb_sym (era (event_get_version lib))).
  destruct (era (event_get_version lib') =? era (event_get_version lib));
    [right | left]; split; reflexivity.
Qed.

Lemma skew_check_is_symmetric_witness :
  "1.4.13-stable"%string ≠ "2.0.1"%string
  ∧ tor_check_libevent_header_compatibility "1.4.13-stable"
      (library_saying "2.0.1") initial_world
    = Ok tt (add_log (high_severity_advisory "1.4.13-stable" "2.0.1")
               initial_world)
  ∧ tor_check_libevent_header_compatibility "2.0.1"
      (library_saying "1.4.13-stable") initial_world
    = Ok tt (add_log (high_severity_advisory "2.0.1" "1.4.13-stable")
               initial_world).
Proof.
  assert ("1.4.13-stable"%string ≠ "2.0.1"%string) as Hne
    by (intros H; discriminate H).
  split; [exact Hne |].
  destruct (skew_check_is_symmetric "1.4.13-stable" "2.0.1"
              (library_saying "2.0.1") (library_saying "1.4.13-stable")
              initial_world Hne eq_refl eq_refl) as [H | [H _]].
  - exact H.
  - exfalso. vm_compute in H. discriminate H.
Defined.

Lemma dotted_injective (a b : triple) :
  in_bytes a → in_bytes b → dotted a = dotted b → a = b.
Proof.
  intros Ha Hb E.
  assert (tag a = tag b) as Ht.
  { destruct Ha as (? & ? & ?), Hb as (? & ? & ?).
    rewrite <- (decode_dotted a), <- (decode_dotted b) by lia.
    rewrite E. reflexivity. }
  rewrite (tag_bytes a Ha), (tag_bytes b Hb) in Ht.
  destruct Ha as (? & ? & ?), Hb as (? & ? & ?).
  apply triple_eq; lia.
Qed.

Lemma era_of_dotted (t : triple) :
  in_bytes t →
  era (dotted t) = 5 ↔ ¬ earlier t (Triple 2 0 1).
Proof.
  intros Ht. unfold era.
  destruct Ht as (HM & Hm & Hp).
  rewrite decode_dotted by lia.
  rewrite tag_bytes by (repeat split; lia).
  unfold le_versions_compatibility, earlier. cbn [t_major t_minor t_patch].
  change LE_OTHER with 25344. change (V_OLD 1 0 (chr "c")) with 16777984.
  change (V 1 4 0) with 17039360. change (V 1 4 99) with 17064704.
  change (V 2 0 1) with 33554688.
  repeat match goal with
         | |- context [?a =? ?b] => destruct (Z.eqb_spec a b)
         | |- context [?a <? ?b] => destruct (Z.ltb_spec a b)
         end; lia.
Qed.

(** X7: "everything 2.0 and later should be compatible": two different
    triples of bytes from 2.0.1 on get the low-severity advisory, and a
    triple before 2.0.1 against one from 2.0.1 on gets the high-severity
    advisory. *)
Theorem releases_from_2_0_1_on_are_compatible (a b : triple)
    (lib : libevent) (w : world) :
  in_bytes a → in_bytes b → a ≠ b → event_get_version lib = dotted b →
  ¬ earlier b (Triple 2 0 1) →
  tor_check_libevent_header_compatibility (dotted a) lib w
  = Ok tt (add_log
             ((if bool_decide (earlier a (Triple 2 0 1))
               then high_severity_advisory else low_severity_advisory)
                (dotted a) (dotted b)) w).
Proof.
  intros Ha Hb Hne Hlib Hb5.
  assert (dotted a ≠ event_get_version lib) as Hd.
  { rewrite Hlib. intros E. apply Hne. apply dotted_injective; assumption. }
  rewrite (skew_check_differ (dotted a) lib w Hd). rewrite Hlib.
  apply (era_of_dotted b Hb) in Hb5. rewrite Hb5.
  destruct (bool_decide_reflect (earlier a (Triple 2 0 1))) as [He | He].
  - assert (era (dotted a) ≠ 5) as H
      by (intros E; apply (era_of_dotted a Ha) in E; contradiction).
    apply Z.eqb_neq in H. rewrite H. reflexivity.
  - apply (era_of_dotted a Ha) in He. rewrite He. reflexivity.
Qed.

Lemma releases_from_2_0_1_on_are_compatible_witness :
  in_bytes (Triple 2 0 10) ∧ in_bytes (Triple 2 0 12)
  ∧ Triple 2 0 10 ≠ Triple 2 0 12
  ∧ ¬ earlier (Triple 2 0 12) (Triple 2 0 1)
  ∧ tor_check_libevent_header_compatibility (dotted (Triple 2 0 10))
      (library_saying (dotted (Triple 2 0 12))) initial_world
    = Ok tt (add_log
               (low_severity_advisory (dotted (Triple 2 0 10))
                  (dotted (Triple 2 0 12))) initial_world).
Proof.
  assert (in_bytes (Triple 2 0 10)) as Ha by (unfold in_bytes; simpl; lia).
  assert (in_bytes (Triple 2 0 12)) as Hb by (unfold in_bytes; simpl; lia).
  assert (Triple 2 0 10 ≠ Triple 2 0 12) as Hne by (intros H; discriminate H).
  assert (¬ earlier (Triple 2 0 12) (Triple 2 0 1)) as Hl
    by (unfold earlier; simpl; lia).
  split; [exact Ha |]. split; [exact Hb |]. split; [exact Hne |].
  split; [exact Hl |].
  exact (releases_from_2_0_1_on_are_compatible (Triple 2 0 10) (Triple 2 0 12)
           (library_saying (dotted (Triple 2 0 12))) initial_world
           Ha Hb Hne eq_refl Hl).
Defined.

(** ** The compatibility matrix, further *)

Lemma check_version_reporting (b : build) (lib : libevent) (m : string)
    (server : bool) (w : world) :
  tor_check_libevent_version b lib m server w
  = reporting
      (most_severe
         (triggered
            (fst (platform_flags (target_os b) server
                    (snd (tor_get_libevent_version b lib))))
            (fst (fst (backend_flags m
                         (snd (tor_get_libevent_version b lib)))))
            (snd (fst (backend_flags m
                         (snd (tor_get_libevent_version b lib)))))
            (snd (backend_flags m (snd (tor_get_libevent_version b lib)))
             && server)))
      m (fst (tor_get_libevent_version b lib))
      (snd (platform_flags (target_os b) server
              (snd (tor_get_libevent_version b lib)))) w.
Proof.
  rewrite check_version_run. unfold compute_flags, reporting.
  destruct (backend_flags m _) as [[bu iff] sl].
  destruct (platform_flags _ _ _) as [tu so]. reflexivity.
Qed.

Lemma thresholds_values :
  V_OLD 1 1 (chr "b") = 16843264 ∧ V 1 1 0 = 16842752
  ∧ V_OLD 1 0 (chr "e") = 16778496 ∧ V_OLD 1 3 (chr "b") = 16974336.
Proof. repeat split; reflexivity. Qed.

Lemma backend_flags_from_1_3b_on (m : string) (version : Z) :
  V_OLD 1 3 (chr "b") <= version →
  backend_flags m version = (false, false, false).
Proof.
  destruct thresholds_values as (E1 & E2 & E3 & E4).
  intros H. unfold backend_flags. rewrite E1, E2, E3. rewrite E4 in H.
  repeat match goal with
         | |- context [?a <? ?b] =>
             replace (a <? b) with false by (symmetry; apply Z.ltb_ge; lia)
         end.
  repeat match goal with
         | |- context [if ?c then _ else _] => destruct c
         end; reflexivity.
Qed.

Lemma platform_flags_from_1_3b_on (os : os_family) (server : bool)
    (version : Z) :
  V_OLD 1 3 (chr "b") <= version →
  fst (platform_flags os server version) = false.
Proof.
  intros H. unfold platform_flags.
  replace (version <? V_OLD 1 3 (chr "b")) with false
    by (symmetry; apply Z.ltb_ge; lia).
  rewrite andb_false_r. destruct os; reflexivity.
Qed.

(** X8: a library from 1.3b on gets no verdict, whatever the backend, the
    role and the platform: nothing is logged and [*badness_out] is
    [NULL]. *)
Theorem no_verdict_from_1_3b_on (b : build) (lib : libevent) (m : string)
    (server : bool) (w : world) :
  V_OLD 1 3 (chr "b") <= snd (tor_get_libevent_version b lib) →
  tor_check_libevent_version b lib m server w = Ok None w.
Proof.
  intros H. rewrite check_version_reporting.
  rewrite (backend_flags_from_1_3b_on m _ H).
  rewrite (platform_flags_from_1_3b_on (target_os b) server _ H).
  cbn. unfold reporting. cbn. rewrite add_log_nil. reflexivity.
Qed.

Lemma no_verdict_from_1_3b_on_witness :
  V_OLD 1 3 (chr "b")
  <= snd (tor_get_libevent_version (orconfig BSD)
            (Libevent "1.4.13-stable" (V 1 4 13) "kqueue" None None))
  ∧ tor_check_libevent_version (orconfig BSD)
      (Libevent "1.4.13-stable" (V 1 4 13) "kqueue" None None)
      "kqueue" true initial_world
    = Ok None initial_world.
Proof.
  assert (V_OLD 1 3 (chr "b")
          <= snd (tor_get_libevent_version (orconfig BSD)
                    (Libevent "1.4.13-stable" (V 1 4 13) "kqueue" None None)))
    as H by (vm_compute; discriminate).
  split; [exact H |].
  exact (no_verdict_from_1_3b_on (orconfig BSD)
           (Libevent "1.4.13-stable" (V 1 4 13) "kqueue" None None)
           "kqueue" true initial_world H).
Defined.

Lemma version_on_platform (os : os_family) (b : build) (lib : libevent) :
  tor_get_libevent_version (on_platform os b) lib
  = tor_get_libevent_version b lib.
Proof. reflexivity. Qed.

Lemma platform_flags_client (os : os_family) (version : Z) :
  platform_flags os false version = (false, EmptyString).
Proof. destruct os; reflexivity. Qed.

Lemma platform_flags_quiet (os : os_family) (server : bool) (version : Z) :
  os = OtherOS ∨ server = false →
  platform_flags os server version = (false, EmptyString).
Proof.
  intros [-> | ->]; [reflexivity | apply platform_flags_client].
Qed.

(** X9: in client role the platform plays no part: the check gives what it
    gives on a platform without the threading problem, and it never
    reports "SLOW". *)
Theorem client_verdict_ignores_platform (b : build) (lib : libevent)
    (m : string) (w : world) :
  tor_check_libevent_version b lib m false w
  = tor_check_libevent_version (on_platform OtherOS b) lib m false w
  ∧ (∀ o w', tor_check_libevent_version b lib m false w = Ok o w' →
             o ≠ Some "SLOW"%string).
Proof.
  rewrite !check_version_reporting, version_on_platform.
  cbn [target_os on_platform]. rewrite !platform_flags_client.
  split; [reflexivity |].
  rewrite andb_false_r. cbn [fst snd].
  destruct (backend_flags m _) as [[bu iff] sl]. cbn [fst snd].
  intros o w' H. unfold reporting in H.
  destruct bu, iff; cbn in H; inversion H; discriminate.
Qed.

Lemma client_verdict_ignores_platform_witness :
  tor_check_libevent_version (orconfig BSD) libevent_1_0_select "select"
    false initial_world
  = Ok None initial_world
  ∧ tor_check_libevent_version (orconfig BSD) libevent_1_0_select "select"
      false initial_world
    = tor_check_libevent_version (on_platform OtherOS (orconfig BSD))
        libevent_1_0_select "select" false initial_world
  ∧ (None : option string) ≠ Some "SLOW"%string.
Proof.
  assert (tor_check_libevent_version (orconfig BSD) libevent_1_0_select
            "select" false initial_world = Ok None initial_world) as H
    by reflexivity.
  split; [exact H |].
  split.
  - exact (proj1 (client_verdict_ignores_platform (orconfig BSD)
                    libevent_1_0_select "select" initial_world)).
  - exact (proj2 (client_verdict_ignores_platform (orconfig BSD)
                    libevent_1_0_select "select" initial_world)
             None initial_world H).
Defined.

(** X10: the check never fails and changes nothing but the log.  It logs at
    most one entry, a warning of the general domain, and it stores [NULL]
    in [*badness_out] exactly when it logs nothing; otherwise it stores
    "BROKEN", "BUGGY" or "SLOW". *)
Theorem check_version_logs_at_most_one_warning (b : build) (lib : libevent)
    (m : string) (server : bool) (w : world) :
  ∃ o es,
    tor_check_libevent_version b lib m server w = Ok o (add_log es w)
    ∧ (length es <= 1)%nat
    ∧ (o = None ↔ es = [])
    ∧ Forall (fun e => log_sev e = LOG_WARN ∧ log_dom e = [LD_GENERAL]) es
    ∧ (o = None ∨ o = Some "BROKEN"%string ∨ o = Some "BUGGY"%string
       ∨ o = Some "SLOW"%string).
Proof.
  rewrite check_version_reporting. unfold reporting.
  match goal with
  | |- context [report ?c0 ?m ?v ?s] => generalize c0
  end.
  intros c. eexists _, _. split; [reflexivity |].
  destruct c; cbn;
    (split; [lia |]);
    (split; [split; intros H; (discriminate H || reflexivity) |]);
    (split; [repeat constructor | auto 6]).
Qed.

Lemma not_known_backend (m : string) :
  m ∉ known_backends →
  String.eqb m "kqueue" = false ∧ String.eqb m "epoll" = false
  ∧ String.eqb m "poll" = false ∧ String.eqb m "select" = false
  ∧ String.eqb m "win32" = false.
Proof.
  unfold known_backends. intros H.
  repeat split; apply String.eqb_neq; intros ->; apply H;
    repeat (try (left; fail); right); try left.
Qed.

(** X11: a backend the matrix does not know (any name but "kqueue",
    "epoll", "poll", "select", "win32") raises none of the backend flags:
    only the threading problem of the platform can be reported for it. *)
Theorem unknown_backend_is_judged_by_platform_only (b : build)
    (lib : libevent) (m : string) (server : bool) (w : world) :
  m ∉ known_backends →
  backend_flags m (snd (tor_get_libevent_version b lib))
  = (false, false, false)
  ∧ tor_check_libevent_version b lib m server w
    = if fst (platform_flags (target_os b) server
                (snd (tor_get_libevent_version b lib)))
      then reporting ThreadUnsafe m (fst (tor_get_libevent_version b lib))
             (snd (platform_flags (target_os b) server
                     (snd (tor_get_libevent_version b lib)))) w
      else Ok None w.
Proof.
  intros H. destruct (not_known_backend m H) as (E1 & E2 & E3 & E4 & E5).
  assert (∀ v, backend_flags m v = (false, false, false)) as Hb.
  { intros v. unfold backend_flags. rewrite E1, E2, E3, E4, E5.
    reflexivity. }
  split; [apply Hb |].
  rewrite check_version_reporting, Hb. cbn [fst snd andb].
  destruct (fst (platform_flags _ _ _)); cbn.
  - reflexivity.
  - unfold reporting. cbn. rewrite add_log_nil. reflexivity.
Qed.

Lemma unknown_backend_is_judged_by_platform_only_witness :
  (("devpoll" : string) ∉ known_backends)
  ∧ tor_check_libevent_version (orconfig OtherOS) libevent_1_0_select
      "devpoll" true initial_world
    = Ok None initial_world.
Proof.
  assert (("devpoll" : string) ∉ known_backends) as H.
  { unfold known_backends. intros E.
    repeat (apply elem_of_cons in E as [E | E]; [discriminate E |]).
    inversion E. }
  split; [exact H |].
  exact (proj2 (unknown_backend_is_judged_by_platform_only
                  (orconfig OtherOS) libevent_1_0_select "devpoll" true
                  initial_world H)).
Defined.

(** X12: the thresholds of the matrix, where the threading problem is not
    raised (a platform without it, or client role).  "kqueue" and "win32"
    are reported broken exactly below 1.1b, "epoll" buggy exactly below
    1.1.0, "poll" broken exactly below 1.0e and slow, to a server, from
    1.0e up to 1.1.0, "select" slow, to a server, exactly below 1.1.0. *)
Theorem backend_thresholds (b : build) (lib : libevent) (server : bool)
    (w : world) :
  target_os b = OtherOS ∨ server = false →
  let v := fst (tor_get_libevent_version b lib) in
  let version := snd (tor_get_libevent_version b lib) in
  tor_check_libevent_version b lib "kqueue" server w
  = reporting (if version <? tor_decode_libevent_version "1.1b"
               then Buggy else NoBug) "kqueue" v EmptyString w
  ∧ tor_check_libevent_version b lib "win32" server w
    = reporting (if version <? tor_decode_libevent_version "1.1b"
                 then Buggy else NoBug) "win32" v EmptyString w
  ∧ tor_check_libevent_version b lib "epoll" server w
    = reporting (if version <? tor_decode_libevent_version "1.1.0"
                 then Iffy else NoBug) "epoll" v EmptyString w
  ∧ tor_check_libevent_version b lib "poll" server w
    = reporting (if version <? tor_decode_libevent_version "1.0e"
                 then Buggy
                 else if (version <? tor_decode_libevent_version "1.1.0")
                         && server
                      then Slow else NoBug) "poll" v EmptyString w
  ∧ tor_check_libevent_version b lib "select" server w
    = reporting (if (version <? tor_decode_libevent_version "1.1.0")
                    && server
                 then Slow else NoBug) "select" v EmptyString w.
Proof.
  intros Hq v version.
  change (tor_decode_libevent_version "1.1b") with (V_OLD 1 1 (chr "b")).
  change (tor_decode_libevent_version "1.1.0") with (V 1 1 0).
  change (tor_decode_libevent_version "1.0e") with (V_OLD 1 0 (chr "e")).
  rewrite !check_version_reporting.
  rewrite (platform_flags_quiet _ _ _ Hq). fold version v.
  cbn [backend_flags String.eqb Ascii.eqb Bool.eqb fst snd andb].
  destruct thresholds_values as (E1 & E2 & E3 & _).
  rewrite E1, E2, E3.
  repeat split.
  - destruct (version <? 16843264); reflexivity.
  - destruct (version <? 16843264); reflexivity.
  - destruct (version <? 16842752); reflexivity.
  - destruct (Z.ltb_spec version 16778496), (Z.ltb_spec version 16842752),
      server; try reflexivity; lia.
  - destruct (version <? 16842752), server; reflexivity.
Qed.

Lemma backend_thresholds_witness :
  (target_os (orconfig OtherOS) = OtherOS ∨ true = false)
  ∧ tor_check_libevent_version (orconfig OtherOS) libevent_1_0_select
      "poll" true initial_world
    = reporting Buggy "poll" "1.0" EmptyString initial_world.
Proof.
  assert (target_os (orconfig OtherOS) = OtherOS ∨ true = false) as H
    by (left; reflexivity).
  split; [exact H |].
  exact (proj1 (proj2 (proj2 (proj2
           (backend_thresholds (orconfig OtherOS) libevent_1_0_select true
              initial_world H))))).
Defined.

(** ** The initialisation *)

Lemma initialize_outcome (b : build) (lib : libevent) (w : world) :
  the_event_base w = None →
  tor_libevent_initialize b lib w
  = if HAVE_EVENT2_EVENT_H b && is_null (event_config_new lib)
    then AssertionFailed
    else
      match event_base_new lib with
      | None =>
          Exited 1 (add_log [unable_to_initialize]
                      (kqueue_workaround b lib w))
      | Some a =>
          Ok tt (add_log (initialized_messages b lib)
                   (set_base (Some a) (kqueue_workaround b lib w)))
      end.
Proof.
  intros H0. destruct w as [base sup tm evs room env lg].
  cbn in H0. subst base.
  unfold tor_libevent_initialize, kqueue_workaround, needs_kqueue_workaround,
    initialized_messages, unable_to_initialize.
  unfold bind, get, tor_assert, setenv, log_err, log, modify, exit, ret.
  cbn [the_event_base is_null].
  destruct (target_os b);
    destruct (HAVE_EVENT2_EVENT_H b);
    destruct (event_config_new lib);
    destruct (event_base_new lib);
    destruct (HAVE_EVENT_GET_VERSION b && HAVE_EVENT_GET_METHOD b);
    try destruct (MACOSX_KQUEUE_IS_BROKEN b
                  || (snd (tor_get_libevent_version b lib)
                      <? V_OLD 1 1 (chr "b")));
    cbn; unfold add_log; cbn; rewrite <- ?app_assoc; reflexivity.
Qed.

(** X13: the initialisation succeeds exactly when no event base is set yet,
    the library hands out an event base and, with Libevent 2, a
    configuration; it then sets [the_event_base] to that base, which
    [tor_libevent_get_base] returns from then on. *)
Theorem initialize_succeeds_exactly_when (b : build) (lib : libevent)
    (w : world) :
  ((∃ w', tor_libevent_initialize b lib w = Ok tt w')
   ↔ the_event_base w = None
     ∧ event_base_new lib ≠ None
     ∧ (HAVE_EVENT2_EVENT_H b = true → event_config_new lib ≠ None))
  ∧ (∀ w', tor_libevent_initialize b lib w = Ok tt w' →
           tor_libevent_get_base w' = Ok (event_base_new lib) w'
           ∧ event_base_new lib ≠ None).
Proof.
  split.
  - split.
    + intros [w' H].
      destruct (initialize_sets_base b lib w w' H) as (H0 & _ & Hb & _).
      split; [exact H0 |]. split; [exact Hb |].
      intros H2 Hc. rewrite (initialize_outcome b lib w H0) in H.
      rewrite H2, Hc in H. discriminate H.
    + intros (H0 & Hb & Hc).
      rewrite (initialize_outcome b lib w H0).
      destruct (HAVE_EVENT2_EVENT_H b) eqn:E2.
      * specialize (Hc eq_refl).
        destruct (event_config_new lib); [| congruence]. cbn.
        destruct (event_base_new lib); [eexists; reflexivity | congruence].
      * cbn.
        destruct (event_base_new lib); [eexists; reflexivity | congruence].
  - intros w' H.
    destruct (initialize_sets_base b lib w w' H) as (_ & _ & Hb & Hg).
    split; assumption.
Qed.

Lemma initialize_succeeds_exactly_when_witness :
  tor_libevent_initialize (orconfig OtherOS) libevent_1_0_select initial_world
  = Ok tt (add_log (initialized_messages (orconfig OtherOS)
                      libevent_1_0_select)
             (set_base (Some 2%positive) initial_world))
  ∧ tor_libevent_get_base
      (add_log (initialized_messages (orconfig OtherOS) libevent_1_0_select)
         (set_base (Some 2%positive) initial_world))
    = Ok (Some 2%positive)
        (add_log (initialized_messages (orconfig OtherOS) libevent_1_0_select)
           (set_base (Some 2%positive) initial_world)).
Proof.
  assert (tor_libevent_initialize (orconfig OtherOS) libevent_1_0_select
            initial_world
          = Ok tt (add_log (initialized_messages (orconfig OtherOS)
                              libevent_1_0_select)
                     (set_base (Some 2%positive) initial_world))) as H
    by reflexivity.
  split; [exact H |].
  exact (proj1 (proj2 (initialize_succeeds_exactly_when (orconfig OtherOS)
                         libevent_1_0_select initial_world) _ H)).
Defined.

(** X14: the initialisation cannot run twice: after one that succeeded, a
    second one, with whatever build and library, fails its assertion. *)
Theorem initialize_twice_fails_the_assertion (b b' : build)
    (lib lib' : libevent) (w w' : world) :
  tor_libevent_initialize b lib w = Ok tt w' →
  tor_libevent_initialize b' lib' w' = AssertionFailed
  ∧ (tor_libevent_initialize b lib ;; tor_libevent_initialize b' lib') w
    = AssertionFailed.
Proof.
  intros H.
  destruct (initialize_sets_base b lib w w' H) as (_ & Hb & Hn & _).
  assert (tor_libevent_initialize b' lib' w' = AssertionFailed) as H2
    by (apply initialize_asserts_fresh_state; congruence).
  split; [exact H2 |]. unfold bind. rewrite H. exact H2.
Qed.

Lemma initialize_twice_fails_the_assertion_witness :
  tor_libevent_initialize (orconfig OtherOS) libevent_1_0_select initial_world
  = Ok tt (add_log (initialized_messages (orconfig OtherOS)
                      libevent_1_0_select)
             (set_base (Some 2%positive) initial_world))
  ∧ (tor_libevent_initialize (orconfig OtherOS) libevent_1_0_select ;;
     tor_libevent_initialize (orconfig OtherOS) libevent_1_0_select)
      initial_world
    = AssertionFailed.
Proof.
  assert (tor_libevent_initialize (orconfig OtherOS) libevent_1_0_select
            initial_world
          = Ok tt (add_log (initialized_messages (orconfig OtherOS)
                              libevent_1_0_select)
                     (set_base (Some 2%positive) initial_world))) as H
    by reflexivity.
  split; [exact H |].
  exact (proj2 (initialize_twice_fails_the_assertion (orconfig OtherOS)
                  (orconfig OtherOS) libevent_1_0_select libevent_1_0_select
                  initial_world _ H)).
Defined.

Lemma initialize_needs_null_base (b : build) (lib : libevent) (w : world)
    (o : outcome unit) :
  tor_libevent_initialize b lib w = o → o ≠ AssertionFailed →
  the_event_base w = None.
Proof.
  intros H Ho. destruct (the_event_base w) eqn:E; [| reflexivity].
  rewrite initialize_asserts_fresh_state in H by congruence.
  congruence.
Qed.

(** X15: when the library hands out no event base, the initialisation logs
    "Unable to initialize Libevent" at error severity and exits with
    status 1; [the_event_base] is still null then. *)
Theorem initialize_without_event_base_exits (b : build) (lib : libevent)
    (w : world) :
  the_event_base w = None → event_base_new lib = None →
  (HAVE_EVENT2_EVENT_H b = true → event_config_new lib ≠ None) →
  tor_libevent_initialize b lib w
  = Exited 1 (add_log [unable_to_initialize] (kqueue_workaround b lib w))
  ∧ the_event_base
      (add_log [unable_to_initialize] (kqueue_workaround b lib w)) = None.
Proof.
  intros H0 Hb Hc. rewrite (initialize_outcome b lib w H0), Hb.
  split.
  - destruct (HAVE_EVENT2_EVENT_H b); [| reflexivity].
    specialize (Hc eq_refl).
    destruct (event_config_new lib); [reflexivity | congruence].
  - unfold kqueue_workaround.
    destruct (needs_kqueue_workaround b lib); exact H0.
Qed.

Lemma initialize_without_event_base_exits_witness :
  the_event_base initial_world = None
  ∧ event_base_new (library_saying "2.0.1") = None
  ∧ tor_libevent_initialize libevent1_build (library_saying "2.0.1")
      initial_world
    = Exited 1 (add_log [unable_to_initialize]
                  (kqueue_workaround libevent1_build (library_saying "2.0.1")
                     initial_world)).
Proof.
  split; [reflexivity |]. split; [reflexivity |].
  refine (proj1 (initialize_without_event_base_exits libevent1_build
                   (library_saying "2.0.1") initial_world
                   eq_refl eq_refl _)).
  intros H. discriminate H.
Defined.

(** X16: whether it succeeds or exits, the initialisation leaves timers,
    events and the suppression filter alone, and it changes the environment
    only to switch kqueue off ("EVENT_NOKQUEUE" = "1"), which it does only
    on Apple platforms with a broken kqueue or a library before 1.1b; on
    any other platform the environment stays as it is. *)
Theorem initialize_changes_environment_on_apple_only (b : build)
    (lib : libevent) (w w' : world) (status : Z) :
  tor_libevent_initialize b lib w = Ok tt w'
  ∨ tor_libevent_initialize b lib w = Exited status w' →
  timers w' = timers w ∧ events w' = events w
  ∧ suppress_msg w' = suppress_msg w
  ∧ environ w'
    = (if needs_kqueue_workaround b lib
       then <["EVENT_NOKQUEUE"%string := "1"%string]> (environ w)
       else environ w)
  ∧ (target_os b ≠ Apple → environ w' = environ w).
Proof.
  intros H.
  assert (the_event_base w = None) as H0.
  { destruct H as [H | H];
      apply (initialize_needs_null_base b lib w _ H); discriminate. }
  rewrite (initialize_outcome b lib w H0) in H.
  assert (target_os b ≠ Apple → needs_kqueue_workaround b lib = false) as Hos.
  { unfold needs_kqueue_workaround.
    destruct (target_os b); [reflexivity | congruence | reflexivity]. }
  assert (∀ es base',
            w' = add_log es (set_base base' (kqueue_workaround b lib w)) →
            timers w' = timers w ∧ events w' = events w
            ∧ suppress_msg w' = suppress_msg w
            ∧ environ w'
              = (if needs_kqueue_workaround b lib
                 then <["EVENT_NOKQUEUE"%string := "1"%string]> (environ w)
                 else environ w)
            ∧ (target_os b ≠ Apple → environ w' = environ w)) as Hgen.
  { intros es base' ->. unfold kqueue_workaround.
    destruct (needs_kqueue_workaround b lib) eqn:En; cbn;
      repeat split; try reflexivity.
    intros Ha. specialize (Hos Ha). discriminate Hos. }
  destruct (HAVE_EVENT2_EVENT_H b && is_null (event_config_new lib));
    [destruct H as [H | H]; discriminate H |].
  destruct (event_base_new lib) as [a |].
  - destruct H as [H | H]; [| discriminate H].
    injection H as Hw. symmetry in Hw. exact (Hgen _ _ Hw).
  - destruct H as [H | H]; [discriminate H |].
    injection H as Hs Hw. symmetry in Hw.
    apply (Hgen [unable_to_initialize] (the_event_base w)).
    rewrite Hw. clear.
    destruct w; unfold kqueue_workaround;
      destruct (needs_kqueue_workaround b lib); reflexivity.
Qed.

Lemma initialize_changes_environment_on_apple_only_witness :
  tor_libevent_initialize (orconfig Apple) libevent_1_0_select initial_world
  = Ok tt (add_log (initialized_messages (orconfig Apple) libevent_1_0_select)
             (set_base (Some 2%positive)
                (kqueue_workaround (orconfig Apple) libevent_1_0_select
                   initial_world)))
  ∧ environ
      (add_log (initialized_messages (orconfig Apple) libevent_1_0_select)
         (set_base (Some 2%positive)
            (kqueue_workaround (orconfig Apple) libevent_1_0_select
               initial_world)))
    = <["EVENT_NOKQUEUE"%string := "1"%string]> (environ initial_world).
Proof.
  assert (tor_libevent_initialize (orconfig Apple) libevent_1_0_select
            initial_world
          = Ok tt (add_log (initialized_messages (orconfig Apple)
                              libevent_1_0_select)
                     (set_base (Some 2%positive)
                        (kqueue_workaround (orconfig Apple)
                           libevent_1_0_select initial_world)))) as H
    by reflexivity.
  split; [exact H |].
  exact (proj1 (proj2 (proj2 (proj2
           (initialize_changes_environment_on_apple_only (orconfig Apple)
              libevent_1_0_select initial_world _ 0 (or_introl H)))))).
Defined.

(** ** The log callback, further *)

Lemma starts_with_spec (s p : list ascii) :
  starts_with s p = true ↔ ∃ post, s = p ++ post.
Proof.
  revert s. induction p as [| a p IH]; intros s.
  - destruct s; simpl; split; eauto.
  - destruct s as [| c s]; simpl.
    + split; [discriminate | intros [post H]; discriminate H].
    + rewrite andb_true_iff, IH. split.
      * intros [Ha [post ->]]. apply Ascii.eqb_eq in Ha. subst c.
        exists post. reflexivity.
      * intros [post H]. injection H as -> ->.
        split; [apply Ascii.eqb_refl | eauto].
Qed.

Lemma strstr_spec (haystack needle : list ascii) :
  strstr haystack needle = true
  ↔ ∃ pre post, haystack = pre ++ needle ++ post.
Proof.
  induction haystack as [| c h IH].
  - cbn [strstr]. rewrite orb_false_r, starts_with_spec. split.
    + intros [post H]. exists [], post. exact H.
    + intros (pre & post & H). destruct pre as [| x pre]; [| discriminate H].
      exists post. exact H.
  - cbn [strstr]. rewrite orb_true_iff, starts_with_spec, IH. split.
    + intros [[post H] | (pre & post & H)].
      * exists [], post. exact H.
      * exists (c :: pre), post. rewrite H. reflexivity.
    + intros (pre & post & H). destruct pre as [| x pre].
      * left. exists post. exact H.
      * right. injection H as -> H. exists pre, post. exact H.
Qed.

Lemma add_log_one_changes (e : log_entry) (w : world) :
  add_log [e] w ≠ w.
Proof.
  intros H. apply (f_equal (fun x => length (log_out x))) in H.
  unfold add_log in H. cbn [log_out set_log] in H.
  rewrite length_app in H. cbn [length] in H. lia.
Qed.

(** X17: with a suppression text set, the callback drops a message, leaving
    the state as it is, exactly when the text occurs in the message; an
    empty suppression text therefore drops every message.  Without a
    suppression text every message is logged. *)
Theorem log_callback_drops_exactly_the_matching_messages
    (buf0 : list ascii) (severity : Z) (msg s : string) (w : world) :
  suppress_msg w = Some s →
  (libevent_logging_callback buf0 severity msg w = Ok tt w
   ↔ ∃ pre post, chars msg = pre ++ chars s ++ post)
  ∧ (s = EmptyString →
     libevent_logging_callback buf0 severity msg w = Ok tt w)
  ∧ libevent_logging_callback buf0 severity msg (set_suppress None w)
    ≠ Ok tt (set_suppress None w).
Proof.
  intros Hs.
  assert (suppressed msg w = strstr (chars msg) (chars s)) as Hsup
    by (unfold suppressed; rewrite Hs; reflexivity).
  assert (∀ w0, suppressed msg w0 = false →
                libevent_logging_callback buf0 severity msg w0 ≠ Ok tt w0)
    as Hlogged.
  { intros w0 H0 E.
    destruct (log_callback_run buf0 severity msg w0 H0)
      as (sev & dom & format & pre & Hrun).
    rewrite Hrun in E. injection E as E.
    exact (add_log_one_changes _ _ E). }
  split; [| split].
  - rewrite <- strstr_spec, <- Hsup.
    destruct (suppressed msg w) eqn:E.
    + split; [reflexivity |]. intros _.
      apply log_callback_suppressed. exact E.
    + split; [| discriminate]. intros H.
      exfalso. exact (Hlogged w E H).
  - intros ->. apply log_callback_suppressed. rewrite Hsup.
    apply strstr_spec. exists [], (chars msg). reflexivity.
  - apply Hlogged. reflexivity.
Qed.

Lemma log_callback_drops_exactly_the_matching_messages_witness :
  suppress_msg (set_suppress (Some "kq"%string) initial_world)
  = Some "kq"%string
  ∧ chars "bad kqueue" = chars "bad " ++ chars "kq" ++ chars "ueue"
  ∧ libevent_logging_callback (replicate 1024 "x"%char) _EVENT_LOG_WARN
      "bad kqueue" (set_suppress (Some "kq"%string) initial_world)
    = Ok tt (set_suppress (Some "kq"%string) initial_world).
Proof.
  split; [reflexivity |]. split; [reflexivity |].
  apply (proj1 (log_callback_drops_exactly_the_matching_messages
                  (replicate 1024 "x"%char) _EVENT_LOG_WARN "bad kqueue" "kq"
                  (set_suppress (Some "kq"%string) initial_world) eq_refl)).
  exists (chars "bad "), (chars "ueue"). reflexivity.
Defined.

(** X18: a message that is not suppressed adds exactly one entry to the log
    and changes nothing else.  The entry carries [LD_NOCB], its last
    argument is the text of the buffer, and its severity follows
    Libevent's: debug, message (logged as info), warning, error; any other
    severity is logged as a warning that also carries the number. *)
Theorem log_callback_maps_severities (buf0 : list ascii) (severity : Z)
    (msg : string) (w : world) :
  suppressed msg w = false →
  ∃ e pre,
    libevent_logging_callback buf0 severity msg w = Ok tt (add_log [e] w)
    ∧ LD_NOCB ∈ log_dom e
    ∧ log_args e
      = pre ++ [Str (string_of_list_ascii (c_string (fill_buffer buf0 msg)))]
    ∧ log_sev e
      = (if severity =? _EVENT_LOG_DEBUG then LOG_DEBUG
         else if severity =? _EVENT_LOG_MSG then LOG_INFO
         else if severity =? _EVENT_LOG_WARN then LOG_WARN
         else if severity =? _EVENT_LOG_ERR then LOG_ERR
         else LOG_WARN)
    ∧ pre = (if (0 <=? severity) && (severity <=? 3) then []
             else [Int severity]).
Proof.
  intros Hs. unfold libevent_logging_callback, suppressed in *.
  unfold bind at 1. unfold get at 1. cbv beta iota. rewrite Hs.
  unfold _EVENT_LOG_DEBUG, _EVENT_LOG_MSG, _EVENT_LOG_WARN, _EVENT_LOG_ERR.
  destruct (Z.eqb_spec severity 0) as [-> | H0];
    [eexists _, []; repeat split; try reflexivity; (apply elem_of_cons; left; reflexivity) |].
  destruct (Z.eqb_spec severity 1) as [-> | H1];
    [eexists _, []; repeat split; try reflexivity; (apply elem_of_cons; left; reflexivity) |].
  destruct (Z.eqb_spec severity 2) as [-> | H2];
    [eexists _, []; repeat split; try reflexivity; (apply elem_of_cons; left; reflexivity) |].
  destruct (Z.eqb_spec severity 3) as [-> | H3];
    [eexists _, []; repeat split; try reflexivity; (apply elem_of_cons; left; reflexivity) |].
  eexists _, [Int severity].
  repeat split; try reflexivity; [(apply elem_of_cons; left; reflexivity) |].
  destruct (Z.leb_spec 0 severity), (Z.leb_spec severity 3);
    try reflexivity; lia.
Qed.

Lemma log_callback_maps_severities_witness :
  suppressed hi_line initial_world = false
  ∧ ∃ e pre,
      libevent_logging_callback (replicate 1024 "x"%char) 7 hi_line
        initial_world
      = Ok tt (add_log [e] initial_world)
      ∧ LD_NOCB ∈ log_dom e
      ∧ log_args e
        = pre ++ [Str (string_of_list_ascii
                         (c_string (fill_buffer (replicate 1024 "x"%char)
                                      hi_line)))]
      ∧ log_sev e = LOG_WARN
      ∧ pre = [Int 7].
Proof.
  split; [reflexivity |].
  exact (log_callback_maps_severities (replicate 1024 "x"%char) 7 hi_line
           initial_world eq_refl).
Defined.

(** ** Periodic timers, further *)

Lemma fresh_timer_is_free (w : world) :
  timers w !! fresh (dom (timers w)) = None.
Proof. apply not_elem_of_dom. apply is_fresh. Qed.

Lemma fresh_event_is_free (w : world) :
  events w !! fresh (dom (events w)) = None.
Proof. apply not_elem_of_dom. apply is_fresh. Qed.

Lemma set_same_heaps (w : world) :
  set_timers (timers w) (set_events (events w) w) = w.
Proof. destruct w. reflexivity. Qed.

(** X19: [periodic_timer_new] asserts its arguments: a null event base, a
    null interval or a null callback fails the assertion, whatever the
    other arguments and the state are. *)
Theorem periodic_timer_new_asserts_its_arguments (b : build)
    (base : option positive) (interval : option timeval) (cb : option nat)
    (data : Z) (w : world) :
  base = None ∨ interval = None ∨ cb = None →
  periodic_timer_new b base interval cb data w = AssertionFailed.
Proof.
  intros H. unfold periodic_timer_new, bind, tor_assert.
  destruct base as [a |]; cbn [is_null negb]; [| reflexivity].
  destruct interval as [t |];
    [rewrite bool_decide_eq_true_2 by eauto
    | rewrite bool_decide_eq_false_2 by (intros [? ?]; discriminate);
      reflexivity].
  destruct cb as [f |];
    [| rewrite bool_decide_eq_false_2 by (intros [? ?]; discriminate);
       reflexivity].
  destruct H as [H | [H | H]]; discriminate H.
Qed.

Lemma periodic_timer_new_asserts_its_arguments_witness :
  ((None : option positive) = None ∨ Some demo_interval = None
   ∨ Some 0%nat = None)
  ∧ periodic_timer_new (orconfig OtherOS) None (Some demo_interval)
      (Some 0%nat) 7 initial_world
    = AssertionFailed.
Proof.
  assert ((None : option positive) = None ∨ Some demo_interval = None
          ∨ Some 0%nat = None) as H by (left; reflexivity).
  split; [exact H |].
  exact (periodic_timer_new_asserts_its_arguments (orconfig OtherOS) None
           (Some demo_interval) (Some 0%nat) 7 initial_world H).
Defined.

Lemma periodic_timer_new_no_room (b : build) (base : positive)
    (interval : timeval) (f : nat) (data : Z) (w : world) :
  HAVE_EVENT2_EVENT_H b = true → event_room w = O →
  periodic_timer_new b (Some base) (Some interval) (Some f) data w
  = Ok None w.
Proof.
  intros Hb Hr. unfold periodic_timer_new, PERIODIC_FLAGS, HAVE_PERIODIC,
    tor_event_new.
  rewrite Hb. cbn [is_null negb].
  rewrite !bool_decide_eq_true_2 by eauto.
  unfold tor_assert.
  rewrite (bind_ok _ _ tt w w eq_refl).
  rewrite (bind_ok _ _ tt w w eq_refl).
  rewrite (bind_ok _ _ tt w w eq_refl).
  set (p := fresh (dom (timers w))).
  erewrite bind_ok by (unfold tor_malloc_zero_timer; reflexivity).
  erewrite bind_ok
    by (unfold event_new; world_simpl; rewrite Hr; reflexivity).
  fold p.
  erewrite bind_ok
    by (apply load_timer_run; world_simpl; apply lookup_insert_eq).
  erewrite bind_ok
    by (eapply store_timer_run; world_simpl; apply lookup_insert_eq).
  cbn [is_null]. world_simpl.
  unfold tor_free_timer.
  erewrite bind_ok.
  2:{ erewrite bind_ok
        by (apply load_timer_run; world_simpl; apply lookup_insert_eq).
      unfold modify. reflexivity. }
  unfold ret. world_simpl.
  rewrite !insert_insert_eq.
  rewrite delete_insert_id by apply fresh_timer_is_free.
  destruct w. reflexivity.
Qed.

(** X20: with Libevent 2, when the library cannot hand out an event,
    [periodic_timer_new] returns [NULL] and leaves the state exactly as it
    was: the timer it had allocated is released again. *)
Theorem periodic_timer_new_without_room_leaks_nothing (b : build)
    (base : positive) (interval : timeval) (f : nat) (data : Z)
    (w : world) :
  HAVE_EVENT2_EVENT_H b = true → event_room w = O →
  periodic_timer_new b (Some base) (Some interval) (Some f) data w
  = Ok None w.
Proof. apply periodic_timer_new_no_room. Qed.

Lemma periodic_timer_new_without_room_leaks_nothing_witness :
  HAVE_EVENT2_EVENT_H (orconfig OtherOS) = true
  ∧ event_room (set_room 0 initial_world) = O
  ∧ periodic_timer_new (orconfig OtherOS) (Some 1%positive)
      (Some demo_interval) (Some 0%nat) 7 (set_room 0 initial_world)
    = Ok None (set_room 0 initial_world).
Proof.
  split; [reflexivity |]. split; [reflexivity |].
  exact (periodic_timer_new_without_room_leaks_nothing (orconfig OtherOS)
           1%positive demo_interval 0%nat 7 (set_room 0 initial_world)
           eq_refl eq_refl).
Defined.

Lemma periodic_timer_new_native (b : build) (base : positive)
    (interval : timeval) (f : nat) (data : Z) (w : world) (n : nat) :
  HAVE_EVENT2_EVENT_H b = true → event_room w = S n →
  periodic_timer_new b (Some base) (Some interval) (Some f) data w
  = Ok (Some (fresh (dom (timers w))))
       (set_room n
          (set_events
             (<[fresh (dom (events w)) :=
                  Event (Some base) (-1) EV_PERSIST Periodic_timer_cb
                    (Some (fresh (dom (timers w)))) (Some interval)]>
                (events w))
             (set_timers
                (<[fresh (dom (timers w)) :=
                     PeriodicTimer (Some (fresh (dom (events w)))) (Some f)
                       data (Timeval 0 0)]> (timers w)) w))).
Proof.
  intros Hb Hr. unfold periodic_timer_new, PERIODIC_FLAGS, HAVE_PERIODIC,
    tor_event_new.
  rewrite Hb. cbn [is_null negb].
  rewrite !bool_decide_eq_true_2 by eauto.
  unfold tor_assert.
  rewrite (bind_ok _ _ tt w w eq_refl).
  rewrite (bind_ok _ _ tt w w eq_refl).
  rewrite (bind_ok _ _ tt w w eq_refl).
  set (p := fresh (dom (timers w))).
  set (e := fresh (dom (events w))).
  erewrite bind_ok by (unfold tor_malloc_zero_timer; reflexivity).
  erewrite bind_ok
    by (unfold event_new; world_simpl; rewrite Hr; reflexivity).
  world_simpl. fold e p.
  erewrite bind_ok
    by (apply load_timer_run; world_simpl; apply lookup_insert_eq).
  erewrite bind_ok
    by (eapply store_timer_run; world_simpl; apply lookup_insert_eq).
  cbn [is_null]. world_simpl.
  erewrite bind_ok
    by (eapply store_timer_run; world_simpl; apply lookup_insert_eq).
  world_simpl.
  erewrite bind_ok
    by (eapply event_add_run; world_simpl; apply lookup_insert_eq).
  unfold ret. world_simpl. rewrite !insert_insert_eq. reflexivity.
Qed.

Lemma periodic_timer_new_scheduled (b : build) (base : positive)
    (interval : timeval) (f : nat) (data : Z) (w w' : world)
    (p : positive) :
  periodic_timer_new b (Some base) (Some interval) (Some f) data w
  = Ok (Some p) w' →
  p = fresh (dom (timers w))
  ∧ timers w'
    = <[p := created_timer b (fresh (dom (events w))) f data interval]>
        (timers w)
  ∧ events w'
    = <[fresh (dom (events w)) := created_event b base p interval]>
        (events w)
  ∧ same_outside_heaps w w'.
Proof.
  intros H. unfold created_timer, created_event, PERIODIC_FLAGS,
    HAVE_PERIODIC, same_outside_heaps.
  destruct (HAVE_EVENT2_EVENT_H b) eqn:Hb.
  - destruct (event_room w) as [| n] eqn:Hr.
    + rewrite (periodic_timer_new_no_room b base interval f data w Hb Hr)
        in H.
      discriminate H.
    + rewrite (periodic_timer_new_native b base interval f data w n Hb Hr)
        in H.
      injection H as <- <-. world_simpl. repeat split; reflexivity.
  - rewrite (periodic_timer_new_emulated b base interval f data w Hb) in H.
    injection H as <- <-. world_simpl. repeat split; reflexivity.
Qed.

(** X21: a timer that [periodic_timer_new] returns is scheduled: it sits at
    an address that was free, owns an event at an address that was free,
    the event is pending with the given interval, has [periodic_timer_cb]
    as callback and the timer as argument, and is persistent exactly with
    Libevent 2; the timer holds the callback, the data and, without
    Libevent 2, the interval.  Other timers and events, the event base, the
    log and the environment are as before. *)
Theorem created_timer_is_scheduled (b : build) (base : positive)
    (interval : timeval) (f : nat) (data : Z) (w w' : world)
    (p : positive) :
  periodic_timer_new b (Some base) (Some interval) (Some f) data w
  = Ok (Some p) w' →
  ∃ e,
    timers w !! p = None ∧ events w !! e = None
    ∧ timers w' !! p = Some (created_timer b e f data interval)
    ∧ events w' !! e = Some (created_event b base p interval)
    ∧ (∀ q, q ≠ p → timers w' !! q = timers w !! q)
    ∧ (∀ e', e' ≠ e → events w' !! e' = events w !! e')
    ∧ same_outside_heaps w w'.
Proof.
  intros H.
  destruct (periodic_timer_new_scheduled b base interval f data w w' p H)
    as (Hp & Ht & He & Hs).
  exists (fresh (dom (events w))).
  rewrite Ht, He.
  split; [rewrite Hp; apply fresh_timer_is_free |].
  split; [apply fresh_event_is_free |].
  split; [apply lookup_insert_eq |].
  split; [apply lookup_insert_eq |].
  split; [intros q Hq; apply lookup_insert_ne; congruence |].
  split; [intros e' Hq; apply lookup_insert_ne; congruence |].
  exact Hs.
Qed.

Lemma created_timer_is_scheduled_witness :
  periodic_timer_new libevent1_build (Some 1%positive) (Some demo_interval)
    (Some 0%nat) 7 initial_world
  = Ok (Some 1%positive) (scheduled_world libevent1_build)
  ∧ ∃ e,
      timers initial_world !! 1%positive = None
      ∧ events initial_world !! e = None
      ∧ timers (scheduled_world libevent1_build) !! 1%positive
        = Some (created_timer libevent1_build e 0 7 demo_interval)
      ∧ events (scheduled_world libevent1_build) !! e
        = Some (created_event libevent1_build 1 1 demo_interval)
      ∧ (∀ q, q ≠ 1%positive →
              timers (scheduled_world libevent1_build) !! q
              = timers initial_world !! q)
      ∧ (∀ e', e' ≠ e →
               events (scheduled_world libevent1_build) !! e'
               = events initial_world !! e')
      ∧ same_outside_heaps initial_world (scheduled_world libevent1_build).
Proof.
  assert (periodic_timer_new libevent1_build (Some 1%positive)
            (Some demo_interval) (Some 0%nat) 7 initial_world
          = Ok (Some 1%positive) (scheduled_world libevent1_build)) as H
    by reflexivity.
  split; [exact H |].
  exact (created_timer_is_scheduled libevent1_build 1%positive demo_interval
           0%nat 7 initial_world _ 1%positive H).
Defined.

(** X22: creating a timer and destroying it again is a round trip on the
    heaps: the destroy succeeds, and timers and events are what they were
    before the creation, as are the event base, the log and the
    environment. *)
Theorem create_then_destroy_restores_the_heaps (b : build) (base : positive)
    (interval : timeval) (f : nat) (data : Z) (w w' : world)
    (p : positive) :
  periodic_timer_new b (Some base) (Some interval) (Some f) data w
  = Ok (Some p) w' →
  ∃ w'',
    periodic_timer_free (Some p) w' = Ok tt w''
    ∧ timers w'' = timers w ∧ events w'' = events w
    ∧ same_outside_heaps w w''.
Proof.
  intros H.
  destruct (periodic_timer_new_scheduled b base interval f data w w' p H)
    as (Hp & Ht & He & Hs).
  eexists. split.
  - apply (periodic_timer_free_run p (fresh (dom (events w)))
             (created_timer b (fresh (dom (events w))) f data interval)
             (created_event b base p interval)).
    + rewrite Ht. apply lookup_insert_eq.
    + reflexivity.
    + rewrite He. apply lookup_insert_eq.
  - world_simpl. rewrite Ht, He.
    rewrite delete_insert_id by (rewrite Hp; apply fresh_timer_is_free).
    rewrite delete_insert_id by apply fresh_event_is_free.
    repeat split; try reflexivity; apply Hs.
Qed.

Lemma create_then_destroy_restores_the_heaps_witness :
  periodic_timer_new (orconfig OtherOS) (Some 1%positive)
    (Some demo_interval) (Some 0%nat) 7 initial_world
  = Ok (Some 1%positive) (scheduled_world (orconfig OtherOS))
  ∧ ∃ w'',
      periodic_timer_free (Some 1%positive)
        (scheduled_world (orconfig OtherOS)) = Ok tt w''
      ∧ timers w'' = timers initial_world
      ∧ events w'' = events initial_world
      ∧ same_outside_heaps initial_world w''.
Proof.
  assert (periodic_timer_new (orconfig OtherOS) (Some 1%positive)
            (Some demo_interval) (Some 0%nat) 7 initial_world
          = Ok (Some 1%positive) (scheduled_world (orconfig OtherOS))) as H
    by reflexivity.
  split; [exact H |].
  exact (create_then_destroy_restores_the_heaps (orconfig OtherOS) 1%positive
           demo_interval 0%nat 7 initial_world _ 1%positive H).
Defined.

Lemma periodic_timer_cb_any_mode
    (user_cb : nat → option positive → Z → M unit) (b : build)
    (p e : positive) (f : nat) (t : periodic_timer_t) (x : event)
    (w : world) :
  timers w !! p = Some t → ev t = Some e → cb t = Some f →
  events w !! e = Some x →
  periodic_timer_cb user_cb b (Some p) w
  = user_cb f (Some p) (data t)
      (if HAVE_PERIODIC b then w
       else set_events (<[e := set_pending x (Some (tv t))]> (events w)) w).
Proof.
  intros Ht He Hf Hx. destruct (HAVE_PERIODIC b) eqn:Hb.
  - apply periodic_timer_cb_native; assumption.
  - apply periodic_timer_cb_emulated; assumption.
Qed.

Lemma event_fire_any_mode
    (user_cb : nat → option positive → Z → M unit) (b : build)
    (p e : positive) (f : nat) (t : periodic_timer_t) (x : event)
    (w : world) :
  timers w !! p = Some t → ev t = Some e → cb t = Some f →
  events w !! e = Some x →
  ev_cb x = Periodic_timer_cb → ev_arg x = Some p →
  is_Some (ev_pending x) →
  ∃ o,
    event_fire user_cb b (Some e) w
    = user_cb f (Some p) (data t)
        (set_events (<[e := set_pending x o]> (events w)) w)
    ∧ (HAVE_PERIODIC b = false → o = Some (tv t))
    ∧ (HAVE_PERIODIC b = true → Z.land (ev_what x) EV_PERSIST ≠ 0 →
       o = ev_pending x).
Proof.
  intros Ht He Hf Hx Hcb Harg [i Hpend].
  unfold event_fire. unfold bind at 1. unfold load_event at 1.
  rewrite Hx, Hpend, Hcb, Harg.
  destruct (Z.eqb_spec (Z.land (ev_what x) EV_PERSIST) 0) as [Hz | Hz].
  - unfold bind at 1. unfold bind at 1.
    rewrite (event_del_run e x w Hx). unfold ret at 1.
    rewrite (periodic_timer_cb_any_mode user_cb b p e f t
               (set_pending x None));
      [| world_simpl; assumption | assumption | assumption
       | world_simpl; apply lookup_insert_eq].
    destruct (HAVE_PERIODIC b).
    + exists None. split; [reflexivity |].
      split; [discriminate | intros _ H; contradiction].
    + exists (Some (tv t)). world_simpl. rewrite insert_insert_eq.
      split; [reflexivity |]. split; [reflexivity | discriminate].
  - unfold bind at 1. unfold ret at 1.
    rewrite (periodic_timer_cb_any_mode user_cb b p e f t x);
      try assumption.
    destruct (HAVE_PERIODIC b).
    + exists (Some i). rewrite <- Hpend.
      replace (set_pending x (ev_pending x)) with x by (destruct x; reflexivity).
      rewrite insert_id by assumption.
      replace (set_events (events w) w) with w by (destruct w; reflexivity).
      split; [reflexivity |]. split; [discriminate | reflexivity].
    + exists (Some (tv t)).
      split; [reflexivity |]. split; [reflexivity | discriminate].
Qed.

(** X23: a callback may destroy its own timer.  When the loop fires the
    event of a live timer whose callback destroys that timer, the firing
    ends well in both modes, with the timer and its event released and
    everything else as before; the event being added again first does no
    harm. *)
Theorem destroying_the_timer_in_its_callback_is_safe
    (user_cb : nat → option positive → Z → M unit) (b : build)
    (p e : positive) (f : nat) (t : periodic_timer_t) (x : event)
    (w : world) :
  timers w !! p = Some t → ev t = Some e → cb t = Some f →
  events w !! e = Some x →
  ev_cb x = Periodic_timer_cb → ev_arg x = Some p →
  is_Some (ev_pending x) →
  (∀ w0, user_cb f (Some p) (data t) w0 = periodic_timer_free (Some p) w0) →
  event_fire user_cb b (Some e) w
  = Ok tt (set_timers (delete p (timers w))
             (set_events (delete e (events w)) w)).
Proof.
  intros Ht He Hf Hx Hcb Harg Hpend Hfree.
  destruct (event_fire_any_mode user_cb b p e f t x w Ht He Hf Hx Hcb Harg
              Hpend) as (o & Hfire & _).
  rewrite Hfire, Hfree.
  rewrite (periodic_timer_free_run p e t (set_pending x o));
    [| world_simpl; assumption | assumption
     | world_simpl; apply lookup_insert_eq].
  world_simpl. rewrite delete_insert_eq. reflexivity.
Qed.

Lemma destroying_the_timer_in_its_callback_is_safe_witness :
  timers (scheduled_world libevent1_build) !! 1%positive
  = Some (PeriodicTimer (Some 1%positive) (Some 0%nat) 7 demo_interval)
  ∧ events (scheduled_world libevent1_build) !! 1%positive
    = Some (Event (Some 1%positive) (-1) 0 Periodic_timer_cb
              (Some 1%positive) (Some demo_interval))
  ∧ event_fire self_destroying_cb libevent1_build (Some 1%positive)
      (scheduled_world libevent1_build)
    = Ok tt (set_timers (delete 1%positive
                           (timers (scheduled_world libevent1_build)))
               (set_events (delete 1%positive
                              (events (scheduled_world libevent1_build)))
                  (scheduled_world libevent1_build))).
Proof.
  split; [reflexivity |]. split; [reflexivity |].
  refine (destroying_the_timer_in_its_callback_is_safe self_destroying_cb
            libevent1_build 1%positive 1%positive 0%nat
            (PeriodicTimer (Some 1%positive) (Some 0%nat) 7 demo_interval)
            (Event (Some 1%positive) (-1) 0 Periodic_timer_cb
               (Some 1%positive) (Some demo_interval))
            (scheduled_world libevent1_build)
            eq_refl eq_refl eq_refl eq_refl eq_refl eq_refl _ _).
  - eexists. reflexivity.
  - intros w0. reflexivity.
Defined.

Lemma created_timer_ticks_once (b : build) (base p e : positive) (f : nat)
    (data : Z) (interval : timeval) (w : world) :
  timers w !! p = Some (created_timer b e f data interval) →
  events w !! e = Some (created_event b base p interval) →
  event_fire ticking_cb b (Some e) w = Ok tt (add_log [tick] w).
Proof.
  intros Ht Hx.
  destruct (event_fire_any_mode ticking_cb b p e f
              (created_timer b e f data interval)
              (created_event b base p interval) w Ht eq_refl eq_refl Hx
              eq_refl eq_refl) as (o & Hfire & Hem & Hna);
    [eexists; reflexivity |].
  assert (o = Some interval) as ->.
  { unfold created_timer, created_event, PERIODIC_FLAGS, HAVE_PERIODIC in *.
    destruct (HAVE_EVENT2_EVENT_H b).
    - apply Hna; [reflexivity |]. cbn. discriminate.
    - apply Hem. reflexivity. }
  rewrite Hfire.
  replace (set_pending (created_event b base p interval) (Some interval))
    with (created_event b base p interval) by reflexivity.
  rewrite insert_id by assumption.
  replace (set_events (events w) w) with w by (destruct w; reflexivity).
  reflexivity.
Qed.

Lemma created_timer_keeps_ticking (b : build) (base p e : positive)
    (f : nat) (data : Z) (interval : timeval) (n : nat) (w : world) :
  timers w !! p = Some (created_timer b e f data interval) →
  events w !! e = Some (created_event b base p interval) →
  fire_times ticking_cb b (Some e) n w
  = Ok tt (add_log (replicate n tick) w).
Proof.
  revert w. induction n as [| n IH]; intros w Ht Hx.
  - cbn. rewrite add_log_nil. reflexivity.
  - cbn [fire_times]. unfold bind.
    rewrite (created_timer_ticks_once b base p e f data interval w Ht Hx).
    rewrite IH by (world_simpl; assumption).
    rewrite add_log_add_log. reflexivity.
Qed.

(** X24: a created timer keeps firing until it is destroyed.  The new
    timer [p] holds an event [e] whose callback is [periodic_timer_cb] with
    argument [p] and which is pending with the interval.  With a callback
    that only logs a line, firing that event [n] times in a row, in either
    mode, runs the callback [n] times and leaves the rest of the state, the
    timer and its pending event included, as the creation left it. *)
Theorem created_timer_fires_again_and_again (b : build) (base : positive)
    (interval : timeval) (f : nat) (data : Z) (w w' : world)
    (p : positive) :
  periodic_timer_new b (Some base) (Some interval) (Some f) data w
  = Ok (Some p) w' →
  ∃ e t x,
    timers w' !! p = Some t ∧ ev t = Some e ∧ cb t = Some f
    ∧ events w' !! e = Some x
    ∧ ev_cb x = Periodic_timer_cb ∧ ev_arg x = Some p
    ∧ ev_pending x = Some interval
    ∧ ∀ n,
        fire_times ticking_cb b (Some e) n w'
        = Ok tt (add_log (replicate n tick) w').
Proof.
  intros H.
  destruct (periodic_timer_new_scheduled b base interval f data w w' p H)
    as (Hp & Ht & He & Hs).
  exists (fresh (dom (events w))),
    (created_timer b (fresh (dom (events w))) f data interval),
    (created_event b base p interval).
  assert (timers w' !! p
          = Some (created_timer b (fresh (dom (events w))) f data interval))
    as Htp by (rewrite Ht; apply lookup_insert_eq).
  assert (events w' !! fresh (dom (events w))
          = Some (created_event b base p interval))
    as Hex by (rewrite He; apply lookup_insert_eq).
  split; [exact Htp |]. split; [reflexivity |]. split; [reflexivity |].
  split; [exact Hex |]. split; [reflexivity |]. split; [reflexivity |].
  split; [reflexivity |].
  intros n.
  exact (created_timer_keeps_ticking b base p _ f data interval n w' Htp Hex).
Qed.

Lemma created_timer_fires_again_and_again_witness :
  periodic_timer_new libevent1_build (Some 1%positive) (Some demo_interval)
    (Some 0%nat) 7 initial_world
  = Ok (Some 1%positive) (scheduled_world libevent1_build)
  ∧ ∃ e t x,
      timers (scheduled_world libevent1_build) !! 1%positive = Some t
      ∧ ev t = Some e ∧ cb t = Some 0%nat
      ∧ events (scheduled_world libevent1_build) !! e = Some x
      ∧ ev_cb x = Periodic_timer_cb ∧ ev_arg x = Some 1%positive
      ∧ ev_pending x = Some demo_interval
      ∧ ∀ n,
          fire_times ticking_cb libevent1_build (Some e) n
            (scheduled_world libevent1_build)
          = Ok tt
              (add_log (replicate n tick) (scheduled_world libevent1_build)).
Proof.
  assert (periodic_timer_new libevent1_build (Some 1%positive)
            (Some demo_interval) (Some 0%nat) 7 initial_world
          = Ok (Some 1%positive) (scheduled_world libevent1_build)) as H
    by reflexivity.
  split; [exact H |].
  exact (created_timer_fires_again_and_again libevent1_build 1%positive
           demo_interval 0%nat 7 initial_world _ 1%positive H).
Defined.

(** ** Events without Libevent 2 *)

Lemma tor_event_new_without_libevent2 (b : build) (base : option positive)
    (sock what : Z) (cb : event_callback) (arg : option positive)
    (w : world) :
  HAVE_EVENT2_EVENT_H b = false →
  is_null (if is_null base then the_event_base w else base) = false →
  tor_event_new b base sock what cb arg w
  = Ok (Some (fresh (dom (events w))))
       (set_events
          (<[fresh (dom (events w)) :=
               Event (if is_null base then the_event_base w else base)
                 sock what cb arg None]> (events w)) w).
Proof.
  intros Hb Hn. unfold tor_event_new. rewrite Hb.
  unfold bind, tor_malloc_zero_event, tor_libevent_get_base, get, ret,
    modify.
  destruct base as [a |]; cbn [is_null] in *; world_simpl.
  - rewrite insert_insert_eq. reflexivity.
  - destruct (the_event_base w) as [g |]; [| discriminate Hn].
    world_simpl. rewrite insert_insert_eq. reflexivity.
Qed.

Lemma tor_event_new_without_any_base (b : build) (sock what : Z)
    (cb : event_callback) (arg : option positive) (w : world) :
  HAVE_EVENT2_EVENT_H b = false →
  the_event_base w = None →
  tor_event_new b None sock what cb arg w = Undefined.
Proof.
  intros Hb Hn. unfold tor_event_new. rewrite Hb.
  unfold bind, tor_malloc_zero_event, tor_libevent_get_base, get, ret,
    modify.
  cbn [is_null]. world_simpl. rewrite Hn. reflexivity.
Qed.

(** X25: without Libevent 2 the replacements [tor_evtimer_new] and
    [tor_evsignal_new] bind the new event to the given base or, for a null
    base, to [the_event_base].  When that base is not null they never
    return [NULL]: they hand out a fresh event that is not pending, a timer
    event with descriptor -1 and no flags or a persistent signal event, and
    [tor_event_free] of that event gives back the state before.  When the
    argument is null and [the_event_base] is still [NULL], the call hands
    Libevent a null base and its behaviour is undefined. *)
Theorem replacement_constructors_bind_to_the_global_base (b : build)
    (base : option positive) (sig : Z) (cb : event_callback)
    (arg : option positive) (w : world) :
  HAVE_EVENT2_EVENT_H b = false →
  let e := fresh (dom (events w)) in
  let bound := if is_null base then the_event_base w else base in
  events w !! e = None
  ∧ (is_null bound = false →
     tor_evtimer_new b base cb arg w
     = Ok (Some e)
         (set_events (<[e := Event bound (-1) 0 cb arg None]> (events w)) w)
     ∧ tor_evsignal_new b base sig cb arg w
       = Ok (Some e)
           (set_events
              (<[e := Event bound sig (Z.lor EV_SIGNAL EV_PERSIST) cb arg
                        None]> (events w)) w)
     ∧ (e' <- tor_evtimer_new b base cb arg ;; tor_event_free e') w = Ok tt w
     ∧ (e' <- tor_evsignal_new b base sig cb arg ;; tor_event_free e') w
       = Ok tt w)
  ∧ (is_null bound = true →
     tor_evtimer_new b base cb arg w = Undefined
     ∧ tor_evsignal_new b base sig cb arg w = Undefined).
Proof.
  intros Hb e bound.
  pose proof (fresh_event_is_free w) as Hfree. fold e in Hfree.
  unfold tor_evtimer_new, tor_evsignal_new.
  split; [exact Hfree |]. split.
  - intros Hn.
    split; [apply tor_event_new_without_libevent2; assumption |].
    split; [apply tor_event_new_without_libevent2; assumption |].
    split.
    + erewrite bind_ok
        by (apply tor_event_new_without_libevent2; assumption).
      erewrite tor_event_free_run by (world_simpl; apply lookup_insert_eq).
      world_simpl. fold e. rewrite delete_insert_id by exact Hfree.
      destruct w. reflexivity.
    + erewrite bind_ok
        by (apply tor_event_new_without_libevent2; assumption).
      erewrite tor_event_free_run by (world_simpl; apply lookup_insert_eq).
      world_simpl. fold e. rewrite delete_insert_id by exact Hfree.
      destruct w. reflexivity.
  - intros Hn. subst bound.
    destruct base as [a |]; cbn [is_null] in Hn; [discriminate Hn |].
    destruct (the_event_base w) as [g |] eqn:Hg; [discriminate Hn |].
    split; apply tor_event_new_without_any_base; assumption.
Qed.

Lemma replacement_constructors_bind_to_the_global_base_witness :
  HAVE_EVENT2_EVENT_H libevent1_build = false
  ∧ is_null (the_event_base (set_base (Some 2%positive) initial_world))
    = false
  ∧ tor_evsignal_new libevent1_build None 15 (Other_cb 3) None
      (set_base (Some 2%positive) initial_world)
    = Ok (Some 1%positive)
        (set_events
           (<[1%positive :=
                Event (Some 2%positive) 15 24 (Other_cb 3) None None]>
              (events (set_base (Some 2%positive) initial_world)))
           (set_base (Some 2%positive) initial_world))
  ∧ is_null (the_event_base initial_world) = true
  ∧ tor_evtimer_new libevent1_build None (Other_cb 3) None initial_world
    = Undefined.
Proof.
  split; [reflexivity |]. split; [reflexivity |]. split.
  - exact (proj1 (proj2 (proj1 (proj2
             (replacement_constructors_bind_to_the_global_base
                libevent1_build None 15 (Other_cb 3) None
                (set_base (Some 2%positive) initial_world) eq_refl))
             eq_refl))).
  - split; [reflexivity |].
    exact (proj1 (proj2 (proj2
             (replacement_constructors_bind_to_the_global_base
                libevent1_build None 15 (Other_cb 3) None initial_world
                eq_refl)) eq_refl)).
Defined.

(** ** Where the version number comes from *)

Lemma known_backend_cases (m : string) :
  m ∈ known_backends →
  m = "kqueue"%string ∨ m = "epoll"%string ∨ m = "poll"%string
  ∨ m = "select"%string ∨ m = "win32"%string.
Proof.
  unfold known_backends. intros H.
  repeat (apply elem_of_cons in H as [H | H]; [auto 6 |]).
  inversion H.
Qed.

(** X26: the version number of the check is the library's number, or the
    decoded version text when the library has no number, or [LE_OLD] when
    it has no version function at all.  An unparseable text gives the
    sentinel, and the sentinel and [LE_OLD] lie below 1.0e; and for every
    number below 1.0e a server gets a verdict, with a warning logged, for
    each of the five known backends. *)
Theorem version_below_1_0e_always_gets_a_verdict (b : build)
    (lib : libevent) (m : string) (w : world) :
  snd (tor_get_libevent_version b lib) < V_OLD 1 0 (chr "e") →
  m ∈ known_backends →
  (∃ word e,
     tor_check_libevent_version b lib m true w
     = Ok (Some word) (add_log [e] w))
  ∧ (HAVE_EVENT_GET_VERSION_NUMBER b = false →
     HAVE_EVENT_GET_VERSION b = true →
     unparseable (event_get_version lib) →
     snd (tor_get_libevent_version b lib) = LE_OTHER)
  ∧ (HAVE_EVENT_GET_VERSION_NUMBER b = false →
     HAVE_EVENT_GET_VERSION b = false →
     tor_get_libevent_version b lib = ("pre-1.0c"%string, LE_OLD))
  ∧ LE_OTHER < V_OLD 1 0 (chr "e") ∧ LE_OLD < V_OLD 1 0 (chr "e").
Proof.
  intros Hlow Hm.
  split; [| split; [| split; [| split; reflexivity]]].
  - rewrite check_version_reporting.
    set (version := snd (tor_get_libevent_version b lib)) in *.
    destruct thresholds_values as (E1 & E2 & E3 & E4).
    assert (fst (fst (backend_flags m version)) = true
            ∨ snd (fst (backend_flags m version)) = true
            ∨ snd (backend_flags m version) = true) as Hflag.
    { rewrite E3 in Hlow.
      assert ((version <? V_OLD 1 1 (chr "b")) = true) as L1
        by (apply Z.ltb_lt; lia).
      assert ((version <? V 1 1 0) = true) as L2 by (apply Z.ltb_lt; lia).
      assert ((version <? V_OLD 1 0 (chr "e")) = true) as L3
        by (apply Z.ltb_lt; lia).
      destruct (known_backend_cases m Hm) as [-> | [-> | [-> | [-> | ->]]]];
        cbn [backend_flags String.eqb Ascii.eqb Bool.eqb fst snd];
        rewrite ?L1, ?L2, ?L3; auto. }
    destruct (backend_flags m version) as [[bu iff] sl].
    destruct (platform_flags (target_os b) true version) as [tu so].
    cbn [fst snd] in *. rewrite andb_true_r. unfold reporting.
    destruct tu, bu, iff, sl; cbn;
      try (eexists _, _; reflexivity).
    destruct Hflag as [H | [H | H]]; discriminate H.
  - intros Hn Hv [Hmod Hleg]. unfold tor_get_libevent_version.
    rewrite Hn, Hv. cbn [snd]. apply decode_unmatched; assumption.
  - intros Hn Hv. unfold tor_get_libevent_version. rewrite Hn, Hv.
    reflexivity.
Qed.

Lemma version_below_1_0e_always_gets_a_verdict_witness :
  snd (tor_get_libevent_version (Build false false true true OtherOS false)
         (library_saying "garbage"))
  < V_OLD 1 0 (chr "e")
  ∧ ("epoll" : string) ∈ known_backends
  ∧ ∃ word e,
      tor_check_libevent_version (Build false false true true OtherOS false)
        (library_saying "garbage") "epoll" true initial_world
      = Ok (Some word) (add_log [e] initial_world).
Proof.
  assert (snd (tor_get_libevent_version
                 (Build false false true true OtherOS false)
                 (library_saying "garbage"))
          < V_OLD 1 0 (chr "e")) as H by (vm_compute; reflexivity).
  assert (("epoll" : string) ∈ known_backends) as Hm
    by (unfold known_backends; apply elem_of_cons; right;
        apply elem_of_cons; left; reflexivity).
  split; [exact H |]. split; [exact Hm |].
  exact (proj1 (version_below_1_0e_always_gets_a_verdict
                  (Build false false true true OtherOS false)
                  (library_saying "garbage") "epoll" initial_world H Hm)).
Defined.

(** ** White space in version texts *)

(** X27: white space in front of any of the three numbers is skipped: the
    text decodes as it does without it.  (White space after the last
    number is not: by X3 such a text decodes to the sentinel.) *)
Theorem white_space_before_a_number_is_skipped (ws1 ws2 ws3 : list ascii)
    (t : triple) :
  in_unsigned t →
  all_space ws1 = true → all_space ws2 = true → all_space ws3 = true →
  tor_decode_libevent_version (spaced ws1 ws2 ws3 t) = tag t.
Proof.
  intros (HM & Hm & Hp) H1 H2 H3.
  rewrite decode_with_formats. unfold spaced, chars.
  rewrite list_ascii_of_string_of_list_ascii. unfold fmt_modern.
  cbn [Scanf.run Scanf.step].
  rewrite scan_unsigned_skips_space by exact H1.
  rewrite scan_unsigned_decimal by (assumption || reflexivity).
  cbn [Scanf.run Scanf.step Ascii.eqb Bool.eqb app].
  rewrite scan_unsigned_skips_space by exact H2.
  rewrite scan_unsigned_decimal by (assumption || reflexivity).
  cbn [Scanf.run Scanf.step Ascii.eqb Bool.eqb app].
  rewrite scan_unsigned_skips_space by exact H3.
  rewrite <- (app_nil_r (decimal (t_patch t))).
  rewrite scan_unsigned_decimal by (assumption || exact I).
  reflexivity.
Qed.

Lemma white_space_before_a_number_is_skipped_witness :
  in_unsigned (Triple 2 0 1) ∧ all_space [" "%char; "009"%char] = true
  ∧ tor_decode_libevent_version
      (spaced [" "%char; "009"%char] [] [" "%char] (Triple 2 0 1))
    = tag (Triple 2 0 1).
Proof.
  assert (in_unsigned (Triple 2 0 1)) as Ht
    by (unfold in_unsigned; simpl; lia).
  split; [exact Ht |]. split; [reflexivity |].
  exact (white_space_before_a_number_is_skipped [" "%char; "009"%char] []
           [" "%char] (Triple 2 0 1) Ht eq_refl eq_refl eq_refl).
Defined.

(** ** The skew check, its effect on the state *)

(** X28: the skew check never fails and changes nothing but the log, to
    which it adds either nothing or exactly two entries; it adds nothing
    exactly when the two version texts are the same. *)
Theorem skew_check_logs_nothing_or_two_entries (hv : string)
    (lib : libevent) (w : world) :
  ∃ es,
    tor_check_libevent_header_compatibility hv lib w = Ok tt (add_log es w)
    ∧ (es = [] ↔ hv = event_get_version lib)
    ∧ (es ≠ [] → length es = 2%nat).
Proof.
  destruct (String.eqb_spec hv (event_get_version lib)) as [E | E].
  - exists []. rewrite add_log_nil.
    split; [apply skew_check_same; exact E |].
    split; [tauto | congruence].
  - rewrite (skew_check_differ hv lib w E).
    destruct (era hv =? era (event_get_version lib)).
    + exists (low_severity_advisory hv (event_get_version lib)).
      split; [reflexivity |].
      split; [split; [discriminate | contradiction] | reflexivity].
    + exists (high_severity_advisory hv (event_get_version lib)).
      split; [reflexivity |].
      split; [split; [discriminate | contradiction] | reflexivity].
Qed.

Lemma skew_check_logs_nothing_or_two_entries_witness :
  ∃ es,
    tor_check_libevent_header_compatibility "2.0.1" (library_saying "2.0.1")
      initial_world
    = Ok tt (add_log es initial_world)
    ∧ (es = [] ↔ "2.0.1"%string = event_get_version (library_saying "2.0.1"))
    ∧ (es ≠ [] → length es = 2%nat).
Proof.
  exact (skew_check_logs_nothing_or_two_entries "2.0.1"
           (library_saying "2.0.1") initial_world).
Defined.
